(** * NumS execution substrate: kernel and backend properties

    A shallow embedding of the block kernel
    ([nums/core/kernel/numpy_kernel.py]) and of the execution backends
    ([nums/core/systems/systems.py]), with the properties of the
    specification stated and settled against it.

    Python integers are unbounded and are modelled by [Z]; dictionaries
    are stdpp finite maps; floats are IEEE 754 doubles; objects mutated
    in place are modelled by explicit state passing. The first part of
    the file holds the model, the second the auxiliary notions the
    statements use, the third the statements and their proofs. *)

From Stdlib Require Import ZArith List Ascii String Lia Sorted.
From Stdlib Require Import Floats.SpecFloat.
From stdpp Require Import gmap strings list sorting.

Local Open Scope Z_scope.

(** ** Python results *)

Module Py.

(** The exceptions the modelled code can raise. *)
Inductive exn :=
| AssertionError
| KeyError
| IndexError
| TypeError
| ValueError
| AttributeError
| Exception (msg : string).

(** A call either returns a value or raises. *)
Inductive result (A : Type) :=
| Ok (a : A)
| Raise (e : exn).
Arguments Ok {A} a.
Arguments Raise {A} e.

#[export] Instance result_ret : MRet result := fun _ a => Ok a.
#[export] Instance result_bind : MBind result := fun _ _ f m =>
  match m with Ok a => f a | Raise e => Raise e end.
#[export] Instance result_fmap : FMap result := fun _ _ f m =>
  match m with Ok a => Ok (f a) | Raise e => Raise e end.

(** [assert b]. *)
Definition assert (b : bool) : result unit :=
  if b then Ok tt else Raise AssertionError.

(** [d[k]] on a dictionary. *)
Definition getitem `{Countable K} {V} (d : gmap K V) (k : K) : result V :=
  match d !! k with Some v => Ok v | None => Raise KeyError end.

(** [k in d]. *)
Definition contains `{Countable K} {V} (k : K) (d : gmap K V) : bool :=
  bool_decide (is_Some (d !! k)).

(** [sub in s] on strings. *)
Definition str_contains (sub s : string) : bool :=
  match String.index 0 sub s with Some _ => true | None => false end.

(** [l[i]] on a list or tuple, for [i] not negative. *)
Definition list_getitem {X} (l : list X) (i : nat) : result X :=
  match l !! i with Some x => Ok x | None => Raise IndexError end.

(** [t[i]] on a tuple of sizes, negative positions counting from the
    end. *)
Definition tuple_getitem (s : list nat) (i : Z) : result nat :=
  let n := Z.of_nat (length s) in
  let i' := if i <? 0 then i + n else i in
  if (0 <=? i') && (i' <? n) then Ok (nth (Z.to_nat i') s 0%nat)
  else Raise IndexError.

(** A [slice(start, stop, step)] object. *)
Record slice := Slice { start : option Z; stop : option Z; step : option Z }.

End Py.

(** ** IEEE doubles *)

(** Python floats and [float64] array elements are IEEE 754 binary64
    numbers, taken from the standard library's specification. *)
Module Float64.

Definition prec : Z := 53.
Definition emax : Z := 1024.

(** Conversion of an integer, rounding to nearest even. *)
Definition of_Z (z : Z) : spec_float := binary_normalize prec emax z 0 false.

Definition add : spec_float -> spec_float -> spec_float := SFadd prec emax.
Definition mul : spec_float -> spec_float -> spec_float := SFmul prec emax.
Definition div : spec_float -> spec_float -> spec_float := SFdiv prec emax.

Definition zero : spec_float := S754_zero false.
Definition one : spec_float := of_Z 1.

End Float64.

(** ** The parallel random number scheme ([class RNG]) *)

Module RNG.

(** The root bit generator [PCG64(seed)] kept in [self.rng]. *)
Inductive bit_generator := PCG64 (seed : Z).

(** The fields of an [RNG] object. *)
Record t := mk { seed : Z; rng : bit_generator; jump_index : Z }.

(** [__init__(seed=None, jump_index=0)]; [entropy] stands for the
    value [random.getrandbits(128)] draws when no seed is given. *)
Definition init (entropy : Z) (seed : option Z) (jump_index : Z) : t :=
  let seed := match seed with None => entropy | Some s => s end in
  mk seed (PCG64 seed) jump_index.

(** [new_block_rng_params]: the method mutates [self]; the new object
    state is returned next to the result. *)
Definition new_block_rng_params (self : t) : (Z * Z) * t :=
  let params := (seed self, jump_index self) in
  let self := mk (seed self) (rng self) (jump_index self + 1) in
  (params, self).

(** [k] consecutive calls on the same object, results in call order. *)
Fixpoint calls (k : nat) (self : t) : list (Z * Z) * t :=
  match k with
  | O => ([], self)
  | S k' =>
      let '(p, self) := new_block_rng_params self in
      let '(ps, self) := calls k' self in
      (p :: ps, self)
  end.

End RNG.

(** ** Array values ([numpy]) *)

(** The kernel is written against numpy. Its arrays are modelled as
    values: a shape and the elements in C (row-major) order. The two
    element types the properties need are [int64] (a [Z] kept in range
    by wrap-around) and [float64]. Reductions and dot products
    accumulate from left to right; the blocked and pairwise summation
    orders numpy and BLAS use on floats are not modelled. *)
Module Numpy.
Import Py.

Record ndarray (A : Type) := Array { shape : list nat; data : list A }.
Arguments Array {A} shape data.
Arguments shape {A} _.
Arguments data {A} _.

Definition prod (s : list nat) : nat := fold_right Nat.mul 1%nat s.

Definition ndim {A} (a : ndarray A) : nat := length (shape a).

(** [a.size]. *)
Definition size {A} (a : ndarray A) : nat := prod (shape a).

(** All the indices of a shape, in C order. *)
Fixpoint indices (s : list nat) : list (list nat) :=
  match s with
  | [] => [[]]
  | n :: s' => flat_map (fun i => map (cons i) (indices s')) (seq 0 n)
  end.

(** The position of an index in the C-ordered elements. *)
Fixpoint ravel (s idx : list nat) : nat :=
  match s, idx with
  | _ :: s', i :: idx' => (i * prod s' + ravel s' idx')%nat
  | _, _ => 0%nat
  end.

(** Element types. *)
Class Dtype (A : Type) := {
  zero : A;
  one : A;
  add : A -> A -> A;
  mul : A -> A -> A;
  maximum : A -> A -> A;
  minimum : A -> A -> A }.

(** Two's complement wrap-around of 64-bit integer arithmetic. *)
Definition wrap64 (z : Z) : Z := (z + 2 ^ 63) mod 2 ^ 64 - 2 ^ 63.

#[export] Instance int64 : Dtype Z := {|
  zero := 0;
  one := 1;
  add a b := wrap64 (a + b);
  mul a b := wrap64 (a * b);
  maximum := Z.max;
  minimum := Z.min |}.

Definition is_nan (x : spec_float) : bool :=
  match x with S754_nan => true | _ => false end.

(** [np.maximum] and [np.minimum] hand a NaN operand on. *)
Definition fmaximum (x y : spec_float) : spec_float :=
  if is_nan x then x else if is_nan y then y
  else if SFltb x y then y else x.
Definition fminimum (x y : spec_float) : spec_float :=
  if is_nan x then x else if is_nan y then y
  else if SFltb y x then y else x.

#[export] Instance float64 : Dtype spec_float := {|
  zero := Float64.zero;
  one := Float64.one;
  add := Float64.add;
  mul := Float64.mul;
  maximum := fmaximum;
  minimum := fminimum |}.

(** The comparisons of the module [operator] on elements. *)
Class Compare (A : Type) := {
  op_gt : A -> A -> bool;
  op_lt : A -> A -> bool;
  op_ge : A -> A -> bool;
  op_le : A -> A -> bool;
  op_eq : A -> A -> bool;
  op_ne : A -> A -> bool }.

#[export] Instance int64_compare : Compare Z := {|
  op_gt := Z.gtb;
  op_lt := Z.ltb;
  op_ge := Z.geb;
  op_le := Z.leb;
  op_eq := Z.eqb;
  op_ne a b := negb (Z.eqb a b) |}.

#[export] Instance float64_compare : Compare spec_float := {|
  op_gt a b := SFltb b a;
  op_lt := SFltb;
  op_ge a b := SFleb b a;
  op_le := SFleb;
  op_eq := SFeqb;
  op_ne a b := negb (SFeqb a b) |}.

Section Arrays.
Context {A : Type} `{Dtype A}.

(** [a[idx]] for a full index. *)
Definition item (a : ndarray A) (idx : list nat) : A :=
  nth (ravel (shape a) idx) (data a) zero.

(** The array of the given shape whose element at [idx] is [f idx]. *)
Definition tabulate (s : list nat) (f : list nat -> A) : ndarray A :=
  Array s (map f (indices s)).

(** [a.T]: the axes reversed. *)
Definition T (a : ndarray A) : ndarray A :=
  tabulate (rev (shape a)) (fun idx => item a (rev idx)).

Definition remove_axis {B} (k : nat) (l : list B) : list B :=
  firstn k l ++ skipn (S k) l.

Definition insert_axis (k j : nat) (idx : list nat) : list nat :=
  firstn k idx ++ j :: skipn k idx.

(** The elements met along axis [k] from the index [idx] of the other
    axes. *)
Definition lane (a : ndarray A) (k : nat) (idx : list nat) : list A :=
  map (fun j => item a (insert_axis k j idx)) (seq 0 (nth k (shape a) 0%nat)).

(** A reduction: how two elements combine, and its value on no
    element, when it has one. *)
Record reducer := Reducer { identity : option A; combine : A -> A -> A }.

Definition reduce_list (r : reducer) (l : list A) : A :=
  match l with
  | [] => match identity r with Some i => i | None => zero end
  | x :: l' => fold_left (combine r) l' x
  end.

(** [ufunc.reduce(a, axis=axis, keepdims=keepdims)]. *)
Definition reduce (r : reducer) (a : ndarray A) (axis : option Z)
    (keepdims : bool) : result (ndarray A) :=
  match axis with
  | None =>
      _ ← (match data a, identity r with
           | [], None => Raise ValueError
           | _, _ => Ok tt
           end);
      Ok (Array (if keepdims then map (fun _ => 1%nat) (shape a) else [])
                [reduce_list r (data a)])
  | Some axis =>
      k ← (if (0 <=? axis) && (axis <? Z.of_nat (ndim a))
           then Ok (Z.to_nat axis)
           else if (- Z.of_nat (ndim a) <=? axis) && (axis <? 0)
                then Ok (Z.to_nat (axis + Z.of_nat (ndim a)))
                else Raise IndexError);
      _ ← (match nth k (shape a) 0%nat, identity r with
           | O, None => Raise ValueError
           | _, _ => Ok tt
           end);
      Ok (if keepdims
          then tabulate (<[k := 1%nat]> (shape a))
                 (fun idx => reduce_list r (lane a k (remove_axis k idx)))
          else tabulate (remove_axis k (shape a))
                 (fun idx => reduce_list r (lane a k idx)))
  end.

(** The sum of products accumulated from zero, as a dot product
    kernel does. *)
Definition contract (n : nat) (f g : nat -> A) : A :=
  fold_left (fun acc k => add acc (mul (f k) (g k))) (seq 0 n) zero.

(** [np.matmul] on operands of one or two dimensions. *)
Definition matmul (a b : ndarray A) : result (ndarray A) :=
  match shape a, shape b with
  | [m], [m'] =>
      if (m =? m')%nat
      then Ok (tabulate [] (fun _ =>
             contract m (fun k => item a [k]) (fun k => item b [k])))
      else Raise ValueError
  | [m], [m'; n] =>
      if (m =? m')%nat
      then Ok (tabulate [n] (fun idx =>
             let j := nth 0 idx 0%nat in
             contract m (fun k => item a [k]) (fun k => item b [k; j])))
      else Raise ValueError
  | [m; n], [n'] =>
      if (n =? n')%nat
      then Ok (tabulate [m] (fun idx =>
             let i := nth 0 idx 0%nat in
             contract n (fun k => item a [i; k]) (fun k => item b [k])))
      else Raise ValueError
  | [m; n], [n'; p] =>
      if (n =? n')%nat
      then Ok (tabulate [m; p] (fun idx =>
             let i := nth 0 idx 0%nat in
             let j := nth 1 idx 0%nat in
             contract n (fun k => item a [i; k]) (fun k => item b [k; j])))
      else Raise ValueError
  | _, _ => Raise ValueError
  end.

(** [np.tensordot(a, b, axes=(ia, ib))] for one pair of axes. *)
Definition tensordot (a b : ndarray A) (ia ib : nat) : result (ndarray A) :=
  if (ia <? ndim a)%nat && (ib <? ndim b)%nat
     && (nth ia (shape a) 0 =? nth ib (shape b) 0)%nat
  then
    let ra := (ndim a - 1)%nat in
    Ok (tabulate (remove_axis ia (shape a) ++ remove_axis ib (shape b))
          (fun idx =>
             contract (nth ia (shape a) 0%nat)
               (fun k => item a (insert_axis ia k (firstn ra idx)))
               (fun k => item b (insert_axis ib k (skipn ra idx)))))
  else Raise ValueError.

End Arrays.

(** [f(arr, scalar)] for a comparison [f]: the array of booleans. *)
Definition compare_scalar {A} (f : A -> A -> bool) (a : ndarray A) (p : A)
  : ndarray bool :=
  Array (shape a) (map (fun x => f x p) (data a)).

(** [a[mask]] for a boolean array of the shape of [a]: the elements
    under a true entry, in C order, as a vector. *)
Definition getitem_mask {A} (a : ndarray A) (mask : ndarray bool)
  : result (ndarray A) :=
  if decide (shape mask = shape a)
  then let d := (List.filter snd (zip (data a) (data mask))).*1 in
       Ok (Array [length d] d)
  else Raise IndexError.

(** [a[:k]]: the first [k] entries along the first axis. *)
Definition take_first {A} (a : ndarray A) (k : nat) : result (ndarray A) :=
  match shape a with
  | [] => Raise IndexError
  | m :: rest =>
      let m' := Nat.min k m in
      Ok (Array (m' :: rest) (firstn (m' * prod rest) (data a)))
  end.

(** The scan of [np.argmin] and [np.argmax] over integers: the best
    element so far gives way to a strictly better one only. *)
Fixpoint arg_scan (better : Z -> Z -> bool) (best_i : nat) (best : Z)
    (i : nat) (l : list Z) : nat :=
  match l with
  | [] => best_i
  | x :: l' =>
      if better x best then arg_scan better i x (S i) l'
      else arg_scan better best_i best (S i) l'
  end.

Definition np_argmin (l : list Z) : result nat :=
  match l with
  | [] => Raise ValueError
  | x :: l' => Ok (arg_scan Z.ltb 0 x 1 l')
  end.

Definition np_argmax (l : list Z) : result nat :=
  match l with
  | [] => Raise ValueError
  | x :: l' => Ok (arg_scan Z.gtb 0 x 1 l')
  end.

(** A block as the kernel receives it: an array of either dtype. *)
Inductive block :=
| IntBlock (a : ndarray Z)
| FloatBlock (a : ndarray spec_float).

Definition block_shape (b : block) : list nat :=
  match b with IntBlock a => shape a | FloatBlock a => shape a end.

(** [a.astype(np.float64)]. *)
Definition astype_float (a : ndarray Z) : ndarray spec_float :=
  Array (shape a) (map Float64.of_Z (data a)).

Definition to_float (b : block) : ndarray spec_float :=
  match b with IntBlock a => astype_float a | FloatBlock a => a end.

Definition block_T (b : block) : block :=
  match b with IntBlock a => IntBlock (T a) | FloatBlock a => FloatBlock (T a) end.

(** [np.ones(n)]: the dtype defaults to [float64]. *)
Definition np_ones (n : nat) : block := FloatBlock (Array [n] (repeat one n)).

(** [np.eye(n)], in [float64]. *)
Definition np_eye (n : nat) : ndarray spec_float :=
  tabulate [n; n] (fun idx =>
    if (nth 0 idx 0 =? nth 1 idx 0)%nat then one else zero).

(** Binary operations promote: two integer operands stay integer, any
    other pair is computed in [float64]. *)
Definition np_matmul (x y : block) : result block :=
  match x, y with
  | IntBlock a, IntBlock b => IntBlock <$> matmul a b
  | _, _ => FloatBlock <$> matmul (to_float x) (to_float y)
  end.

Definition np_tensordot (x y : block) (axes : Z * Z) : result block :=
  let norm (n : nat) (i : Z) : nat :=
    Z.to_nat (if i <? 0 then i + Z.of_nat n else i) in
  let ia := norm (length (block_shape x)) axes.1 in
  let ib := norm (length (block_shape y)) axes.2 in
  if (axes.1 <? - Z.of_nat (length (block_shape x)))
     || (axes.2 <? - Z.of_nat (length (block_shape y)))
  then Raise IndexError
  else
    match x, y with
    | IntBlock a, IntBlock b => IntBlock <$> tensordot a b ia ib
    | _, _ => FloatBlock <$> tensordot (to_float x) (to_float y) ia ib
    end.

(** [np.sum(arr, axis=axis, keepdims=keepdims)]: the dtype of the
    operand is kept. *)
Definition np_sum (arr : block) (axis : option Z) (keepdims : bool)
  : result block :=
  match arr with
  | IntBlock a => IntBlock <$> reduce (Reducer (Some zero) add) a axis keepdims
  | FloatBlock a => FloatBlock <$> reduce (Reducer (Some zero) add) a axis keepdims
  end.

(** The reductions of numpy's namespace that are modelled. *)
Definition np_reducer {A} `{Dtype A} (name : string) : result (@reducer A) :=
  if decide (name = "sum") then Ok (Reducer (Some zero) add)
  else if decide (name = "prod") then Ok (Reducer (Some one) mul)
  else if decide (name = "max" \/ name = "amax") then Ok (Reducer None maximum)
  else if decide (name = "min" \/ name = "amin") then Ok (Reducer None minimum)
  else Raise AttributeError.

(** [np.__getattribute__(op_name)], as a reduction to be applied with
    [axis=] and [keepdims=]. *)
Definition np_getattribute (op_name : string)
  : result (block -> option Z -> bool -> result block) :=
  ri ← np_reducer (A := Z) op_name;
  rf ← np_reducer (A := spec_float) op_name;
  Ok (fun arr axis keepdims =>
        match arr with
        | IntBlock a => IntBlock <$> reduce ri a axis keepdims
        | FloatBlock a => FloatBlock <$> reduce rf a axis keepdims
        end).

End Numpy.

(** ** Array storage *)

(** Blocks updated in place are modelled with their storage: a heap of
    element buffers, and arrays as views that name a buffer and, for
    each of their elements in C order, its position in the buffer.
    Transposing, reshaping and basic indexing make new views of the
    same buffer; [copy] allocates. Conversions between dtypes on
    assignment are left out: the elements are of any one type. *)
Module Storage.
Import Py Numpy.

Definition loc := positive.

Record view := View { base : loc; vshape : list nat; positions : list nat }.

(** One entry of a subscript: an integer or a slice. *)
Inductive selector :=
| SInt (i : Z)
| SSlice (s : slice).

(** [range( *s.indices(n) )]: the positions a slice selects on an axis
    of length [n]. *)
Definition slice_indices (s : slice) (n : nat) : result (list nat) :=
  let len := Z.of_nat n in
  let step := default 1 (step s) in
  if step =? 0 then Raise ValueError
  else
    let adjust (i : Z) : Z :=
      if i <? 0
      then (if i + len <? 0 then (if step <? 0 then -1 else 0) else i + len)
      else (if len <=? i then (if step <? 0 then len - 1 else len) else i) in
    let first :=
      match start s with
      | Some i => adjust i
      | None => if step <? 0 then len - 1 else 0
      end in
    let last :=
      match stop s with
      | Some i => adjust i
      | None => if step <? 0 then -1 else len
      end in
    let count :=
      if step <? 0
      then (if last <? first then (first - last - 1) / (- step) + 1 else 0)
      else (if first <? last then (last - first - 1) / step + 1 else 0) in
    Ok (map (fun t => Z.to_nat (first + Z.of_nat t * step))
            (seq 0 (Z.to_nat count))).

(** The positions one subscript entry selects on an axis, and whether
    the axis is kept in the result. *)
Definition axis_select (sel : selector) (n : nat) : result (list nat * bool) :=
  match sel with
  | SInt i =>
      let i' := if i <? 0 then i + Z.of_nat n else i in
      if (0 <=? i') && (i' <? Z.of_nat n) then Ok ([Z.to_nat i'], false)
      else Raise IndexError
  | SSlice s => l ← slice_indices s n; Ok (l, true)
  end.

(** A subscript against a shape; axes left without an entry are taken
    whole. *)
Fixpoint select (sels : list selector) (s : list nat)
  : result (list (list nat * bool)) :=
  match sels, s with
  | [], _ => Ok (map (fun n => (seq 0 n, true)) s)
  | _ :: _, [] => Raise IndexError
  | sel :: sels', n :: s' =>
      a ← axis_select sel n;
      rest ← select sels' s';
      Ok (a :: rest)
  end.

Fixpoint cartesian (axes : list (list nat)) : list (list nat) :=
  match axes with
  | [] => [[]]
  | l :: axes' => flat_map (fun i => map (cons i) (cartesian axes')) l
  end.

(** [v.T]. *)
Definition T (v : view) : view :=
  View (base v) (rev (vshape v))
       (map (fun idx => nth (ravel (vshape v) (rev idx)) (positions v) 0%nat)
            (indices (rev (vshape v)))).

(** [v.reshape(s)]; the elements keep their C order. Where numpy has
    to copy to reshape, the copy is only read here, and is not told
    apart from a view. *)
Definition reshape (v : view) (s : list nat) : result view :=
  if (prod s =? length (positions v))%nat
  then Ok (View (base v) s (positions v))
  else Raise ValueError.

(** [v[sels]] as a view. *)
Definition getitem (v : view) (sels : list selector) : result view :=
  axes ← select sels (vshape v);
  Ok (View (base v)
           (map (fun a => length a.1) (List.filter snd axes))
           (map (fun idx => nth (ravel (vshape v) idx) (positions v) 0%nat)
                (cartesian (map fst axes)))).

(** The heap: a buffer of elements at each allocated location. *)
Abbreviation heap A := (gmap loc (list A)).

Section Heap.
Context {A : Type}.

(** Computations that read and write the heap and may raise; the heap
    reached is kept when they raise. *)
Definition st (X : Type) : Type := heap A -> heap A * result X.

Definition st_ret {X} (x : X) : st X := fun h => (h, Ok x).

Definition st_bind {X Y} (m : st X) (f : X -> st Y) : st Y := fun h =>
  match m h with
  | (h', Ok x) => f x h'
  | (h', Raise e) => (h', Raise e)
  end.

Definition lift {X} (r : result X) : st X := fun h => (h, r).

(** [for x in xs: body(x)]. *)
Fixpoint for_each {X} (xs : list X) (body : X -> st unit) : st unit :=
  match xs with
  | [] => st_ret tt
  | x :: xs' => st_bind (body x) (fun _ => for_each xs' body)
  end.

(** The elements of a view. *)
Definition read (v : view) : st (ndarray A) := fun h =>
  match h !! base v with
  | None => (h, Raise KeyError)
  | Some buf =>
      match mapM (fun p => buf !! p) (positions v) with
      | Some elems => (h, Ok (Array (vshape v) elems))
      | None => (h, Raise IndexError)
      end
  end.

(** [v.copy()]: a fresh buffer holding the elements of [v]. *)
Definition copy (v : view) : st view :=
  st_bind (read v) (fun a h =>
    let l := fresh (dom h) in
    (<[l := data a]> h,
     Ok (View l (vshape v) (seq 0 (length (data a)))))).

(** Storing elements at positions of a buffer. *)
Definition write (l : loc) (ps : list nat) (vals : list A) : st unit :=
  fun h =>
    match h !! l with
    | None => (h, Raise KeyError)
    | Some buf =>
        (<[l := fold_left (fun b pv => <[pv.1 := pv.2]> b) (zip ps vals) buf]> h,
         Ok tt)
    end.

Fixpoint strip_ones (k : nat) (s : list nat) : list nat :=
  match k, s with
  | S k', 1%nat :: s' => strip_ones k' s'
  | _, _ => s
  end.

(** The elements of [rhs] broadcast to the shape [ts], in C order. *)
Definition broadcast_to (rhs : ndarray A) (ts : list nat) : result (list A) :=
  let rs := strip_ones (length (shape rhs) - length ts) (shape rhs) in
  if (length ts <? length rs)%nat then Raise ValueError
  else
    let pad := (length ts - length rs)%nat in
    let rs' := repeat 1%nat pad ++ rs in
    if forallb (fun rt => (rt.1 =? rt.2)%nat || (rt.1 =? 1)%nat) (zip rs' ts)
    then
      match mapM (fun idx =>
               data rhs !! ravel rs (skipn pad
                 (zip_with (fun r i => if (r =? 1)%nat then 0%nat else i)
                           rs' idx)))
               (indices ts) with
      | Some vals => Ok vals
      | None => Raise IndexError
      end
    else Raise ValueError.

(** [v[sels] = rhs]. *)
Definition setitem (v : view) (sels : list selector) (rhs : ndarray A)
  : st unit :=
  st_bind (lift (getitem v sels)) (fun target =>
  st_bind (lift (broadcast_to rhs (vshape target))) (fun vals =>
  write (base target) (positions target) vals)).

End Heap.
Arguments st A X : clear implicits.

End Storage.

(** ** Further numpy routines *)

(** The routines of numpy the remaining kernel functions call, on the
    array values of [Numpy]. *)
Module Routines.
Import Py Numpy Storage.

(** [np.broadcast_shapes(s1, s2)]: the shapes are matched from their
    last axis; an axis of length one stretches. *)
Fixpoint broadcast_rev (r1 r2 : list nat) : result (list nat) :=
  match r1, r2 with
  | [], r | r, [] => Ok r
  | n1 :: r1', n2 :: r2' =>
      n ← (if (n1 =? n2)%nat then Ok n1
           else if (n1 =? 1)%nat then Ok n2
           else if (n2 =? 1)%nat then Ok n1
           else Raise ValueError);
      rest ← broadcast_rev r1' r2';
      Ok (n :: rest)
  end.

Definition broadcast_shapes (s1 s2 : list nat) : result (list nat) :=
  r ← broadcast_rev (rev s1) (rev s2);
  Ok (rev r).

Section Elementwise.
Context {A : Type}.

(** [f(a1, a2)] for a binary ufunc [f], with broadcasting. *)
Definition binary (f : A -> A -> A) (a1 a2 : ndarray A)
  : result (ndarray A) :=
  s ← broadcast_shapes (shape a1) (shape a2);
  xs ← broadcast_to a1 s;
  ys ← broadcast_to a2 s;
  Ok (Array s (zip_with f xs ys)).

(** [np.stack(arrs, axis=0)], which is also what [np.asarray] makes
    of a tuple of one or more arrays of one shape. *)
Definition stack (arrs : list (ndarray A)) : result (ndarray A) :=
  match arrs with
  | [] => Raise ValueError
  | a :: rest =>
      if forallb (fun b => bool_decide (shape b = shape a)) rest
      then Ok (Array (length arrs :: shape a) (concat (map data arrs)))
      else Raise ValueError
  end.

End Elementwise.

(** [np.partition(arr, kth)[kth]] on a vector of integers: the element
    that a sort would put at position [kth]. *)
Definition partition_at (arr : list Z) (kth : nat) : result Z :=
  match merge_sort Z.le arr !! kth with
  | Some x => Ok x
  | None => Raise ValueError
  end.

End Routines.

(** ** The block kernel ([numpy_kernel.py]) *)

Module Kernel.
Import Py Numpy Storage.

(** [reduce_axis(op_name, arr, axis, keepdims, transposed)]. *)
Definition reduce_axis (op_name : string) (arr : block) (axis : option Z)
    (keepdims transposed : bool) : result block :=
  op_func ← np_getattribute op_name;
  let arr := if transposed then block_T arr else arr in
  optimize ←
    match axis with
    | None => Ok false
    | Some axis =>
        n ← tuple_getitem (block_shape arr) axis;
        Ok ((1 <? n)%nat && bool_decide (op_name = "sum") && negb keepdims)
    end;
  match optimize, axis with
  | true, Some axis =>
      if (length (block_shape arr) =? 2)%nat then
        _ ← assert (bool_decide (axis = 0 \/ axis = 1));
        if axis =? 0
        then np_matmul (np_ones (nth 0 (block_shape arr) 0%nat)) arr
        else np_matmul arr (np_ones (nth 1 (block_shape arr) 0%nat))
      else
        n ← tuple_getitem (block_shape arr) axis;
        np_tensordot (np_ones n) arr (0, axis)
  | _, _ => op_func arr axis keepdims
  end.

Section InPlace.
Context {A : Type}.

Local Notation "x ← m ; k" := (st_bind (A := A) m (fun x => k))
  (at level 20, m at level 100, k at level 200, only parsing).

(** One round of the loop of [update_block], for the index [i]. *)
Definition update_step (dst_arr : view) (src_arrs : list view)
    (src_params : list (list selector * option (list nat) * bool))
    (dst_params : list (list selector * bool)) (i : nat) : st A unit :=
  src_arr ← lift (list_getitem src_arrs i);
  sp ← lift (list_getitem src_params i);
  let '(src_sel, src_shape_bc, srcT) := sp in
  let src_arr := if srcT then T src_arr else src_arr in
  dp ← lift (list_getitem dst_params i);
  let '(dst_sel, dstT) := dp in
  match src_shape_bc with
  | Some bc =>
      r ← lift (reshape src_arr bc);
      g ← lift (getitem r src_sel);
      rhs ← read g;
      setitem dst_arr dst_sel rhs
  | None =>
      g ← lift (getitem src_arr src_sel);
      rhs ← read g;
      setitem dst_arr dst_sel rhs
  end.

(** [update_block(dst_arr, *src_arrs, src_params=..., dst_params=...)]:
    the block returned, next to the heap reached. *)
Definition update_block (dst_arr : view) (src_arrs : list view)
    (src_params : list (list selector * option (list nat) * bool))
    (dst_params : list (list selector * bool)) : st A view :=
  _ ← lift (assert (length src_params =? length dst_params)%nat);
  dst_arr ← copy dst_arr;
  dp ← lift (list_getitem dst_params 0);
  let dst_arr := if dp.2 then T dst_arr else dst_arr in
  _ ← for_each (seq 0 (length src_params))
        (update_step dst_arr src_arrs src_params dst_params);
  st_ret dst_arr.

(** [update_block_by_index(dst_arr, src_arr, index_pairs)]. *)
Definition update_block_by_index (dst_arr src_arr : view)
    (index_pairs : list (list Z * list Z)) : st A view :=
  result ← copy dst_arr;
  _ ← for_each index_pairs (fun pair =>
        g ← lift (getitem src_arr (map SInt pair.2));
        rhs ← read g;
        setitem result (map SInt pair.1) rhs);
  st_ret result.

End InPlace.

(** The table [ops] of [pivot_partition]. *)
Definition ops {A} `{Compare A} : gmap string (A -> A -> bool) :=
  list_to_map [("gt", op_gt); ("lt", op_lt); ("ge", op_ge);
               ("le", op_le); ("eq", op_eq); ("ne", op_ne)].

(** [pivot_partition(arr, pivot, op)]. *)
Definition pivot_partition {A} `{Compare A} (arr : ndarray A) (pivot : A)
    (op : string) : result (nat * ndarray A) :=
  if (size arr =? 0)%nat then Ok (0%nat, arr)
  else
    _ ← assert (contains op ops);
    f ← Py.getitem ops op;
    comp ← getitem_mask arr (compare_scalar f arr pivot);
    Ok (size comp, comp).

(** [svd(arr)]. The factorisation [np.linalg.svd] is numpy's (LAPACK)
    and is taken as a parameter. *)
Definition svd
    (np_linalg_svd : ndarray spec_float ->
       result (ndarray spec_float * ndarray spec_float * ndarray spec_float))
    (arr : ndarray spec_float)
  : result (ndarray spec_float * ndarray spec_float * ndarray spec_float) :=
  usv ← np_linalg_svd arr;
  let '(u, sigma, vT) := usv in
  k ← tuple_getitem (shape sigma) 0;
  u ← take_first u k;
  Ok (u, sigma, vT).

(** [arg_op(op_name, arr, block_slice, other_argoptima, other_optima)]
    on a one-dimensional integer block, given by its elements. *)
Definition arg_op (op_name : string) (arr : list Z) (block_slice : slice)
    (other_argoptima other_optima : option Z) : result (option Z * Z) :=
  let local (i : nat) (m : Z) : result (option Z * Z) :=
    match start block_slice with
    | Some s => Ok (Some (s + Z.of_nat i), m)
    | None => Raise TypeError
    end in
  if decide (op_name = "argmin") then
    arr_argmin ← np_argmin arr;
    arr_min ← list_getitem arr arr_argmin;
    match other_optima with
    | Some o => if o <? arr_min then Ok (other_argoptima, o)
                else local arr_argmin arr_min
    | None => local arr_argmin arr_min
    end
  else if decide (op_name = "argmax") then
    arr_argmax ← np_argmax arr;
    arr_max ← list_getitem arr arr_argmax;
    match other_optima with
    | Some o => if o >? arr_max then Ok (other_argoptima, o)
                else local arr_argmax arr_max
    | None => local arr_argmax arr_max
    end
  else Raise (Exception "Unsupported arg op.").

(** [transpose(arr)]. *)
Definition transpose {A} `{Dtype A} (arr : ndarray A) : ndarray A := Numpy.T arr.

(** [bop_reduce(op, a1, a2, a1_T, a2_T)] on two arrays of one dtype.
    An array is never the object [np.nan], so the check that follows
    the reduction is the one on the shapes. *)
Definition bop_reduce {A} `{Dtype A} (op : string) (a1 a2 : ndarray A)
    (a1_T a2_T : bool) : result (ndarray A) :=
  let a1 := if a1_T then Numpy.T a1 else a1 in
  let a2 := if a2_T then Numpy.T a2 else a2 in
  r ← (if decide (op = "sum") then Routines.binary add a1 a2
       else if decide (op = "prod") then Routines.binary mul a1 a2
       else
         reduce_op ← np_reducer op;
         a ← Routines.stack [a1; a2];
         reduce reduce_op a (Some 0) false);
  _ ← assert (bool_decide (shape a1 = shape a2 /\ shape a2 = shape r));
  Ok r.

(** [sum_reduce( *arrs )], that is [np.add.reduce(arrs)], on integer
    blocks: the blocks are stacked and added along the new axis. Of no
    block at all the sum is the double 0.0. *)
Definition sum_reduce (arrs : list (ndarray Z)) : result block :=
  match arrs with
  | [] => Ok (FloatBlock (Array [] [zero]))
  | _ =>
      a ← Routines.stack arrs;
      IntBlock <$> reduce (Reducer (Some zero) add) a (Some 0) false
  end.

(** [select_median(arr)] on an integer block. *)
Definition select_median (arr : ndarray Z) : result Z :=
  _ ← assert (ndim arr =? 1)%nat;
  if (size arr =? 0)%nat then Ok 0
  else
    let index := (size arr / 2)%nat in
    Routines.partition_at (data arr) index.

Section Allocation.
Context {A : Type}.

Local Notation "x ← m ; k" := (st_bind (A := A) m (fun x => k))
  (at level 20, m at level 100, k at level 200, only parsing).

(** [np.empty(shape)]: a block in a new buffer, whose elements are
    whatever the memory holds, [garbage p] at position [p]. *)
Definition np_empty (garbage : nat -> A) (s : list nat) : st A view :=
  fun h =>
    let l := fresh (dom h) in
    (<[l := map garbage (seq 0 (prod s))]> h,
     Ok (View l s (seq 0 (prod s)))).

(** One round of the loop of [create_block], for the index [i]: the
    right-hand side is evaluated before the target. *)
Definition create_step (result : view) (src_arrs : list view)
    (src_params : list (list selector * bool))
    (dst_params : list (list selector * bool))
    (dst_shape_bc : option (list nat)) (i : nat) : st A unit :=
  src_arr ← lift (list_getitem src_arrs i);
  sp ← lift (list_getitem src_params i);
  let '(src_sel, srcT) := sp in
  let src_arr := if srcT then T src_arr else src_arr in
  dp ← lift (list_getitem dst_params i);
  let '(dst_sel, dstT) := dp in
  g ← lift (getitem src_arr src_sel);
  rhs ← read g;
  match dst_shape_bc with
  | Some bc =>
      r ← lift (reshape result bc);
      setitem r dst_sel rhs
  | None => setitem result dst_sel rhs
  end.

(** [create_block( *src_arrs, src_params=..., dst_params=...,
    dst_shape=..., dst_shape_bc=...)]. The dtype of the first source
    is read before the block is allocated. *)
Definition create_block (garbage : nat -> A) (src_arrs : list view)
    (src_params : list (list selector * bool))
    (dst_params : list (list selector * bool))
    (dst_shape : list nat) (dst_shape_bc : option (list nat)) : st A view :=
  _ ← lift (list_getitem src_arrs 0);
  result ← np_empty garbage dst_shape;
  _ ← lift (assert (length src_params =? length dst_params)%nat);
  _ ← for_each (seq 0 (length src_params))
        (create_step result src_arrs src_params dst_params dst_shape_bc);
  st_ret result.

End Allocation.

End Kernel.

(** ** The execution backends ([systems.py]) *)

Module Systems.
Import Py.

(** Modelled from the spec: the class [DeviceID], which lives in
    [nums.core.grid.grid] and is only imported by [systems.py]: an
    immutable tuple of node index, node address (the resource tag),
    device kind and device slot, with structural equality and
    hashing. *)
Record DeviceID := mkDeviceID {
  node_id : Z; node_addr : string; device_type : string; device_id : Z }.

#[export] Instance DeviceID_eq_dec : EqDecision DeviceID.
Proof. solve_decision. Defined.

#[export] Instance DeviceID_countable : Countable DeviceID :=
  inj_countable'
    (fun d => (node_id d, node_addr d, device_type d, device_id d))
    (fun '(a, b, c, d) => mkDeviceID a b c d)
    (fun d => match d with mkDeviceID _ _ _ _ => eq_refl end).

(** Values passed to remote functions. *)
Inductive pyobj :=
| PyNone
| PyInt (z : Z)
| PyFloat (f : spec_float)
| PyStr (s : string).

(** The value of a scheduling option: a plain value, or the
    dictionary of resource requests kept under ["resources"]. *)
Inductive optval :=
| OptValue (v : pyobj)
| OptResources (r : gmap string spec_float).

(** A function object and a class object, told apart by name. *)
Record callable := Callable { func_name : string }.
Record pyclass := PyClass { __name__ : string }.

(** What the registry holds for a function: the function itself
    (serial and message-passing backends) or the object
    [ray.remote(num_cpus=1, **remote_params)(function)]. *)
Inductive dispatchable :=
| PlainFunction (f : callable)
| RayRemoteFunction (f : callable) (params : gmap string optval).

(** What the registry holds for an actor: the class, or
    [ray.remote(cls)]. *)
Inductive actor :=
| PlainClass (c : pyclass)
| RayActorClass (c : pyclass).

Inductive backend := SerialSystem | MPISystem | RaySystem.

(** The two registry tables every backend object carries. *)
Record tables := Tables {
  _remote_functions : gmap string dispatchable;
  _actors : gmap string actor }.

(** [remote(function, remote_params)]. In the cluster backend the
    call [ray.remote(num_cpus=1, **remote_params)] raises when
    [remote_params] is [None] or repeats the keyword [num_cpus]. *)
Definition remote (b : backend) (function : callable)
    (remote_params : option (gmap string optval)) : result dispatchable :=
  match b with
  | SerialSystem | MPISystem => Ok (PlainFunction function)
  | RaySystem =>
      match remote_params with
      | None => Raise TypeError
      | Some params =>
          if contains "num_cpus" params then Raise TypeError
          else Ok (RayRemoteFunction function
                     (<["num_cpus" := OptValue (PyInt 1)]> params))
      end
  end.

(** [register(name, func, remote_params=None)]: returns the new
    tables and the warnings emitted, in order. *)
Definition register (b : backend) (self : tables) (name : string)
    (func : callable) (remote_params : option (gmap string optval))
  : result (tables * list string) :=
  if contains name (_remote_functions self) then Ok (self, [])
  else
    let remote_params :=
      match b, remote_params with
      | (SerialSystem | MPISystem), None => Some ∅
      | _, _ => remote_params
      end in
    r ← remote b func remote_params;
    Ok (Tables (<[name := r]> (_remote_functions self)) (_actors self), []).

(** [register_actor(name, cls)]. *)
Definition register_actor (b : backend) (self : tables) (name : string)
    (cls : pyclass) : result (tables * list string) :=
  if contains name (_actors self) then
    Ok (self,
        ["Actor " +:+ name +:+ " has already been registered. "
         +:+ "Overwriting with " +:+ __name__ cls +:+ "."])
  else
    let a := match b with
             | RaySystem => RayActorClass cls
             | _ => PlainClass cls
             end in
    Ok (Tables (_remote_functions self) (<[name := a]> (_actors self)), []).

(** A cluster node as [ray.nodes()] reports it; only the resource
    table is read. *)
Record node := Node { Resources : gmap string spec_float }.

(** The fields of a [RaySystem] object that [call] reads. *)
Record ray_system := {
  ray_tables : tables;
  _devices : list DeviceID;
  _device_to_node : gmap DeviceID node;
  _actor_node_index : nat }.

(** [_node_key(node)]. *)
Definition _node_key (n : node) : result string :=
  let node_key :=
    List.filter (fun key => str_contains "node" key)
                (map_to_list (Resources n)).*1 in
  _ ← assert (length node_key =? 1)%nat;
  match node_key with k :: _ => Ok k | [] => Raise IndexError end.

(** The amount [1.0 / 10 ** 4] requested of a node's own resource. *)
Definition placement_amount : spec_float :=
  Float64.div (Float64.of_Z 1) (Float64.of_Z (10 ^ 4)).

(** The task
    [self._remote_functions[name].options( **options ).remote( *args, **kwargs )]
    handed to the scheduler. *)
Record remote_task := Task {
  task_function : dispatchable;
  task_options : gmap string optval;
  task_args : list pyobj;
  task_kwargs : gmap string pyobj }.

(** [RaySystem.call(name, args, kwargs, device_id, options)]. *)
Definition call (self : ray_system) (name : string) (args : list pyobj)
    (kwargs : gmap string pyobj) (device_id : option DeviceID)
    (options : gmap string optval) : result remote_task :=
  options ←
    match device_id with
    | Some device_id =>
        node ← getitem (_device_to_node self) device_id;
        node_key ← _node_key node;
        _ ← (if contains "resources" options
             then assert (negb (contains node_key options))
             else Ok tt);
        Ok (<["resources" := OptResources {[node_key := placement_amount]}]>
              options)
    | None => Ok options
    end;
  f ← getitem (_remote_functions (ray_tables self)) name;
  Ok (Task f options args kwargs).

(** *** Placing actors and objects *)

(** [RaySystem.put(value, device_id)]. *)
Definition put (self : ray_system) (value : pyobj)
    (device_id : option DeviceID) : result remote_task :=
  call self "identity" [value] ∅ device_id ∅.

(** The actor
    [actor.options( **options ).remote( *args, **kwargs )] handed to
    the scheduler. *)
Record actor_task := ActorTask {
  actor_class : actor;
  actor_options : gmap string optval;
  actor_args : list pyobj;
  actor_kwargs : gmap string pyobj }.

(** [RaySystem.make_actor(name, *args, device_id=None, **kwargs)]:
    the object as the call leaves it, next to what the call returns or
    raises. The remainder [% len(self._devices)] is only reached when
    the list of devices has an element. *)
Definition make_actor (self : ray_system) (name : string) (args : list pyobj)
    (device_id : option DeviceID) (kwargs : gmap string pyobj)
  : ray_system * result actor_task :=
  let place (self : ray_system) (device_id : DeviceID) : result actor_task :=
    actor ← getitem (_actors (ray_tables self)) name;
    node ← getitem (_device_to_node self) device_id;
    node_key ← _node_key node;
    Ok (ActorTask actor
          {["resources" := OptResources {[node_key := placement_amount]}]}
          args kwargs) in
  match device_id with
  | Some device_id => (self, place self device_id)
  | None =>
      match list_getitem (_devices self) (_actor_node_index self) with
      | Raise e => (self, Raise e)
      | Ok device_id =>
          let self :=
            {| ray_tables := ray_tables self;
               _devices := _devices self;
               _device_to_node := _device_to_node self;
               _actor_node_index :=
                 ((_actor_node_index self + 1) mod length (_devices self))%nat
            |} in
          (self, place self device_id)
      end
  end.

(** *** The backend that leaves placement to the scheduler *)

Module RaySystemStockScheduler.

(** [RaySystemStockScheduler.call(name, args, kwargs, device_id, options)]. *)
Definition call (self : ray_system) (name : string) (args : list pyobj)
    (kwargs : gmap string pyobj) (device_id : option DeviceID)
    (options : gmap string optval) : result remote_task :=
  _ ← match device_id with
      | Some device_id =>
          node ← getitem (_device_to_node self) device_id;
          node_key ← _node_key node;
          if contains "resources" options
          then assert (negb (contains node_key options))
          else Ok tt
      | None => Ok tt
      end;
  f ← getitem (_remote_functions (ray_tables self)) name;
  Ok (Task f options args kwargs).

(** [RaySystemStockScheduler.make_actor(name, *args, device_id=None, **kwargs)]. *)
Definition make_actor (self : ray_system) (name : string) (args : list pyobj)
    (device_id : option DeviceID) (kwargs : gmap string pyobj)
  : result actor_task :=
  actor ← getitem (_actors (ray_tables self)) name;
  Ok (ActorTask actor ∅ args kwargs).

End RaySystemStockScheduler.

(** *** Discovery of the cluster *)

(** [s.split(sep)] for a separator of one character. *)
Fixpoint split (sep : Ascii.ascii) (s : string) : list string :=
  match s with
  | EmptyString => [EmptyString]
  | String c s' =>
      if Ascii.eqb c sep then EmptyString :: split sep s'
      else match split sep s' with
           | h :: t => String c h :: t
           | [] => [String c EmptyString]
           end
  end.

(** [_node_cpu_resources(node)]. *)
Definition _node_cpu_resources (n : node) : spec_float :=
  match Resources n !! "CPU" with
  | Some cpu => cpu
  | None => Float64.zero
  end.

(** [_has_cpu_resources(node)]. *)
Definition _has_cpu_resources (n : node) : bool :=
  SFltb Float64.zero (_node_cpu_resources n).

(** [_node_ip(node)]. *)
Definition _node_ip (n : node) : result string :=
  key ← _node_key n;
  list_getitem (split ":"%char key) 1.

(** The fields of a [RaySystem] object that discovery sets, around
    those that [call] reads. *)
Record ray_cluster := {
  _use_head : bool;
  _num_nodes : option Z;
  _available_nodes : list node;
  _head_node : option node;
  _worker_nodes : list node;
  system : ray_system }.

(** [RaySystem(use_head, num_nodes)]. *)
Definition __init__ (use_head : bool) (num_nodes : option Z) : ray_cluster :=
  {| _use_head := use_head;
     _num_nodes := num_nodes;
     _available_nodes := [];
     _head_node := None;
     _worker_nodes := [];
     system := {| ray_tables := Tables ∅ ∅;
                  _devices := [];
                  _device_to_node := ∅;
                  _actor_node_index := 0 |} |}.

(** [init_devices()]: one device for each of the first [_num_nodes]
    available nodes. *)
Fixpoint init_devices_loop (available : list node) (ids : list nat)
    (sys : ray_system) : result ray_system :=
  match ids with
  | [] => Ok sys
  | node_id :: ids' =>
      node ← list_getitem available node_id;
      key ← _node_key node;
      let did := mkDeviceID (Z.of_nat node_id) key "cpu" 1 in
      init_devices_loop available ids'
        {| ray_tables := ray_tables sys;
           _devices := _devices sys ++ [did];
           _device_to_node := <[did := node]> (_device_to_node sys);
           _actor_node_index := _actor_node_index sys |}
  end.

Definition init_devices (self : ray_cluster) : result ray_cluster :=
  num_nodes ← match _num_nodes self with
              | Some k => Ok k
              | None => Raise TypeError
              end;
  sys ← init_devices_loop (_available_nodes self)
           (seq 0 (Z.to_nat num_nodes))
           {| ray_tables := ray_tables (system self);
              _devices := [];
              _device_to_node := _device_to_node (system self);
              _actor_node_index := _actor_node_index (system self) |};
  Ok {| _use_head := _use_head self;
        _num_nodes := _num_nodes self;
        _available_nodes := _available_nodes self;
        _head_node := _head_node self;
        _worker_nodes := _worker_nodes self;
        system := sys |}.

(** The loop of [init] over [ray.nodes()]: the head node is set
    aside, the other nodes that offer a CPU become workers. The count
    [total_cpus] is only logged and is left out. *)
Fixpoint init_loop (head_ip : string) (nodes : list node)
    (self : ray_cluster) : result ray_cluster :=
  match nodes with
  | [] => Ok self
  | node :: nodes' =>
      node_ip ← _node_ip node;
      init_loop head_ip nodes'
        (if String.eqb head_ip node_ip then
           {| _use_head := _use_head self;
              _num_nodes := _num_nodes self;
              _available_nodes := _available_nodes self;
              _head_node := Some node;
              _worker_nodes := _worker_nodes self;
              system := system self |}
         else if _has_cpu_resources node then
           {| _use_head := _use_head self;
              _num_nodes := _num_nodes self;
              _available_nodes := _available_nodes self ++ [node];
              _head_node := _head_node self;
              _worker_nodes := _worker_nodes self ++ [node];
              system := system self |}
         else self)
  end.

(** [init()], given the address [head_ip] of the head node
    ([settings.head_ip], or the driver's own address) and the nodes
    [ray.nodes()] reports. *)
Definition init (self : ray_cluster) (head_ip : string) (nodes : list node)
  : result ray_cluster :=
  self ← init_loop head_ip nodes self;
  let available :=
    match _head_node self with
    | Some head =>
        if _use_head self && _has_cpu_resources head
        then _available_nodes self ++ [head]
        else _available_nodes self
    | None => _available_nodes self
    end in
  let num_nodes :=
    match _num_nodes self with
    | Some k => k
    | None => Z.of_nat (length available)
    end in
  _ ← assert (num_nodes <=? Z.of_nat (length available));
  init_devices
    {| _use_head := _use_head self;
       _num_nodes := Some num_nodes;
       _available_nodes := available;
       _head_node := _head_node self;
       _worker_nodes := _worker_nodes self;
       system := system self |}.

(** *** The serial backend *)

(** What a backend that runs in place returns: the function applied to
    the arguments, or the object made of a class. *)
Inductive local_value :=
| Applied (f : callable) (args : list pyobj) (kwargs : gmap string pyobj)
| Instance (c : pyclass) (args : list pyobj) (kwargs : gmap string pyobj).

Module SerialSystem.

(** [SerialSystem.call(name, args, kwargs, device_id, options)]. The
    table of a serial backend holds functions; an object of
    [ray.remote] cannot be called. *)
Definition call (self : tables) (name : string) (args : list pyobj)
    (kwargs : gmap string pyobj) (device_id : option DeviceID)
    (options : gmap string optval) : result local_value :=
  f ← getitem (_remote_functions self) name;
  match f with
  | PlainFunction f => Ok (Applied f args kwargs)
  | RayRemoteFunction _ _ => Raise TypeError
  end.

(** [SerialSystem.make_actor(name, *args, device_id=None, **kwargs)]. *)
Definition make_actor (self : tables) (name : string) (args : list pyobj)
    (device_id : option DeviceID) (kwargs : gmap string pyobj)
  : result local_value :=
  c ← getitem (_actors self) name;
  match c with
  | PlainClass c => Ok (Instance c args kwargs)
  | RayActorClass _ => Raise TypeError
  end.

End SerialSystem.

(** *** The message-passing backend *)

Module MPISystem.

(** An argument of a call: a value held by this process, or the
    placeholder [MPITargetRank(rank)] of a value held by another. *)
Inductive arg :=
| Held (v : pyobj)
| MPITargetRank (rank : Z).

(** What the process asks of the communicator, in order. *)
Inductive event :=
| Recv (buf : Z)
| Send (v : pyobj) (dest : Z)
| Barrier.

(** The exceptions of this backend: those of [Py], and the error
    Python raises when a local variable is read before any
    assignment. *)
Inductive error :=
| Python (e : exn)
| UnboundLocalError.

(** The fields of an [MPISystem] object that the calls read. *)
Record mpi_system := {
  rank : Z;
  mpi_tables : tables;
  mpi_device_to_node : gmap DeviceID Z }.

(** The loop of [_resolve_args]. The local variable [target_rank] is
    [None] until the first assignment to it; [received] counts the
    messages taken from the communicator, the [k]-th of which is
    [incoming k]. *)
Fixpoint _resolve_loop (self : mpi_system) (incoming : nat -> pyobj)
    (args : list arg) (target_rank : option Z) (received : nat)
    (log : list event) (resolved_args : list arg)
  : list event * (list arg + error) :=
  match args with
  | [] => (log ++ [Barrier], inl resolved_args)
  | MPITargetRank r :: args' =>
      if r =? rank self
      then _resolve_loop self incoming args' (Some r) (S received)
             (log ++ [Recv r]) (resolved_args ++ [Held (incoming received)])
      else _resolve_loop self incoming args' (Some r) received
             log (resolved_args ++ [MPITargetRank r])
  | Held v :: args' =>
      match target_rank with
      | None => (log, inr UnboundLocalError)
      | Some t =>
          _resolve_loop self incoming args' target_rank received
            (if t =? rank self then log else log ++ [Send v t])
            (resolved_args ++ [Held v])
      end
  end.

(** [_resolve_args(args)]: what was asked of the communicator, and the
    arguments resolved or the exception raised. *)
Definition _resolve_args (self : mpi_system) (incoming : nat -> pyobj)
    (args : list arg) : list event * (list arg + error) :=
  _resolve_loop self incoming args None 0 [] [].

(** [MPISystem.put(value, device_id)]. *)
Definition put (self : mpi_system) (v : pyobj) (device_id : DeviceID)
  : result arg :=
  target_rank ← getitem (mpi_device_to_node self) device_id;
  Ok (if rank self =? target_rank then Held v else MPITargetRank target_rank).

(** [MPISystem.call(name, args, kwargs, device_id, options)]: [None]
    is returned on the processes that are not the target. *)
Definition call (self : mpi_system) (incoming : nat -> pyobj)
    (name : string) (args : list arg) (kwargs : gmap string pyobj)
    (device_id : DeviceID) (options : gmap string optval)
  : list event * (option (callable * list arg * gmap string pyobj) + error) :=
  match getitem (mpi_device_to_node self) device_id with
  | Raise e => ([], inr (Python e))
  | Ok target_rank =>
      match _resolve_args self incoming args with
      | (log, inr e) => (log, inr e)
      | (log, inl resolved_args) =>
          if target_rank =? rank self then
            match getitem (_remote_functions (mpi_tables self)) name with
            | Raise e => (log, inr (Python e))
            | Ok (PlainFunction f) => (log, inl (Some (f, resolved_args, kwargs)))
            | Ok (RayRemoteFunction _ _) => (log, inr (Python TypeError))
            end
          else (log, inl None)
      end
  end.

End MPISystem.

End Systems.

(** * Notions used by the statements *)

Module Notions.
Import Py Numpy Storage.

(** ** Exactness of doubles on integers *)

(** [m] followed by [n] zero bits. *)
Definition shl (m : positive) (n : nat) : positive := Nat.iter n xO m.

(** The number of bits of a positive integer. *)
Definition digits (q : positive) : Z := Zpos (digits2_pos q).

(** The double that holds a positive integer [q] of at most 53 bits,
    with sign [s]. *)
Definition canon (s : bool) (q : positive) : spec_float :=
  S754_finite s (shl q (Z.to_nat (53 - digits q))) (digits q - 53).

Definition signed (s : bool) (q : positive) : Z := cond_Zopp s (Zpos q).

(** The sum of a list of integers, and the sum of their magnitudes. *)
Fixpoint zsum (l : list Z) : Z :=
  match l with [] => 0 | x :: l' => x + zsum l' end.

Fixpoint abs_sum (l : list Z) : Z :=
  match l with [] => 0 | x :: l' => Z.abs x + abs_sum l' end.

(** The reduction [np.sum] applies to integers. *)
Definition sum_reducer : @reducer Z := Reducer (Some zero) add.

(** The contraction the optimised path of [reduce_axis] computes along
    [axis], as a function of the index of the other axes: on a matrix
    reduced along axis 1 the ones-vector is the right operand,
    otherwise the left. *)
Definition ones_contraction (a : ndarray spec_float) (axis : nat)
    (idx : list nat) : spec_float :=
  let n := nth axis (shape a) 0%nat in
  let ones := Array [n] (repeat (one (A := spec_float)) n) in
  if (ndim a =? 2)%nat && (axis =? 1)%nat
  then contract n (fun j => item a (insert_axis axis j idx))
                  (fun j => item ones [j])
  else contract n (fun j => item ones [j])
                  (fun j => item a (insert_axis axis j idx)).

(** ** Frames of heap computations *)

(** A computation that leaves every buffer but [l] as it was. *)
Definition only_writes {A X} (l : loc) (m : st A X) : Prop :=
  forall h l', l' <> l -> (m h).1 !! l' = h !! l'.

(** A computation that frees no buffer. *)
Definition keeps_buffers {A X} (m : st A X) : Prop :=
  forall h l, is_Some (h !! l) -> is_Some ((m h).1 !! l).

(** What copy-on-write asks of the heap and result [out] reached from
    the heap [h] by an update of [dst]: every buffer of [h], that of
    [dst] among them, is as it was; a block returned lives in a buffer
    of the heap reached that [h] did not have; and assigning through
    it, or through any view of its buffer, still leaves the buffers of
    [h] as they were. *)
Definition copy_on_write {A} (h : heap A) (dst : view)
    (out : heap A * result view) : Prop :=
  h ⊆ out.1 /\ out.1 !! base dst = h !! base dst /\
  match out.2 with
  | Ok r =>
      h !! base r = None /\ is_Some (out.1 !! base r) /\
      forall w sels rhs,
        base w = base r ->
        h ⊆ (setitem w sels rhs out.1).1 /\
        (setitem w sels rhs out.1).1 !! base dst = h !! base dst
  | Raise _ => True
  end.

(** ** Comparisons and optima *)

(** What the operator names mean on integers. *)
Definition holds (op : string) (e p : Z) : Prop :=
  (op = "gt" /\ e > p) \/ (op = "lt" /\ e < p) \/
  (op = "ge" /\ e >= p) \/ (op = "le" /\ e <= p) \/
  (op = "eq" /\ e = p) \/ (op = "ne" /\ e <> p).

#[export] Instance holds_dec op e p : Decision (holds op e p).
Proof. unfold holds. apply _. Defined.

(** An array whose element list has the length its shape announces. *)
Definition well_formed {A} (a : ndarray A) : Prop :=
  length (data a) = size a.

(** The first position of a least element of a list. *)
Definition first_min (l : list Z) (i : nat) (m : Z) : Prop :=
  l !! i = Some m /\
  (forall x, In x l -> m <= x) /\
  (forall j x, (j < i)%nat -> l !! j = Some x -> m < x).

(** The first position of a greatest element of a list. *)
Definition first_max (l : list Z) (i : nat) (m : Z) : Prop :=
  l !! i = Some m /\
  (forall x, In x l -> x <= m) /\
  (forall j x, (j < i)%nat -> l !! j = Some x -> x < m).

(** ** Sequences of calls on a backend *)

(** Registering functions one after the other, [remote_params] left
    to its default. *)
Fixpoint register_all (b : Systems.backend) (self : Systems.tables)
    (regs : list (string * Systems.callable)) : result Systems.tables :=
  match regs with
  | [] => Ok self
  | (name, func) :: regs' =>
      r ← Systems.register b self name func None;
      register_all b r.1 regs'
  end.

(** A [RaySystem] object whose round-robin position has moved on by
    [k] devices. *)
Definition advance (self : Systems.ray_system) (k : nat) : Systems.ray_system :=
  {| Systems.ray_tables := Systems.ray_tables self;
     Systems._devices := Systems._devices self;
     Systems._device_to_node := Systems._device_to_node self;
     Systems._actor_node_index :=
       ((Systems._actor_node_index self + k)
          mod length (Systems._devices self))%nat |}.

(** [k] calls of [make_actor] that name no device: the object
    reached, and what each call returned or raised. *)
Fixpoint make_actors (k : nat) (self : Systems.ray_system) (name : string)
    (args : list Systems.pyobj) (kwargs : gmap string Systems.pyobj)
  : Systems.ray_system * list (result Systems.actor_task) :=
  match k with
  | O => (self, [])
  | S k' =>
      let r := Systems.make_actor self name args None kwargs in
      let rs := make_actors k' r.1 name args kwargs in
      (rs.1, r.2 :: rs.2)
  end.

(** A [RaySystem] object after functions and actors were registered:
    the tables are replaced, the devices are as they were. *)
Definition with_tables (self : Systems.ray_system) (t : Systems.tables)
  : Systems.ray_system :=
  {| Systems.ray_tables := t;
     Systems._devices := Systems._devices self;
     Systems._device_to_node := Systems._device_to_node self;
     Systems._actor_node_index := Systems._actor_node_index self |}.

(** ** Blocks of a vector *)

(** [arg_op] over the blocks of a vector cut at consecutive positions
    from [start] on: each call is given what the call before it
    returned. *)
Fixpoint arg_op_blocks (op_name : string) (blocks : list (list Z))
    (start : Z) (carried : option Z * option Z)
  : result (option Z * option Z) :=
  match blocks with
  | [] => Ok carried
  | arr :: blocks' =>
      let stop := start + Z.of_nat (length arr) in
      r ← Kernel.arg_op op_name arr (Slice (Some start) (Some stop) None)
            carried.1 carried.2;
      arg_op_blocks op_name blocks' stop (r.1, Some r.2)
  end.

(** The block, or its transpose when the flag is set. *)
Definition oriented {A} `{Dtype A} (a : ndarray A) (transposed : bool)
  : ndarray A :=
  if transposed then Numpy.T a else a.

(** The elements that blocks of one shape hold at position [p]. *)
Definition column {A} `{Dtype A} (arrs : list (ndarray A)) (p : nat) : list A :=
  map (fun a => nth p (data a) zero) arrs.

(** ** What the updates store *)

Section Assignments.
Context {A : Type}.

(** A block of shape [s] with [n] elements laid out in C order in the
    buffer at [l]. *)
Definition contiguous (l : loc) (s : list nat) (n : nat) : view :=
  View l s (seq 0 n).

(** The view, or its transpose when the flag is set. *)
Definition oriented_view (v : view) (transposed : bool) : view :=
  if transposed then Storage.T v else v.

(** The elements [buf] of a buffer after the assignment
    [target[sels] = rhs] through a view [target] of it. *)
Definition assign (target : view) (sels : list selector) (rhs : ndarray A)
    (buf : list A) : result (list A) :=
  t ← Storage.getitem target sels;
  vals ← broadcast_to rhs (vshape t);
  Ok (fold_left (fun b pv => <[pv.1 := pv.2]> b) (zip (positions t) vals) buf).

(** The right-hand side of the [i]-th assignment of [update_block]:
    the elements selected from the [i]-th source, as the heap [h]
    holds them. *)
Definition update_rhs (h : heap A) (src_arrs : list view)
    (src_params : list (list selector * option (list nat) * bool))
    (i : nat) : result (ndarray A) :=
  src_arr ← list_getitem src_arrs i;
  sp ← list_getitem src_params i;
  let src_arr := oriented_view src_arr sp.2 in
  src_arr ← match sp.1.2 with
            | Some bc => Storage.reshape src_arr bc
            | None => Ok src_arr
            end;
  g ← Storage.getitem src_arr sp.1.1;
  (read g h).2.

(** The elements of the destination after the assignments numbered
    [ids], every right-hand side taken from the heap [h] in which the
    call starts. *)
Fixpoint update_assigned (h : heap A) (target : view) (src_arrs : list view)
    (src_params : list (list selector * option (list nat) * bool))
    (dst_params : list (list selector * bool)) (ids : list nat)
    (buf : list A) : result (list A) :=
  match ids with
  | [] => Ok buf
  | i :: ids' =>
      rhs ← update_rhs h src_arrs src_params i;
      dp ← list_getitem dst_params i;
      buf ← assign target dp.1 rhs buf;
      update_assigned h target src_arrs src_params dst_params ids' buf
  end.

(** An index within the bounds of an axis of length [n]. *)
Definition in_range (i : Z) (n : nat) : Prop := 0 <= i < Z.of_nat n.

(** The elements [dst] of a block of shape [sd] after each pair of
    [index_pairs], in order, stored the element of a block of shape
    [ss] and elements [src] at its source index under its destination
    index. *)
Definition scatter (sd ss : list nat) (src : list A)
    (index_pairs : list (list Z * list Z)) (dst : list A) : list A :=
  fold_left
    (fun d pair =>
       match src !! ravel ss (map Z.to_nat pair.2) with
       | Some x => <[ravel sd (map Z.to_nat pair.1) := x]> d
       | None => d
       end)
    index_pairs dst.

End Assignments.

End Notions.


(** ** Sample inputs *)

Module Sample.
Import Py Numpy Storage Systems.

(** The integer block [[1, 2], [3, 4]]. *)
Definition block_2x2 : block := IntBlock (Array [2; 2]%nat [1; 2; 3; 4]).

(** The integer block [[1, 2, 3], [4, 5, 6]]. *)
Definition array_2x3 : ndarray Z := Array [2; 3]%nat [1; 2; 3; 4; 5; 6].


(** The integer vector [3, 1, 4, 1, 5]. *)
Definition vector_pi : ndarray Z := Array [5]%nat [3; 1; 4; 1; 5].

(** A heap with the block [[1, 2, 3], [4, 5, 6]] at location 1, shared
    by two arrays, and the vector [10, 20, 30] at location 2. *)
Definition shared_heap : heap Z :=
  <[2%positive := [10; 20; 30]]> {[1%positive := [1; 2; 3; 4; 5; 6]]}.
Definition array_a : view := View 1%positive [2; 3]%nat (seq 0 6).
Definition array_b : view := View 1%positive [2; 3]%nat (seq 0 6).
Definition vector_c : view := View 2%positive [3]%nat (seq 0 3).

(** The subscript [:]. *)
Definition whole : selector := SSlice (Slice None None None).

(** The 3-by-2 block with columns e1 and e2, and its full
    decomposition: [u] the identity of order 3, singular values 1 and
    1, [vT] the identity of order 2. *)
Definition unit_columns : ndarray spec_float :=
  Array [3; 2]%nat (map Float64.of_Z [1; 0; 0; 1; 0; 0]).
Definition unit_columns_svd (arr : ndarray spec_float)
  : result (ndarray spec_float * ndarray spec_float * ndarray spec_float) :=
  Ok (np_eye 3, Array [2]%nat [Float64.one; Float64.one], np_eye 2).

(** The text [register_actor] warns with. *)
Definition actor_warning (name : string) (cls : pyclass) : string :=
  "Actor " +:+ name +:+ " has already been registered. "
  +:+ "Overwriting with " +:+ __name__ cls +:+ ".".

(** Tables with one function and one actor registered. *)
Definition tables_fA : tables :=
  Tables {["f" := PlainFunction (Callable "f")]}
         {["A" := PlainClass (PyClass "A")]}.

(** A one-node cluster with the function "identity" registered. *)
Definition dev0 : DeviceID := mkDeviceID 0 "node:10.0.0.1" "cpu" 1.
Definition node0 : node :=
  Node (<["CPU" := Float64.of_Z 4]> {["node:10.0.0.1" := Float64.of_Z 1]}).
Definition identity_remote : dispatchable :=
  RayRemoteFunction (Callable "identity") {["num_cpus" := OptValue (PyInt 1)]}.
Definition ray0 : ray_system :=
  {| ray_tables := Tables {["identity" := identity_remote]} ∅;
     _devices := [dev0];
     _device_to_node := {[dev0 := node0]};
     _actor_node_index := 0 |}.

(** Options that ask for two return values and one GPU. *)
Definition options_gpu : gmap string optval :=
  <["num_returns" := OptValue (PyInt 2)]>
    {["resources" := OptResources {["GPU" := Float64.of_Z 1]}]}.

(** A cluster of three nodes: the head at 10.0.0.1, a worker with four
    CPUs at 10.0.0.2 and a node without CPU at 10.0.0.3. *)
Definition node_head : node :=
  Node (<["CPU" := Float64.of_Z 2]> {["node:10.0.0.1" := Float64.of_Z 1]}).
Definition node_worker : node :=
  Node (<["CPU" := Float64.of_Z 4]> {["node:10.0.0.2" := Float64.of_Z 1]}).
Definition node_idle : node :=
  Node {["node:10.0.0.3" := Float64.of_Z 1]}.
Definition cluster_nodes : list node := [node_head; node_worker; node_idle].

(** Two devices on two nodes, the actor "A" registered. *)
Definition dev1 : DeviceID := mkDeviceID 1 "node:10.0.0.2" "cpu" 1.
Definition ray2 : ray_system :=
  {| ray_tables := Tables {["identity" := identity_remote]}
                          {["A" := RayActorClass (PyClass "A")]};
     _devices := [dev0; dev1];
     _device_to_node := <[dev1 := node_worker]> {[dev0 := node0]};
     _actor_node_index := 1 |}.

(** The process of rank 0 of two, on the host 10.0.0.1, with the
    devices [init_devices] gives it. *)
Definition mpi0 : MPISystem.mpi_system :=
  {| MPISystem.rank := 0;
     MPISystem.mpi_tables := Tables {["f" := PlainFunction (Callable "f")]} ∅;
     MPISystem.mpi_device_to_node :=
       <[mkDeviceID 1 "10.0.0.1" "cpu" 0 := 1]>
         {[mkDeviceID 0 "10.0.0.1" "cpu" 0 := 0]} |}.


End Sample.

(** * Properties *)

(** ** Properties of the random number scheme *)

Section RNGFacts.
Import RNG.

Lemma calls_fst (k : nat) (self : t) :
  (calls k self).1 =
  map (fun i => (seed self, jump_index self + Z.of_nat i)) (seq 0 k).
Proof.
  revert self. induction k as [|k IH]; intros self; [reflexivity|].
  cbn [calls]. unfold new_block_rng_params.
  specialize (IH (mk (seed self) (rng self) (jump_index self + 1))).
  destruct (calls k _) as [ps s'] eqn:E. cbn [fst] in *. subst ps.
  cbn [seq map seed jump_index]. f_equal.
  - f_equal. lia.
  - rewrite <- seq_shift, map_map. apply map_ext. intros i. f_equal. lia.
Qed.

Lemma calls_snd (k : nat) (self : t) :
  (calls k self).2 =
  mk (seed self) (rng self) (jump_index self + Z.of_nat k).
Proof.
  revert self. induction k as [|k IH]; intros self.
  - cbn. destruct self; cbn. f_equal. lia.
  - cbn [calls]. unfold new_block_rng_params.
    specialize (IH (mk (seed self) (rng self) (jump_index self + 1))).
    destruct (calls k _) as [ps s'] eqn:E. cbn [snd] in *. subst s'.
    cbn [seed rng jump_index]. f_equal. lia.
Qed.

Lemma offsets_sorted (j : Z) (a k : nat) :
  StronglySorted Z.lt (map (fun i => j + Z.of_nat i) (seq a k)).
Proof.
  revert a. induction k as [|k IH]; intros a; cbn [seq map].
  - constructor.
  - constructor; [apply IH|].
    apply Forall_forall. intros x Hx.
    apply list_elem_of_fmap in Hx as (i & -> & Hi).
    apply elem_of_seq in Hi. lia.
Qed.

Lemma sorted_lt_NoDup (l : list Z) : StronglySorted Z.lt l -> NoDup l.
Proof.
  induction 1 as [|x l _ IH Hx]; constructor; [|exact IH].
  intros Hin. rewrite Forall_forall in Hx. specialize (Hx _ Hin). lia.
Qed.

(** C3: a call returns the pair [(seed, jump_index)] read before the
    increment, adds exactly one to [jump_index] and leaves [seed] (and
    the root generator) alone; [k] consecutive calls return [k] pairs
    that all carry the same seed, whose jump indices are strictly
    increasing, and which are pairwise distinct. *)
Theorem new_block_rng_params_streams (self : t) (k : nat) :
  let '(p, self') := new_block_rng_params self in
  let '(ps, selfk) := calls k self in
  p = (seed self, jump_index self) /\
  jump_index self' = jump_index self + 1 /\
  seed self' = seed self /\ rng self' = rng self /\
  length ps = k /\
  Forall (fun q => q.1 = seed self) ps /\
  StronglySorted Z.lt (map snd ps) /\
  NoDup ps /\
  (forall i q, ps !! i = Some q -> q = (seed self, jump_index self + Z.of_nat i)) /\
  selfk = mk (seed self) (rng self) (jump_index self + Z.of_nat k).
Proof.
  pose proof (calls_fst k self) as Hf. pose proof (calls_snd k self) as Hs.
  destruct (calls k self) as [ps selfk]. cbn [fst snd] in Hf, Hs.
  cbn [new_block_rng_params seed jump_index rng].
  assert (Hsnd : map snd ps = map (fun i => jump_index self + Z.of_nat i) (seq 0 k)).
  { subst ps. rewrite map_map. reflexivity. }
  assert (Hsorted : StronglySorted Z.lt (map snd ps)).
  { rewrite Hsnd. apply offsets_sorted. }
  repeat split; try done.
  - subst ps. now rewrite length_map, length_seq.
  - subst ps. apply Forall_forall. intros q Hq.
    apply list_elem_of_fmap in Hq as (i & -> & _). reflexivity.
  - apply (NoDup_fmap_1 snd), sorted_lt_NoDup, Hsorted.
  - intros i q Hq. subst ps. rewrite list_lookup_fmap in Hq.
    destruct (seq 0 k !! i) as [n|] eqn:En; [|discriminate].
    apply lookup_seq in En as [-> _]. cbn in Hq. congruence.
Qed.

End RNGFacts.

(** ** Doubles are exact on integers of at most 53 bits *)

Section Float64Facts.
Import Float64 Notions.

Lemma iter_pos_nat {A} (f : A -> A) (p : positive) (x : A) :
  SpecFloat.iter_pos f p x = Nat.iter (Pos.to_nat p) f x.
Proof.
  revert x. induction p as [p IH|p IH|]; intros x; cbn [SpecFloat.iter_pos].
  - rewrite !IH, Pos2Nat.inj_xI.
    replace (S (2 * Pos.to_nat p))%nat with (Pos.to_nat p + S (Pos.to_nat p))%nat by lia.
    now rewrite Nat.iter_add, Nat.iter_succ_r.
  - rewrite !IH, Pos2Nat.inj_xO.
    replace (2 * Pos.to_nat p)%nat with (Pos.to_nat p + Pos.to_nat p)%nat by lia.
    now rewrite Nat.iter_add.
  - reflexivity.
Qed.

Lemma pos_iter_shl (m d : positive) : Pos.iter xO m d = shl m (Pos.to_nat d).
Proof. unfold shl. rewrite Pos2Nat.inj_iter. reflexivity. Qed.

Lemma shl_S m n : shl m (S n) = xO (shl m n).
Proof. reflexivity. Qed.

Lemma shl_shl m a b : shl (shl m a) b = shl m (b + a).
Proof. unfold shl. now rewrite Nat.iter_add. Qed.

Lemma Zpos_shl m n : Zpos (shl m n) = Zpos m * 2 ^ Z.of_nat n.
Proof.
  induction n as [|n IH].
  - cbn. lia.
  - rewrite shl_S, Pos2Z.inj_xO, IH, Nat2Z.inj_succ, Z.pow_succ_r by lia. lia.
Qed.

Lemma digits_shl m n :
  Zpos (digits2_pos (shl m n)) = Zpos (digits2_pos m) + Z.of_nat n.
Proof.
  induction n as [|n IH].
  - cbn. lia.
  - rewrite shl_S. cbn [digits2_pos]. rewrite Pos2Z.inj_succ, IH. lia.
Qed.

Lemma shr_exact m n :
  Nat.iter n shr_1 (Build_shr_record (Zpos (shl m n)) false false)
  = Build_shr_record (Zpos m) false false.
Proof.
  induction n as [|n IH]; [reflexivity|].
  rewrite Nat.iter_succ_r, shl_S. cbn [shr_1 orb]. exact IH.
Qed.

(** Rounding a mantissa that carries [n] surplus zero bits over a
    canonical one is exact. *)
Lemma round_aux_exact s m e n :
  canonical_mantissa prec emax m e = true ->
  e <= emax - prec ->
  binary_round_aux prec emax s (Zpos (shl m n)) (e - Z.of_nat n) loc_Exact
  = S754_finite s m e.
Proof.
  intros Hcan He. unfold canonical_mantissa in Hcan. apply Z.eqb_eq in Hcan.
  unfold binary_round_aux.
  assert (H1 : shr_fexp prec emax (Zpos (shl m n)) (e - Z.of_nat n) loc_Exact
               = (Build_shr_record (Zpos m) false false, e)).
  { unfold shr_fexp. cbn [Zdigits2 shr_record_of_loc].
    rewrite digits_shl.
    replace (Z.pos (digits2_pos m) + Z.of_nat n + (e - Z.of_nat n))
      with (Z.pos (digits2_pos m) + e) by lia.
    rewrite Hcan.
    replace (e - (e - Z.of_nat n)) with (Z.of_nat n) by lia.
    destruct n as [|n].
    - cbn [Z.of_nat shr shl Nat.iter nat_rect]. now rewrite Z.sub_0_r.
    - change (Z.of_nat (S n)) with (Zpos (Pos.of_succ_nat n)).
      unfold shr.
      rewrite iter_pos_nat, SuccNat2Pos.id_succ, shr_exact.
      f_equal. lia. }
  rewrite H1. cbn [shr_m loc_of_shr_record round_nearest_even].
  assert (H2 : shr_fexp prec emax (Zpos m) e loc_Exact
               = (Build_shr_record (Zpos m) false false, e)).
  { unfold shr_fexp. cbn [Zdigits2 shr_record_of_loc]. rewrite Hcan.
    rewrite Z.sub_diag. reflexivity. }
  rewrite H2. cbn [shr_m]. apply Z.leb_le in He. now rewrite He.
Qed.

Lemma digits_ge_1 q : 1 <= digits q.
Proof. unfold digits. lia. Qed.

Lemma digits_size q : digits2_pos q = Pos.size q.
Proof. induction q; cbn; congruence. Qed.

Lemma digits_bound q : Zpos q < 2 ^ 53 -> digits q <= 53.
Proof.
  intros Hq. unfold digits. rewrite digits_size.
  pose proof (Pos.size_le q) as Hle.
  destruct (Z_le_gt_dec (Zpos (Pos.size q)) 53) as [|Hgt]; [assumption|].
  exfalso.
  apply Pos2Z.pos_le_pos in Hle. rewrite Pos2Z.inj_pow, (Pos2Z.inj_xO q) in Hle.
  assert (H54 : 2 ^ 54 <= 2 ^ Zpos (Pos.size q))
    by (apply Z.pow_le_mono_r; lia).
  change (2 ^ 54) with (2 * 2 ^ 53) in H54. lia.
Qed.

Lemma canon_canonical q :
  digits q <= 53 ->
  canonical_mantissa prec emax (shl q (Z.to_nat (53 - digits q)))
                     (digits q - 53) = true.
Proof.
  intros Hd. pose proof (digits_ge_1 q).
  unfold canonical_mantissa. apply Z.eqb_eq.
  rewrite digits_shl. fold (digits q).
  unfold fexp, emin, prec, emax. lia.
Qed.

Lemma round_aux_canon s q m e n :
  digits q <= 53 ->
  m = shl q (n + Z.to_nat (53 - digits q)) ->
  e = digits q - 53 - Z.of_nat n ->
  binary_round_aux prec emax s (Zpos m) e loc_Exact = canon s q.
Proof.
  intros Hd -> ->. pose proof (digits_ge_1 q).
  rewrite <- shl_shl. unfold canon.
  apply round_aux_exact; [now apply canon_canonical|].
  unfold emax, prec. lia.
Qed.

Lemma round_int s q N :
  digits q <= 53 ->
  binary_round prec emax s (shl q N) (- Z.of_nat N) = canon s q.
Proof.
  intros Hd. pose proof (digits_ge_1 q) as H1.
  unfold binary_round.
  rewrite digits_shl. fold (digits q).
  replace (fexp prec emax (digits q + Z.of_nat N + - Z.of_nat N))
    with (digits q - 53) by (unfold fexp, emin, prec, emax; lia).
  unfold shl_align.
  destruct (digits q - 53 - - Z.of_nat N) as [|k|k] eqn:Ek.
  - apply round_aux_canon with (n := 0%nat); [assumption| |lia].
    f_equal. lia.
  - apply round_aux_canon with (n := Pos.to_nat k); [assumption| |lia].
    f_equal. lia.
  - rewrite pos_iter_shl, shl_shl.
    apply round_aux_canon with (n := 0%nat); [assumption| |lia].
    f_equal. lia.
Qed.

(** Normalising an integer scaled up by a power of two against the
    matching negative exponent gives the integer's double. *)
Lemma normalize_int z N :
  Z.abs z < 2 ^ 53 ->
  binary_normalize prec emax (z * 2 ^ Z.of_nat N) (- Z.of_nat N) false
  = of_Z z.
Proof.
  intros Hz. unfold of_Z. destruct z as [|q|q].
  - reflexivity.
  - rewrite <- Zpos_shl. cbn [binary_normalize].
    rewrite round_int by (apply digits_bound; lia).
    change 0 with (- Z.of_nat 0). change q with (shl q 0) at 2.
    now rewrite round_int by (apply digits_bound; lia).
  - replace (Z.neg q * 2 ^ Z.of_nat N) with (Z.neg (shl q N))
      by (rewrite <- Pos2Z.opp_pos, Zpos_shl; lia).
    cbn [binary_normalize].
    rewrite round_int by (apply digits_bound; lia).
    change 0 with (- Z.of_nat 0). change q with (shl q 0) at 2.
    now rewrite round_int by (apply digits_bound; lia).
Qed.

Lemma of_Z_pos q : Zpos q < 2 ^ 53 -> of_Z (Zpos q) = canon false q.
Proof.
  intros Hq. unfold of_Z. cbn [binary_normalize].
  change 0 with (- Z.of_nat 0). change q with (shl q 0) at 1.
  apply round_int, digits_bound, Hq.
Qed.

Lemma of_Z_neg q : Zpos q < 2 ^ 53 -> of_Z (Zneg q) = canon true q.
Proof.
  intros Hq. unfold of_Z. cbn [binary_normalize].
  change 0 with (- Z.of_nat 0). change q with (shl q 0) at 1.
  apply round_int, digits_bound, Hq.
Qed.

Lemma shl_align_fst m e e' :
  e' <= e -> (shl_align m e e').1 = shl m (Z.to_nat (e - e')).
Proof.
  intros Hle. unfold shl_align. destruct (e' - e) as [|k|k] eqn:E; cbn [fst].
  - replace (e - e') with 0 by lia. reflexivity.
  - lia.
  - rewrite pos_iter_shl. f_equal. lia.
Qed.

Lemma of_Z_signed s q : Zpos q < 2 ^ 53 -> of_Z (signed s q) = canon s q.
Proof. destruct s; [apply of_Z_neg | apply of_Z_pos]. Qed.

Lemma add_canon sa pa sb pb :
  Zpos pa < 2 ^ 53 -> Zpos pb < 2 ^ 53 ->
  Z.abs (signed sa pa + signed sb pb) < 2 ^ 53 ->
  add (canon sa pa) (canon sb pb) = of_Z (signed sa pa + signed sb pb).
Proof.
  intros Ha Hb Hab.
  pose proof (digits_bound pa Ha). pose proof (digits_bound pb Hb).
  pose proof (digits_ge_1 pa). pose proof (digits_ge_1 pb).
  unfold add, canon, SFadd.
  set (ez := Z.min (digits pa - 53) (digits pb - 53)).
  rewrite !shl_align_fst by (unfold ez; lia).
  rewrite !shl_shl.
  set (N := Z.to_nat (- ez)).
  replace (Z.to_nat (digits pa - 53 - ez) + Z.to_nat (53 - digits pa))%nat
    with N by (unfold N, ez; lia).
  replace (Z.to_nat (digits pb - 53 - ez) + Z.to_nat (53 - digits pb))%nat
    with N by (unfold N, ez; lia).
  rewrite !Zpos_shl.
  replace (cond_Zopp sa (Z.pos pa * 2 ^ Z.of_nat N)
           + cond_Zopp sb (Z.pos pb * 2 ^ Z.of_nat N))
    with ((signed sa pa + signed sb pb) * 2 ^ Z.of_nat N)
    by (unfold signed; destruct sa, sb; cbn [cond_Zopp]; lia).
  replace ez with (- Z.of_nat N) by (unfold N, ez; lia).
  now apply normalize_int.
Qed.

(** Adding the doubles of two integers is exact as long as the
    integers and their sum have at most 53 bits. *)
Lemma add_of_Z a b :
  Z.abs a < 2 ^ 53 -> Z.abs b < 2 ^ 53 -> Z.abs (a + b) < 2 ^ 53 ->
  add (of_Z a) (of_Z b) = of_Z (a + b).
Proof.
  intros Ha Hb Hab.
  destruct a as [|pa|pa].
  - destruct b as [|pb|pb]; [reflexivity| |].
    + rewrite Z.add_0_l, of_Z_pos by lia. reflexivity.
    + rewrite Z.add_0_l, of_Z_neg by lia. reflexivity.
  - destruct b as [|pb|pb].
    + rewrite Z.add_0_r, of_Z_pos by lia. reflexivity.
    + rewrite (of_Z_pos pa), (of_Z_pos pb) by lia.
      now apply (add_canon false pa false pb).
    + rewrite (of_Z_pos pa), (of_Z_neg pb) by lia.
      now apply (add_canon false pa true pb).
  - destruct b as [|pb|pb].
    + rewrite Z.add_0_r, of_Z_neg by lia. reflexivity.
    + rewrite (of_Z_neg pa), (of_Z_pos pb) by lia.
      now apply (add_canon true pa false pb).
    + rewrite (of_Z_neg pa), (of_Z_neg pb) by lia.
      now apply (add_canon true pa true pb).
Qed.

Lemma one_eq : one = S754_finite false (shl 1 52) (-52).
Proof. vm_compute. reflexivity. Qed.

Lemma mul_shl_1 n m : (shl 1 n * m)%positive = shl m n.
Proof.
  induction n as [|n IH]; [reflexivity|].
  rewrite !shl_S. rewrite <- IH. reflexivity.
Qed.

(** Multiplying the double of an integer of at most 53 bits by 1.0,
    on either side, gives it back. *)
Lemma mul_one_of_Z a :
  Z.abs a < 2 ^ 53 ->
  mul one (of_Z a) = of_Z a /\ mul (of_Z a) one = of_Z a.
Proof.
  intros Ha. rewrite one_eq.
  assert (Hc : forall s q, Zpos q < 2 ^ 53 ->
            mul (S754_finite false (shl 1 52) (-52)) (canon s q) = canon s q
            /\ mul (canon s q) (S754_finite false (shl 1 52) (-52)) = canon s q).
  { intros s q Hq. pose proof (digits_bound q Hq) as Hd.
    pose proof (digits_ge_1 q).
    unfold mul, canon, SFmul.
    rewrite (Pos.mul_comm _ (shl 1 52)), mul_shl_1.
    rewrite xorb_false_r. cbn [xorb].
    split; (apply round_aux_canon with (n := 52%nat);
            [assumption | now rewrite shl_shl | lia]). }
  destruct a as [|q|q].
  - split; reflexivity.
  - rewrite of_Z_pos by lia. apply Hc. lia.
  - rewrite of_Z_neg by lia. apply Hc. lia.
Qed.
End Float64Facts.

(** ** Reduction along an axis *)

Section ReduceAxisFacts.
Import Py Numpy Kernel Notions Sample.


Lemma abs_sum_nonneg l : 0 <= abs_sum l.
Proof. induction l; cbn [abs_sum]; lia. Qed.

Lemma abs_sum_bound B l :
  (forall x, In x l -> Z.abs x <= B) -> abs_sum l <= Z.of_nat (length l) * B.
Proof.
  induction l as [|x l IH]; intros Hb; [cbn; lia|].
  cbn [abs_sum length].
  specialize (IH (fun y Hy => Hb y (or_intror Hy))).
  specialize (Hb x (or_introl eq_refl)). lia.
Qed.

Lemma wrap64_small z : - 2 ^ 63 <= z < 2 ^ 63 -> wrap64 z = z.
Proof. intros Hz. unfold wrap64. rewrite Z.mod_small; lia. Qed.

Lemma int_fold_exact l acc :
  Z.abs acc + abs_sum l < 2 ^ 53 ->
  fold_left (add (A := Z)) l acc = acc + zsum l.
Proof.
  revert acc. induction l as [|x l IH]; intros acc Hb; cbn [fold_left zsum].
  - lia.
  - cbn [abs_sum] in Hb.
    pose proof (abs_sum_nonneg l).
    assert (Hw : add acc x = acc + x).
    { cbn. apply wrap64_small.
      assert (2 ^ 53 < 2 ^ 63) by reflexivity. lia. }
    rewrite Hw, IH by lia. lia.
Qed.

Lemma int_reduce_exact l :
  abs_sum l < 2 ^ 53 ->
  reduce_list (Reducer (Some zero) (add (A := Z))) l = zsum l.
Proof.
  intros Hb. destruct l as [|x l]; [reflexivity|].
  cbn [reduce_list combine]. rewrite int_fold_exact; [reflexivity|exact Hb].
Qed.

(** A dot product whose products are doubles of integers is the
    double of the integers' sum, as long as the magnitudes add up to
    less than 2^53. *)
Lemma float_fold_exact (f g : nat -> spec_float) (z : nat -> Z) ks acc :
  (forall k, In k ks -> mul (f k) (g k) = Float64.of_Z (z k)) ->
  Z.abs acc + abs_sum (map z ks) < 2 ^ 53 ->
  fold_left (fun a k => add a (mul (f k) (g k))) ks (Float64.of_Z acc)
  = Float64.of_Z (acc + zsum (map z ks)).
Proof.
  revert acc. induction ks as [|k ks IH]; intros acc Hk Hb.
  - cbn. f_equal. lia.
  - cbn [fold_left map zsum abs_sum] in *.
    pose proof (abs_sum_nonneg (map z ks)).
    rewrite (Hk k (or_introl eq_refl)).
    change (add (Float64.of_Z acc) (Float64.of_Z (z k)))
      with (Float64.add (Float64.of_Z acc) (Float64.of_Z (z k))).
    rewrite add_of_Z by lia.
    rewrite IH; [f_equal; lia | intros; apply Hk; now right | lia].
Qed.

Lemma contract_exact n (f g : nat -> spec_float) (z : nat -> Z) :
  (forall k, (k < n)%nat -> mul (f k) (g k) = Float64.of_Z (z k)) ->
  abs_sum (map z (seq 0 n)) < 2 ^ 53 ->
  contract n f g = Float64.of_Z (zsum (map z (seq 0 n))).
Proof.
  intros Hk Hb. unfold contract.
  change (@zero spec_float float64) with (Float64.of_Z 0).
  rewrite (float_fold_exact f g z); [reflexivity| |cbn; lia].
  intros k Hin. apply in_seq in Hin. apply Hk. lia.
Qed.

Lemma item_astype (a : ndarray Z) idx :
  item (astype_float a) idx = Float64.of_Z (item a idx).
Proof.
  unfold item, astype_float. cbn [shape data].
  change (@zero spec_float float64) with (Float64.of_Z (@zero Z int64)).
  apply map_nth.
Qed.

Lemma item_bound B (a : ndarray Z) idx :
  0 <= B -> (forall x, In x (data a) -> Z.abs x <= B) ->
  Z.abs (item a idx) <= B.
Proof.
  intros HB Hb. unfold item.
  destruct (nth_in_or_default (ravel (shape a) idx) (data a) zero) as [Hin| ->].
  - now apply Hb.
  - cbn. lia.
Qed.

Lemma T_bound B (a : ndarray Z) :
  0 <= B -> (forall x, In x (data a) -> Z.abs x <= B) ->
  forall x, In x (data (T a)) -> Z.abs x <= B.
Proof.
  intros HB Hb x Hin. unfold T, tabulate in Hin. cbn [data] in Hin.
  apply in_map_iff in Hin as (idx & <- & _). now apply item_bound.
Qed.

Lemma nth_repeat_lt {A} (x d : A) n k :
  (k < n)%nat -> nth k (repeat x n) d = x.
Proof.
  revert k. induction n as [|n IH]; intros k Hk; [lia|].
  destruct k; cbn; [reflexivity|]. apply IH. lia.
Qed.

Lemma item_ones n k :
  (k < n)%nat -> item (Array [n] (repeat (one (A := spec_float)) n)) [k] = one.
Proof.
  intros Hk. unfold item. cbn [shape data ravel prod fold_right].
  rewrite Nat.mul_1_r, Nat.add_0_r. now apply nth_repeat_lt.
Qed.

(** Along one lane, the dot product with the ones-vector is the
    double of the integer sum. *)
Lemma lane_sum_exact (a : ndarray Z) k idx B :
  0 <= B -> (forall x, In x (data a) -> Z.abs x <= B) ->
  Z.of_nat (nth k (shape a) 0%nat) * B < 2 ^ 53 ->
  let m := nth k (shape a) 0%nat in
  let ones := Array [m] (repeat (one (A := spec_float)) m) in
  contract m (fun j => item ones [j])
           (fun j => item (astype_float a) (insert_axis k j idx))
  = Float64.of_Z (reduce_list sum_reducer (lane a k idx)) /\
  contract m (fun j => item (astype_float a) (insert_axis k j idx))
           (fun j => item ones [j])
  = Float64.of_Z (reduce_list sum_reducer (lane a k idx)).
Proof.
  intros HB Hb Hn m ones.
  set (z := fun j => item a (insert_axis k j idx)).
  assert (Hsum : abs_sum (map z (seq 0 m)) < 2 ^ 53).
  { eapply Z.le_lt_trans; [apply (abs_sum_bound B)|].
    - intros x Hin. apply in_map_iff in Hin as (j & <- & _).
      now apply item_bound.
    - now rewrite length_map, length_seq. }
  assert (Hz : forall j, (j < m)%nat -> Z.abs (z j) < 2 ^ 53).
  { intros j Hj. pose proof (item_bound B a (insert_axis k j idx) HB Hb) as Hi.
    fold (z j) in Hi. fold m in Hn. nia. }
  unfold lane. fold m. change (fun j => item a (insert_axis k j idx)) with z.
  unfold sum_reducer. rewrite int_reduce_exact by exact Hsum.
  split; apply contract_exact; try exact Hsum; intros j Hj; unfold ones;
    rewrite item_ones, item_astype by exact Hj; fold (z j);
    apply mul_one_of_Z, Hz, Hj.
Qed.

Lemma np_getattribute_sum : np_getattribute "sum" = Ok np_sum.
Proof. reflexivity. Qed.

Lemma tuple_getitem_nat s k :
  (k < length s)%nat -> tuple_getitem s (Z.of_nat k) = Ok (nth k s 0%nat).
Proof.
  intros Hk. unfold tuple_getitem.
  replace (Z.of_nat k <? 0) with false by (symmetry; apply Z.ltb_ge; lia).
  replace (0 <=? Z.of_nat k) with true by (symmetry; apply Z.leb_le; lia).
  replace (Z.of_nat k <? Z.of_nat (length s)) with true
    by (symmetry; apply Z.ltb_lt; lia).
  cbn [andb]. now rewrite Nat2Z.id.
Qed.

Lemma np_sum_int (a : ndarray Z) k :
  (k < ndim a)%nat ->
  np_sum (IntBlock a) (Some (Z.of_nat k)) false
  = Ok (IntBlock (tabulate (remove_axis k (shape a))
                    (fun idx => reduce_list sum_reducer (lane a k idx)))).
Proof.
  intros Hk. unfold np_sum, reduce.
  replace (0 <=? Z.of_nat k) with true by (symmetry; apply Z.leb_le; lia).
  replace (Z.of_nat k <? Z.of_nat (ndim a)) with true
    by (symmetry; apply Z.ltb_lt; lia).
  cbn [andb mbind result_bind identity]. rewrite Nat2Z.id.
  destruct (nth k (shape a) 0%nat); reflexivity.
Qed.

Lemma tabulate_astype s (f : list nat -> spec_float) (g : list nat -> Z) :
  (forall idx, In idx (indices s) -> f idx = Float64.of_Z (g idx)) ->
  tabulate s f = astype_float (tabulate s g).
Proof.
  intros Hfg. unfold tabulate, astype_float. cbn [shape data]. f_equal.
  rewrite map_map. now apply map_ext_in.
Qed.

Lemma indices_1 n : indices [n] = map (fun j => [j]) (seq 0 n).
Proof.
  cbn [indices]. induction (seq 0 n) as [|j l IH]; [reflexivity|].
  cbn [flat_map map app] in *. now rewrite IH.
Qed.

Lemma in_indices_1 n idx : In idx (indices [n]) -> idx = [nth 0 idx 0%nat].
Proof.
  rewrite indices_1. intros Hin. apply in_map_iff in Hin as (j & <- & _).
  reflexivity.
Qed.

Lemma np_sum_float (a : ndarray spec_float) k :
  (k < ndim a)%nat ->
  np_sum (FloatBlock a) (Some (Z.of_nat k)) false
  = Ok (FloatBlock (tabulate (remove_axis k (shape a))
                      (fun idx => reduce_list (Reducer (Some zero) add)
                                              (lane a k idx)))).
Proof.
  intros Hk. unfold np_sum, reduce.
  replace (0 <=? Z.of_nat k) with true by (symmetry; apply Z.leb_le; lia).
  replace (Z.of_nat k <? Z.of_nat (ndim a)) with true
    by (symmetry; apply Z.ltb_lt; lia).
  cbn [andb mbind result_bind identity]. rewrite Nat2Z.id.
  destruct (nth k (shape a) 0%nat); reflexivity.
Qed.

Lemma tabulate_ext {A} `{Dtype A} s (f g : list nat -> A) :
  (forall idx, In idx (indices s) -> f idx = g idx) ->
  tabulate s f = tabulate s g.
Proof. intros Hfg. unfold tabulate. f_equal. now apply map_ext_in. Qed.

Lemma block_shape_to_float arr : shape (to_float arr) = block_shape arr.
Proof. now destruct arr. Qed.

Lemma np_tensordot_ones (arr' : block) (axis : nat) :
  (axis < length (block_shape arr'))%nat ->
  let n := nth axis (block_shape arr') 0%nat in
  np_tensordot (np_ones n) arr' (0, Z.of_nat axis)
  = Ok (FloatBlock
          (tabulate (remove_axis axis (block_shape arr'))
             (fun idx =>
                contract n
                  (fun k => item (Array [n] (repeat (one (A := spec_float)) n)) [k])
                  (fun k => item (to_float arr') (insert_axis axis k idx))))).
Proof.
  intros Haxis n. pose proof (block_shape_to_float arr') as Hs.
  unfold np_tensordot, np_ones. cbn [fst snd block_shape shape length].
  change (0 <? 0) with false. cbv iota.
  change (0 <? - Z.of_nat 1) with false.
  rewrite (proj2 (Z.ltb_ge (Z.of_nat axis) 0)) by lia.
  rewrite (proj2 (Z.ltb_ge (Z.of_nat axis)
                           (- Z.of_nat (length (block_shape arr'))))) by lia.
  cbn [orb]. change (Z.to_nat 0) with 0%nat. rewrite Nat2Z.id.
  change (to_float (FloatBlock (Array [n] (repeat one n))))
    with (Array [n] (repeat (one (A := spec_float)) n)).
  unfold tensordot, ndim. cbn [shape length nth]. rewrite Hs.
  rewrite (proj2 (Nat.ltb_lt axis _) Haxis).
  fold n. rewrite Nat.eqb_refl.
  change (0 <? 1)%nat with true. cbn [andb Nat.sub].
  change (remove_axis 0 [n]) with (@nil nat). cbn [app firstn skipn].
  now destruct arr'.
Qed.

(** Which computation [reduce_axis] runs for a sum without [keepdims]
    along a valid axis given by its non-negative index: the
    contraction with the ones-vector, in float64, when the axis has
    more than one element, and the generic sum otherwise. *)
Lemma reduce_axis_sum_unfold (arr : block) (axis : nat) (transposed : bool) :
  let arr' := if transposed then block_T arr else arr in
  let n := nth axis (block_shape arr') 0%nat in
  (axis < length (block_shape arr'))%nat ->
  reduce_axis "sum" arr (Some (Z.of_nat axis)) false transposed
  = if (1 <? n)%nat
    then Ok (FloatBlock (tabulate (remove_axis axis (block_shape arr'))
                           (ones_contraction (to_float arr') axis)))
    else np_sum arr' (Some (Z.of_nat axis)) false.
Proof.
  intros arr' n Haxis.
  unfold reduce_axis. rewrite np_getattribute_sum. cbn [mbind result_bind].
  fold arr'. fold arr' in n. clearbody arr'.
  rewrite tuple_getitem_nat by exact Haxis.
  cbn [mbind result_bind negb andb]. fold n.
  rewrite bool_decide_eq_true_2 by reflexivity. rewrite !andb_true_r.
  destruct (1 <? n)%nat eqn:E1; [|reflexivity].
  assert (Hmm : forall x, np_matmul (np_ones x) arr'
                 = FloatBlock <$> matmul (Array [x] (repeat one x)) (to_float arr')).
  { intros x. unfold np_matmul, np_ones. now destruct arr'. }
  assert (Hmm' : forall x, np_matmul arr' (np_ones x)
                 = FloatBlock <$> matmul (to_float arr') (Array [x] (repeat one x))).
  { intros x. unfold np_matmul, np_ones. now destruct arr'. }
  pose proof (block_shape_to_float arr') as Hs.
  destruct (length (block_shape arr') =? 2)%nat eqn:E2.
  - unfold ones_contraction, ndim. rewrite Hs, E2. fold n.
    apply Nat.eqb_eq in E2.
    destruct (block_shape arr') as [|m [|p [|? ?]]] eqn:Es; try discriminate.
    cbn [length] in Haxis.
    destruct axis as [|[|axis]]; [| |lia].
    + cbn [Z.of_nat]. rewrite bool_decide_eq_true_2 by (now left).
      cbn [assert mbind result_bind Z.eqb nth Nat.eqb andb].
      rewrite Hmm. unfold matmul. cbn [shape]. rewrite Hs, Nat.eqb_refl.
      cbn [fmap result_fmap]. do 2 f_equal.
      change (remove_axis 0 [m; p]) with [p].
      apply tabulate_ext. intros idx Hin. apply in_indices_1 in Hin.
      cbv zeta. subst n. cbn [nth]. unfold insert_axis. cbn [firstn skipn app].
      now rewrite <- Hin.
    + change (Z.of_nat 1) with 1.
      rewrite bool_decide_eq_true_2 by (now right).
      cbn [assert mbind result_bind Z.eqb nth Nat.eqb andb].
      rewrite Hmm'. unfold matmul. cbn [shape]. rewrite Hs, Nat.eqb_refl.
      cbn [fmap result_fmap]. do 2 f_equal.
      change (remove_axis 1 [m; p]) with [m].
      apply tabulate_ext. intros idx Hin. apply in_indices_1 in Hin.
      cbv zeta. subst n. cbn [nth]. unfold insert_axis. rewrite Hin.
      reflexivity.
  - pose proof (np_tensordot_ones arr' axis Haxis) as Ht.
    cbv zeta in Ht. fold n in Ht. rewrite Ht.
    unfold ones_contraction, ndim. rewrite Hs, E2. reflexivity.
Qed.

(** On every block the optimised path returns an array of the shape
    the generic sum returns: the shape of the block without the
    reduced axis. *)
Lemma reduce_axis_sum_shape (arr : block) (axis : nat) (transposed : bool) :
  let arr' := if transposed then block_T arr else arr in
  (axis < length (block_shape arr'))%nat ->
  exists r r',
    np_sum arr' (Some (Z.of_nat axis)) false = Ok r /\
    reduce_axis "sum" arr (Some (Z.of_nat axis)) false transposed = Ok r' /\
    block_shape r = remove_axis axis (block_shape arr') /\
    block_shape r' = block_shape r.
Proof.
  intros arr' Haxis.
  assert (Hsum : exists r, np_sum arr' (Some (Z.of_nat axis)) false = Ok r /\
                           block_shape r = remove_axis axis (block_shape arr')).
  { destruct arr' as [a|a]; eexists;
      (split; [first [now apply np_sum_int | now apply np_sum_float]
              | reflexivity]). }
  destruct Hsum as (r & Hr & Hshape).
  rewrite (reduce_axis_sum_unfold arr axis transposed Haxis). fold arr'.
  exists r. destruct (1 <? nth axis (block_shape arr') 0)%nat.
  - eexists. repeat split; [exact Hr | exact Hshape | now rewrite Hshape].
  - exists r. repeat split; [exact Hr | exact Hr | exact Hshape].
Qed.

Lemma float_sum_exact l acc :
  Z.abs acc + abs_sum l < 2 ^ 53 ->
  fold_left (add (A := spec_float)) (map Float64.of_Z l) (Float64.of_Z acc)
  = Float64.of_Z (acc + zsum l).
Proof.
  revert acc. induction l as [|x l IH]; intros acc Hb; cbn [map fold_left zsum].
  - f_equal. lia.
  - cbn [abs_sum] in Hb. pose proof (abs_sum_nonneg l).
    change (add (Float64.of_Z acc) (Float64.of_Z x))
      with (Float64.add (Float64.of_Z acc) (Float64.of_Z x)).
    rewrite add_of_Z by lia. rewrite IH by lia. f_equal. lia.
Qed.

Lemma float_reduce_exact l :
  abs_sum l < 2 ^ 53 ->
  reduce_list (Reducer (Some zero) (add (A := spec_float)))
              (map Float64.of_Z l)
  = Float64.of_Z (zsum l).
Proof.
  intros Hb. destruct l as [|x l]; [reflexivity|].
  cbn [map reduce_list combine zsum]. apply float_sum_exact. exact Hb.
Qed.

Lemma lane_astype (a : ndarray Z) k idx :
  lane (astype_float a) k idx = map Float64.of_Z (lane a k idx).
Proof.
  unfold lane. cbn [astype_float shape]. rewrite map_map.
  apply map_ext. intros j. apply item_astype.
Qed.

Lemma T_astype (a : ndarray Z) : T (astype_float a) = astype_float (T a).
Proof.
  unfold T. cbn [astype_float shape]. apply tabulate_astype.
  intros idx _. apply item_astype.
Qed.

Lemma lane_abs_sum (a : ndarray Z) k idx B :
  0 <= B -> (forall x, In x (data a) -> Z.abs x <= B) ->
  Z.of_nat (nth k (shape a) 0%nat) * B < 2 ^ 53 ->
  abs_sum (lane a k idx) < 2 ^ 53.
Proof.
  intros HB Hb Hn. eapply Z.le_lt_trans; [apply (abs_sum_bound B)|].
  - intros x Hin. apply in_map_iff in Hin as (j & <- & _).
    now apply item_bound.
  - unfold lane. now rewrite length_map, length_seq.
Qed.

(** X19: what survives of the equivalence on blocks of integers. Let
    the entries be bounded by [B], with the reduced axis short enough
    that [n * B < 2^53], and let [r] be the integer sums along the
    axis.
    On the int64 block, [np.sum] returns [r], and [reduce_axis]
    returns [r] converted to float64 when the axis has more than one
    element (the same shape and values, in another dtype) and [r]
    itself otherwise. On the float64 block holding the same integers,
    [reduce_axis] and [np.sum] return the same array, bit for bit. *)
Theorem reduce_axis_sum_int (a : ndarray Z) (axis : nat) (transposed : bool)
    (B : Z) :
  let a' := if transposed then T a else a in
  let n := nth axis (shape a') 0%nat in
  (axis < ndim a')%nat ->
  (forall x, In x (data a) -> Z.abs x <= B) ->
  Z.of_nat n * B < 2 ^ 53 ->
  exists r,
    np_sum (IntBlock a') (Some (Z.of_nat axis)) false = Ok (IntBlock r) /\
    reduce_axis "sum" (IntBlock a) (Some (Z.of_nat axis)) false transposed
    = Ok (if (1 <? n)%nat then FloatBlock (astype_float r) else IntBlock r) /\
    np_sum (FloatBlock (astype_float a')) (Some (Z.of_nat axis)) false
    = Ok (FloatBlock (astype_float r)) /\
    reduce_axis "sum" (FloatBlock (astype_float a)) (Some (Z.of_nat axis))
                false transposed
    = Ok (FloatBlock (astype_float r)).
Proof.
  intros a' n Haxis Hb Hn.
  set (B' := Z.max 0 B).
  assert (HB' : 0 <= B') by (unfold B'; lia).
  assert (Hb' : forall x, In x (data a') -> Z.abs x <= B').
  { assert (Ha : forall x, In x (data a) -> Z.abs x <= B')
      by (intros x Hx; specialize (Hb x Hx); unfold B'; lia).
    unfold a'. destruct transposed; [now apply T_bound | exact Ha]. }
  assert (Hn' : Z.of_nat (nth axis (shape a') 0%nat) * B' < 2 ^ 53).
  { fold n. unfold B'. destruct (Z.max_spec 0 B) as [[_ ->]|[_ ->]]; [exact Hn|].
    rewrite Z.mul_0_r. reflexivity. }
  assert (Hcontract :
            tabulate (remove_axis axis (shape a'))
                     (ones_contraction (astype_float a') axis)
            = astype_float
                (tabulate (remove_axis axis (shape a'))
                   (fun idx => reduce_list sum_reducer (lane a' axis idx)))).
  { apply tabulate_astype. intros idx _.
    pose proof (lane_sum_exact a' axis idx B' HB' Hb' Hn') as [Hl Hr].
    unfold ones_contraction. cbn [astype_float shape]. fold n.
    fold n in Hl, Hr. now destruct (_ && _). }
  assert (Hfsum : np_sum (FloatBlock (astype_float a')) (Some (Z.of_nat axis)) false
                  = Ok (FloatBlock (astype_float
                          (tabulate (remove_axis axis (shape a'))
                             (fun idx => reduce_list sum_reducer
                                                     (lane a' axis idx)))))).
  { rewrite np_sum_float by exact Haxis. do 2 f_equal.
    cbn [astype_float shape]. apply tabulate_astype. intros idx _.
    rewrite lane_astype.
    pose proof (lane_abs_sum a' axis idx B' HB' Hb' Hn') as Hsum.
    rewrite float_reduce_exact by exact Hsum.
    unfold sum_reducer. now rewrite int_reduce_exact by exact Hsum. }
  eexists. split; [now apply np_sum_int|]. split; [|split; [exact Hfsum|]].
  - pose proof (reduce_axis_sum_unfold (IntBlock a) axis transposed) as Hu.
    cbv zeta in Hu.
    replace (if transposed then block_T (IntBlock a) else IntBlock a)
      with (IntBlock a') in Hu by (unfold a'; now destruct transposed).
    cbn [block_shape to_float] in Hu. rewrite Hu by exact Haxis. fold n.
    destruct (1 <? n)%nat; [|now apply np_sum_int].
    now rewrite Hcontract.
  - pose proof (reduce_axis_sum_unfold (FloatBlock (astype_float a)) axis
                  transposed) as Hu.
    cbv zeta in Hu.
    replace (if transposed then block_T (FloatBlock (astype_float a))
             else FloatBlock (astype_float a))
      with (FloatBlock (astype_float a')) in Hu
      by (unfold a'; destruct transposed; cbn [block_T];
          now rewrite ?T_astype).
    cbn [block_shape to_float astype_float shape] in Hu.
    rewrite Hu by exact Haxis. fold n.
    destruct (1 <? n)%nat; [|exact Hfsum].
    change (Array (shape a') (map Float64.of_Z (data a')))
      with (astype_float a').
    now rewrite Hcontract.
Qed.

Lemma reduce_axis_sum_int_witness :
  exists r,
    np_sum (IntBlock (T array_2x3)) (Some 0) false = Ok (IntBlock r) /\
    reduce_axis "sum" (IntBlock array_2x3) (Some 0) false true
    = Ok (FloatBlock (astype_float r)) /\
    np_sum (FloatBlock (astype_float (T array_2x3))) (Some 0) false
    = Ok (FloatBlock (astype_float r)) /\
    reduce_axis "sum" (FloatBlock (astype_float array_2x3)) (Some 0) false true
    = Ok (FloatBlock (astype_float r)).
Proof.
  apply (reduce_axis_sum_int array_2x3 0 true 6).
  - vm_compute. lia.
  - intros x Hx. cbn in Hx. lia.
  - vm_compute. reflexivity.
Defined.


(** On a matrix an axis counted from the end trips the assertion
    [axis in (0, 1)], where the generic sum accepts it. *)
Lemma reduce_axis_sum_negative_axis :
  reduce_axis "sum" block_2x2 (Some (-1)) false false = Raise AssertionError /\
  np_sum block_2x2 (Some (-1)) false = Ok (IntBlock (Array [2]%nat [3; 7])).
Proof. split; vm_compute; reflexivity. Qed.




End ReduceAxisFacts.

(** ** Indices and positions *)

Section IndexFacts.
Import Py Numpy Notions.

Lemma flat_map_map {X Y Z} (f : X -> list Y) (g : Y -> Z) (l : list X) :
  map g (flat_map f l) = flat_map (fun x => map g (f x)) l.
Proof.
  induction l as [|x l IH]; [reflexivity|].
  cbn [flat_map]. now rewrite map_app, IH.
Qed.

Lemma flat_map_length_const {X Y} (f : X -> list Y) (l : list X) (p : nat) :
  (forall x, length (f x) = p) ->
  length (flat_map f l) = (length l * p)%nat.
Proof.
  intros Hf. induction l as [|x l IH]; [reflexivity|].
  cbn [flat_map]. rewrite length_app, Hf, IH. cbn. lia.
Qed.

Lemma length_indices (s : list nat) : length (indices s) = prod s.
Proof.
  induction s as [|n s IH]; [reflexivity|]. cbn [indices prod fold_right].
  rewrite (flat_map_length_const _ _ (prod s)).
  - now rewrite length_seq.
  - intros i. now rewrite length_map.
Qed.

Lemma flat_map_seq_blocks (p n a : nat) :
  flat_map (fun i => seq (i * p) p) (seq a n) = seq (a * p) (n * p).
Proof.
  revert a. induction n as [|n IH]; intros a; [reflexivity|].
  cbn [seq flat_map]. rewrite IH.
  replace (S n * p)%nat with (p + n * p)%nat by lia.
  rewrite seq_app. f_equal. f_equal. lia.
Qed.

(** The indices of a shape are met in the order of their positions. *)
Lemma map_ravel_indices (s : list nat) :
  map (ravel s) (indices s) = seq 0 (prod s).
Proof.
  induction s as [|n s IH]; [reflexivity|].
  cbn [indices]. rewrite flat_map_map.
  etransitivity; [|exact (flat_map_seq_blocks (prod s) n 0)].
  apply flat_map_ext. intros i. rewrite map_map. cbn [ravel].
  rewrite <- (map_map (ravel s) (fun r => (i * prod s + r)%nat)), IH.
  change (fold_right Nat.mul 1%nat s) with (prod s).
  pose proof (fmap_add_seq (i * prod s) 0 (prod s)) as E.
  rewrite Nat.add_0_r in E. exact E.
Qed.

Lemma indices_bounded (s idx : list nat) :
  In idx (indices s) -> Forall2 lt idx s.
Proof.
  revert idx. induction s as [|n s IH]; intros idx.
  - intros [<-|[]]. constructor.
  - cbn [indices]. rewrite in_flat_map. intros (i & Hi & Hin).
    apply in_map_iff in Hin as (idx' & <- & Hin').
    apply in_seq in Hi. constructor; [lia|]. now apply IH.
Qed.

Lemma ravel_bound (s idx : list nat) :
  Forall2 lt idx s -> (ravel s idx < prod s)%nat.
Proof.
  intros Hb. induction Hb as [|i n idx s Hi Hb IH]; [cbn; lia|].
  cbn [ravel prod fold_right]. change (fold_right Nat.mul 1%nat s) with (prod s).
  nia.
Qed.

Lemma nth_flat_map_blocks {X} (f : nat -> list X) (p n i r : nat) (d : X) :
  (forall j, length (f j) = p) -> (i < n)%nat -> (r < p)%nat ->
  nth (i * p + r) (flat_map f (seq 0 n)) d = nth r (f i) d.
Proof.
  intros Hf. revert i. 
  assert (G : forall a i, (i < n)%nat ->  (r < p)%nat ->
            nth (i * p + r) (flat_map f (seq a n)) d = nth r (f (a + i)%nat) d).
  { induction n as [|n IH]; intros a i Hi Hr; [lia|].
    cbn [seq flat_map]. destruct i as [|i].
    - rewrite app_nth1 by (rewrite Hf; lia). now rewrite Nat.add_0_r.
    - rewrite app_nth2 by (rewrite Hf; lia). rewrite Hf.
      replace (S i * p + r - p)%nat with (i * p + r)%nat by lia.
      rewrite IH by lia. f_equal. f_equal. lia. }
  intros i Hi Hr. now rewrite G.
Qed.

(** The index at the position of an index within bounds is that
    index. *)
Lemma nth_ravel_indices (s idx : list nat) :
  Forall2 lt idx s -> nth (ravel s idx) (indices s) [] = idx.
Proof.
  intros Hb. induction Hb as [|i n idx s Hi Hb IH]; [reflexivity|].
  cbn [ravel indices].
  rewrite (nth_flat_map_blocks _ (prod s) n i (ravel s idx)).
  - rewrite (nth_indep _ _ (i :: [])).
    + rewrite map_nth. now rewrite IH.
    + rewrite length_map, length_indices. now apply ravel_bound.
  - intros j. now rewrite length_map, length_indices.
  - exact Hi.
  - now apply ravel_bound.
Qed.

Lemma Forall2_lt_rev (idx s : list nat) :
  Forall2 lt idx s -> Forall2 lt (rev idx) (rev s).
Proof.
  intros Hb. induction Hb; cbn; [constructor|].
  apply Forall2_app; [assumption|]. now repeat constructor.
Qed.

Lemma map_nth_seq {X} (l : list X) (d : X) :
  map (fun k => nth k l d) (seq 0 (length l)) = l.
Proof.
  induction l as [|x l IH]; [reflexivity|].
  cbn [length seq map nth]. f_equal.
  rewrite <- seq_shift, map_map. exact IH.
Qed.

(** Reading every position of a well-formed array in order gives its
    elements. *)
Lemma map_item_indices {A} `{Dtype A} (a : ndarray A) :
  well_formed a ->
  map (item a) (indices (shape a)) = data a.
Proof.
  intros Hwf. unfold item.
  rewrite <- (map_map (ravel (shape a)) (fun k => nth k (data a) zero)).
  rewrite map_ravel_indices. unfold well_formed, size in Hwf. rewrite <- Hwf.
  apply map_nth_seq.
Qed.

Lemma item_tabulate {A} `{Dtype A} (s : list nat) (f : list nat -> A)
    (idx : list nat) :
  Forall2 lt idx s -> item (tabulate s f) idx = f idx.
Proof.
  intros Hb. unfold item, tabulate. cbn [shape data].
  rewrite (nth_indep _ _ (f [])).
  - rewrite map_nth. now rewrite nth_ravel_indices.
  - rewrite length_map, length_indices. now apply ravel_bound.
Qed.

Lemma tabulate_ext_in {A} `{Dtype A} (s : list nat) (f g : list nat -> A) :
  (forall idx, Forall2 lt idx s -> f idx = g idx) ->
  tabulate s f = tabulate s g.
Proof.
  intros Hfg. unfold tabulate. f_equal. apply map_ext_in.
  intros idx Hin. apply Hfg. now apply indices_bounded.
Qed.

(** X12: transposing twice gives the block back, whatever its number
    of dimensions, provided it holds as many elements as its shape
    announces. *)
Theorem transpose_involutive {A} `{Dtype A} (a : ndarray A) :
  well_formed a -> Kernel.transpose (Kernel.transpose a) = a.
Proof.
  intros Hwf. unfold Kernel.transpose. unfold T at 1.
  replace (shape (T a)) with (rev (shape a)) by reflexivity.
  rewrite rev_involutive.
  rewrite (tabulate_ext_in _ _ (item a)).
  - unfold tabulate. rewrite map_item_indices by assumption. now destruct a.
  - intros idx Hb. unfold T. rewrite item_tabulate.
    + now rewrite rev_involutive.
    + now apply Forall2_lt_rev.
Qed.

Lemma transpose_involutive_witness :
  well_formed Sample.array_2x3 /\
  Kernel.transpose Sample.array_2x3
  = Array [3; 2]%nat [1; 4; 2; 5; 3; 6] /\
  Kernel.transpose (Kernel.transpose Sample.array_2x3) = Sample.array_2x3.
Proof.
  split; [reflexivity|]. split; [reflexivity|].
  apply (transpose_involutive Sample.array_2x3). reflexivity.
Defined.

End IndexFacts.

(** ** Updates of blocks in place *)

Section StorageFacts.
Import Py Numpy Storage Kernel Notions Sample.
Context {A : Type}.

Lemma only_writes_ret {X} l (x : X) : only_writes (A := A) l (st_ret x).
Proof. intros h l' _. reflexivity. Qed.

Lemma only_writes_lift {X} l (r : result X) :
  only_writes (A := A) l (lift r).
Proof. intros h l' _. reflexivity. Qed.

Lemma only_writes_bind {X Y} l (m : st A X) (f : X -> st A Y) :
  only_writes l m -> (forall x, only_writes l (f x)) ->
  only_writes l (st_bind m f).
Proof.
  intros Hm Hf h l' Hne. unfold st_bind.
  specialize (Hm h l' Hne). destruct (m h) as [h1 [x|e]]; cbn [fst] in *.
  - rewrite <- Hm. now apply Hf.
  - exact Hm.
Qed.

Lemma read_heap (v : view) (h : heap A) : (read v h).1 = h.
Proof.
  unfold read. destruct (h !! base v); [|reflexivity].
  destruct (mapM _ _); reflexivity.
Qed.

Lemma only_writes_read l (v : view) : only_writes l (read (A := A) v).
Proof. intros h l' _. now rewrite read_heap. Qed.

Lemma only_writes_write l ps (vals : list A) : only_writes l (write l ps vals).
Proof.
  intros h l' Hne. unfold write. destruct (h !! l); [|reflexivity].
  cbn [fst]. now apply lookup_insert_ne.
Qed.

Lemma getitem_base v sels t : getitem v sels = Ok t -> base t = base v.
Proof.
  unfold getitem. destruct (select sels (vshape v)); cbn; [|discriminate].
  now intros [= <-].
Qed.

Lemma reshape_base v s t : reshape v s = Ok t -> base t = base v.
Proof. unfold reshape. destruct (_ =? _)%nat; [|discriminate]. now intros [= <-]. Qed.

Lemma T_base v : base (T v) = base v.
Proof. reflexivity. Qed.

(** An assignment through a view writes the view's buffer only. *)
Lemma only_writes_setitem (v : view) sels (rhs : ndarray A) :
  only_writes (base v) (setitem v sels rhs).
Proof.
  unfold setitem. intros h l' Hne. unfold st_bind, lift.
  destruct (getitem v sels) as [t|e] eqn:Et; [|reflexivity].
  destruct (broadcast_to rhs (vshape t)); [|reflexivity].
  apply only_writes_write. now rewrite (getitem_base _ _ _ Et).
Qed.

Lemma only_writes_for_each {X} l (xs : list X) (body : X -> st A unit) :
  (forall x, only_writes l (body x)) -> only_writes l (for_each xs body).
Proof.
  intros Hb. induction xs as [|x xs IH]; cbn [for_each].
  - apply only_writes_ret.
  - apply only_writes_bind; [apply Hb | intros _; exact IH].
Qed.

Lemma only_writes_update_step dst_arr src_arrs src_params dst_params i :
  only_writes (base dst_arr)
    (update_step (A := A) dst_arr src_arrs src_params dst_params i).
Proof.
  unfold update_step.
  apply only_writes_bind; [apply only_writes_lift|]. intros src_arr.
  apply only_writes_bind; [apply only_writes_lift|]. intros [[src_sel bc] srcT].
  apply only_writes_bind; [apply only_writes_lift|]. intros [dst_sel dstT].
  destruct bc as [bc|].
  - apply only_writes_bind; [apply only_writes_lift|]. intros r.
    apply only_writes_bind; [apply only_writes_lift|]. intros g.
    apply only_writes_bind; [apply only_writes_read|]. intros rhs.
    apply only_writes_setitem.
  - apply only_writes_bind; [apply only_writes_lift|]. intros g.
    apply only_writes_bind; [apply only_writes_read|]. intros rhs.
    apply only_writes_setitem.
Qed.

Lemma keeps_buffers_ret {X} (x : X) : keeps_buffers (A := A) (st_ret x).
Proof. intros h l Hl. exact Hl. Qed.

Lemma keeps_buffers_lift {X} (r : result X) : keeps_buffers (A := A) (lift r).
Proof. intros h l Hl. exact Hl. Qed.

Lemma keeps_buffers_bind {X Y} (m : st A X) (f : X -> st A Y) :
  keeps_buffers m -> (forall x, keeps_buffers (f x)) ->
  keeps_buffers (st_bind m f).
Proof.
  intros Hm Hf h l Hl. unfold st_bind. specialize (Hm h l Hl).
  destruct (m h) as [h1 [x|e]]; cbn [fst] in *; [now apply Hf | exact Hm].
Qed.

Lemma keeps_buffers_read (v : view) : keeps_buffers (read (A := A) v).
Proof. intros h l Hl. now rewrite read_heap. Qed.

Lemma keeps_buffers_write l ps (vals : list A) :
  keeps_buffers (write l ps vals).
Proof.
  intros h l' Hl. unfold write. destruct (h !! l) eqn:E; [|exact Hl].
  cbn [fst]. destruct (decide (l = l')) as [->|Hne].
  - rewrite lookup_insert_eq. eauto.
  - now rewrite lookup_insert_ne.
Qed.

Lemma keeps_buffers_setitem (v : view) sels (rhs : ndarray A) :
  keeps_buffers (setitem v sels rhs).
Proof.
  unfold setitem.
  apply keeps_buffers_bind; [apply keeps_buffers_lift|]. intros t.
  apply keeps_buffers_bind; [apply keeps_buffers_lift|]. intros vals.
  apply keeps_buffers_write.
Qed.

Lemma keeps_buffers_for_each {X} (xs : list X) (body : X -> st A unit) :
  (forall x, keeps_buffers (body x)) -> keeps_buffers (for_each xs body).
Proof.
  intros Hb. induction xs as [|x xs IH]; cbn [for_each].
  - apply keeps_buffers_ret.
  - apply keeps_buffers_bind; [apply Hb | intros _; exact IH].
Qed.

Lemma keeps_buffers_update_step dst_arr src_arrs src_params dst_params i :
  keeps_buffers (update_step (A := A) dst_arr src_arrs src_params dst_params i).
Proof.
  unfold update_step.
  apply keeps_buffers_bind; [apply keeps_buffers_lift|]. intros src_arr.
  apply keeps_buffers_bind; [apply keeps_buffers_lift|]. intros [[src_sel bc] srcT].
  apply keeps_buffers_bind; [apply keeps_buffers_lift|]. intros [dst_sel dstT].
  destruct bc as [bc|].
  - apply keeps_buffers_bind; [apply keeps_buffers_lift|]. intros r.
    apply keeps_buffers_bind; [apply keeps_buffers_lift|]. intros g.
    apply keeps_buffers_bind; [apply keeps_buffers_read|]. intros rhs.
    apply keeps_buffers_setitem.
  - apply keeps_buffers_bind; [apply keeps_buffers_lift|]. intros g.
    apply keeps_buffers_bind; [apply keeps_buffers_read|]. intros rhs.
    apply keeps_buffers_setitem.
Qed.

(** [copy] allocates: the buffer of the copy is new, and the heap is
    the old one with that buffer added. *)
Lemma copy_fresh (v : view) (h : heap A) :
  match copy v h with
  | (h', Ok v') =>
      h !! base v' = None /\ is_Some (h !! base v) /\
      vshape v' = vshape v /\
      exists buf, h' = <[base v' := buf]> h
  | (h', Raise _) => h' = h
  end.
Proof.
  unfold copy, st_bind. pose proof (read_heap v h) as Hr.
  destruct (read v h) as [h1 [a|e]] eqn:Er; cbn [fst] in Hr; subst h1;
    [|reflexivity].
  cbn [base vshape]. split; [|split; [|split; [reflexivity|eauto]]].
  - apply not_elem_of_dom, is_fresh.
  - unfold read in Er. destruct (h !! base v); [eauto|discriminate].
Qed.

(** Writing a buffer that did not exist in [h] keeps [h] inside the
    heap reached. *)
Lemma only_writes_outside {X} l (m : st A X) (h h1 : heap A) :
  only_writes l m -> h !! l = None -> h ⊆ h1 -> h ⊆ (m h1).1.
Proof.
  intros Hm Hl Hsub. apply map_subseteq_spec. intros l' x Hx.
  rewrite Hm by (intros ->; congruence).
  now apply (lookup_weaken h).
Qed.

Lemma copy_on_write_raise (h : heap A) dst e :
  copy_on_write h dst (h, Raise e).
Proof. repeat split; reflexivity. Qed.

Lemma copy_then_update (k : view -> st A view) dst (h : heap A) :
  (forall v, only_writes (base v) (k v)) ->
  (forall v, keeps_buffers (k v)) ->
  (forall v h1 h2 r, k v h1 = (h2, Ok r) -> base r = base v) ->
  copy_on_write h dst (st_bind (copy dst) k h).
Proof.
  intros Hk Hkeep Hbase. unfold st_bind. pose proof (copy_fresh dst h) as Hc.
  destruct (copy dst h) as [h1 [v1|e]].
  2:{ subst h1. apply copy_on_write_raise. }
  destruct Hc as (Hnew & [buf0 Hdst] & _ & buf & ->).
  assert (Hsub : h ⊆ <[base v1 := buf]> h) by now apply insert_subseteq.
  assert (Hout : h ⊆ (k v1 (<[base v1 := buf]> h)).1)
    by (eapply only_writes_outside; eauto).
  assert (Hlive : is_Some ((k v1 (<[base v1 := buf]> h)).1 !! base v1)).
  { apply Hkeep. rewrite lookup_insert_eq. eauto. }
  destruct (k v1 (<[base v1 := buf]> h)) as [h2 res] eqn:Ek.
  cbn [fst] in Hout, Hlive. unfold copy_on_write. cbn [fst snd].
  split; [exact Hout|]. split.
  { rewrite Hdst. now apply (lookup_weaken h). }
  destruct res as [r|e]; [|exact I].
  apply Hbase in Ek. rewrite Ek. split; [exact Hnew|]. split; [exact Hlive|].
  intros w sels rhs Hw.
  assert (Hw' : h ⊆ (setitem w sels rhs h2).1).
  { eapply only_writes_outside; [apply only_writes_setitem| |exact Hout].
    now rewrite Hw. }
  split; [exact Hw'|]. rewrite Hdst. now apply (lookup_weaken h).
Qed.

(** *** What the updates return *)

Lemma fresh_None (h : heap A) : h !! fresh (dom h) = None.
Proof. apply not_elem_of_dom, is_fresh. Qed.

Lemma read_ok (v : view) (h : heap A) (a : ndarray A) :
  (read v h).2 = Ok a ->
  exists buf,
    h !! base v = Some buf /\
    mapM (fun p => buf !! p) (positions v) = Some (data a) /\
    shape a = vshape v.
Proof.
  unfold read. destruct (h !! base v) as [buf|]; [|discriminate].
  destruct (mapM _ _) as [elems|] eqn:E; [|discriminate].
  cbn. intros [= <-]. eauto.
Qed.

(** A block that can be read is read the same once a buffer is
    added. *)
Lemma read_frame (v : view) (h : heap A) (a : ndarray A) l b :
  h !! l = None -> (read v h).2 = Ok a ->
  read v (<[l := b]> h) = (<[l := b]> h, Ok a).
Proof.
  intros Hl Hr. unfold read in *.
  destruct (h !! base v) as [buf|] eqn:E; [|discriminate].
  rewrite lookup_insert_ne by congruence. rewrite E.
  destruct (mapM _ _); [|discriminate]. cbn in Hr. now injection Hr as <-.
Qed.

Lemma copy_run (v : view) (h : heap A) (a : ndarray A) :
  (read v h).2 = Ok a ->
  copy v h = (<[fresh (dom h) := data a]> h,
              Ok (contiguous (fresh (dom h)) (vshape v) (length (data a)))).
Proof.
  intros Hr. unfold copy, st_bind. pose proof (read_heap v h) as Hh.
  destruct (read v h) as [h1 [a'|e]]; cbn [fst snd] in *; [|discriminate].
  subst h1. now injection Hr as ->.
Qed.

Lemma mapM_lookup_seq (buf : list A) :
  mapM (fun p => buf !! p) (seq 0 (length buf)) = Some buf.
Proof.
  apply mapM_Some, Forall2_same_length_lookup_2.
  - now rewrite length_seq.
  - intros i p y Hp Hy. apply lookup_seq in Hp as [-> _]. exact Hy.
Qed.

Lemma read_contiguous (h : heap A) l (s : list nat) (buf : list A) :
  read (contiguous l s (length buf)) (<[l := buf]> h)
  = (<[l := buf]> h, Ok (Array s buf)).
Proof.
  unfold read, contiguous. cbn [base positions vshape].
  rewrite lookup_insert_eq. now rewrite mapM_lookup_seq.
Qed.

(** The elements a subscript selects depend on the shape and the
    positions of the view, not on its buffer. *)
Lemma getitem_rebase (v v' t : view) sels :
  getitem v sels = Ok t ->
  vshape v' = vshape v -> positions v' = positions v ->
  getitem v' sels = Ok (View (base v') (vshape t) (positions t)).
Proof.
  unfold getitem. intros Hg Hs Hp. rewrite Hs, Hp.
  destruct (select sels (vshape v)); cbn in *; [|discriminate].
  now injection Hg as <-.
Qed.

Lemma stores_length (ps : list nat) (vals buf : list A) :
  length (fold_left (fun b pv => <[pv.1 := pv.2]> b) (zip ps vals) buf)
  = length buf.
Proof.
  revert buf. induction (zip ps vals) as [|pv l IH]; intros buf; [reflexivity|].
  cbn [fold_left]. now rewrite IH, length_insert.
Qed.

Lemma assign_length (target : view) sels (rhs : ndarray A) buf buf' :
  assign target sels rhs buf = Ok buf' -> length buf' = length buf.
Proof.
  unfold assign. destruct (getitem target sels); cbn; [|discriminate].
  destruct (broadcast_to rhs _); cbn; [|discriminate].
  intros [= <-]. apply stores_length.
Qed.

Lemma update_assigned_length (h : heap A) target srcs sps dps ids buf buf' :
  update_assigned h target srcs sps dps ids buf = Ok buf' ->
  length buf' = length buf.
Proof.
  revert buf. induction ids as [|i ids IH]; intros buf; cbn [update_assigned].
  - now intros [= <-].
  - destruct (update_rhs h srcs sps i); cbn; [|discriminate].
    destruct (list_getitem dps i); cbn; [|discriminate].
    destruct (assign target _ _ buf) as [b|] eqn:Ea; cbn; [|discriminate].
    intros Hs. apply IH in Hs. apply assign_length in Ea. congruence.
Qed.

(** An assignment through a view of the buffer at [l] stores what
    [assign] says. *)
Lemma setitem_run (target target' : view) sels (rhs : ndarray A)
    (h : heap A) (bufk buf' : list A) :
  vshape target = vshape target' -> positions target = positions target' ->
  h !! base target = Some bufk ->
  assign target' sels rhs bufk = Ok buf' ->
  setitem target sels rhs h = (<[base target := buf']> h, Ok tt).
Proof.
  intros Hs Hp Hl Ha. unfold assign in Ha.
  destruct (getitem target' sels) as [t'|] eqn:Eg; cbn in Ha; [|discriminate].
  destruct (broadcast_to rhs (vshape t')) as [vals|] eqn:Eb; cbn in Ha;
    [|discriminate].
  injection Ha as <-.
  unfold setitem, st_bind, lift.
  rewrite (getitem_rebase target' target t' sels Eg Hs Hp).
  cbn [vshape base positions]. rewrite Eb. unfold write. now rewrite Hl.
Qed.

Lemma update_step_run (h : heap A) l (target target' : view)
    src_arrs src_params dst_params i rhs dp (bufk buf' : list A) :
  h !! l = None -> base target = l ->
  vshape target = vshape target' -> positions target = positions target' ->
  update_rhs h src_arrs src_params i = Ok rhs ->
  list_getitem dst_params i = Ok dp ->
  assign target' dp.1 rhs bufk = Ok buf' ->
  update_step target src_arrs src_params dst_params i (<[l := bufk]> h)
  = (<[l := buf']> h, Ok tt).
Proof.
  intros Hl Hb Hs Hp Hrhs Hdp Ha. unfold update_rhs in Hrhs.
  destruct (list_getitem src_arrs i) as [src|] eqn:Es; cbn [mbind result_bind fst snd] in Hrhs;
    [|discriminate].
  destruct (list_getitem src_params i) as [[[ssel bc] sT]|] eqn:Ep;
    cbn [mbind result_bind fst snd] in Hrhs; [|discriminate].
  unfold oriented_view in Hrhs.
  assert (Hset : forall g,
             (read g h).2 = Ok rhs ->
             st_bind (read g) (fun rhs => setitem target dp.1 rhs)
                     (<[l := bufk]> h)
             = (<[l := buf']> h, Ok tt)).
  { intros g Hg. unfold st_bind. rewrite (read_frame g h rhs l bufk Hl Hg).
    rewrite (setitem_run target target' dp.1 rhs (<[l := bufk]> h) bufk buf'
               Hs Hp); [|rewrite Hb; apply lookup_insert_eq|exact Ha].
    rewrite Hb. now rewrite insert_insert_eq. }
  unfold update_step. unfold st_bind at 1. unfold lift at 1. rewrite Es.
  unfold st_bind at 1. unfold lift at 1. rewrite Ep.
  unfold st_bind at 1. unfold lift at 1. rewrite Hdp. destruct dp as [dsel dT].
  cbn [fst] in Hset.
  destruct bc as [bc|]; cbn [mbind result_bind fst snd] in Hrhs.
  - destruct (reshape _ bc) as [r|] eqn:Er; cbn [mbind result_bind fst snd] in Hrhs; [|discriminate].
    destruct (getitem r ssel) as [g|] eqn:Eg; cbn [mbind result_bind fst snd] in Hrhs; [|discriminate].
    unfold st_bind at 1. unfold lift at 1.
    unfold st_bind at 1. unfold lift at 1. rewrite Eg.
    now apply Hset.
  - destruct (getitem _ ssel) as [g|] eqn:Eg; cbn [mbind result_bind fst snd] in Hrhs; [|discriminate].
    unfold st_bind at 1. unfold lift at 1.
    now apply Hset.
Qed.

Lemma update_loop_run (h : heap A) l (target target' : view)
    src_arrs src_params dst_params ids (bufk buf : list A) :
  h !! l = None -> base target = l ->
  vshape target = vshape target' -> positions target = positions target' ->
  update_assigned h target' src_arrs src_params dst_params ids bufk = Ok buf ->
  for_each ids (update_step target src_arrs src_params dst_params)
           (<[l := bufk]> h)
  = (<[l := buf]> h, Ok tt).
Proof.
  intros Hl Hb Hs Hp. revert bufk.
  induction ids as [|i ids IH]; intros bufk; cbn [update_assigned for_each].
  - now intros [= <-].
  - destruct (update_rhs h src_arrs src_params i) as [rhs|] eqn:Er; cbn;
      [|discriminate].
    destruct (list_getitem dst_params i) as [dp|] eqn:Ed; cbn; [|discriminate].
    destruct (assign target' dp.1 rhs bufk) as [b|] eqn:Ea; cbn;
      [|discriminate].
    intros Hspec. unfold st_bind.
    rewrite (update_step_run h l target target' src_arrs src_params dst_params
               i rhs dp bufk b Hl Hb Hs Hp Er Ed Ea).
    now apply IH.
Qed.

(** [update_block] on a destination that can be read, with parameter
    lists of one length that is not zero and assignments that select
    within bounds: the call returns, and the block returned is a copy
    of the destination on which the assignments were made. *)
Lemma update_block_run (h : heap A) (dst_arr : view) (a : ndarray A)
    src_arrs src_params dst_params dp rest (buf : list A) :
  (read dst_arr h).2 = Ok a ->
  dst_params = dp :: rest ->
  length src_params = length dst_params ->
  update_assigned h
    (oriented_view (contiguous (base dst_arr) (vshape dst_arr)
                               (length (data a))) dp.2)
    src_arrs src_params dst_params (seq 0 (length src_params)) (data a)
  = Ok buf ->
  let l := fresh (dom h) in
  update_block dst_arr src_arrs src_params dst_params h
  = (<[l := buf]> h,
     Ok (oriented_view (contiguous l (vshape dst_arr) (length (data a)))
                       dp.2)) /\
  read (contiguous l (vshape dst_arr) (length (data a))) (<[l := buf]> h)
  = (<[l := buf]> h, Ok (Array (vshape dst_arr) buf)).
Proof.
  intros Hr -> Hlen Hspec l. split.
  - unfold update_block. unfold st_bind at 1. unfold lift at 1.
    replace (length src_params =? length (dp :: rest))%nat with true
      by (symmetry; apply Nat.eqb_eq; exact Hlen).
    cbn [assert].
    unfold st_bind at 1. rewrite (copy_run dst_arr h a Hr). fold l.
    unfold st_bind at 1. unfold lift at 1. cbn [list_getitem lookup list_lookup].
    unfold st_bind.
    rewrite (update_loop_run h l _
               (oriented_view (contiguous (base dst_arr) (vshape dst_arr)
                                          (length (data a))) dp.2)
               src_arrs src_params (dp :: rest) _ (data a) buf).
    + reflexivity.
    + apply fresh_None.
    + now destruct dp.2.
    + now destruct dp.2.
    + now destruct dp.2.
    + exact Hspec.
  - apply update_assigned_length in Hspec. rewrite <- Hspec.
    apply read_contiguous.
Qed.

(** *** Assignments of single elements *)

Lemma select_ints (idx : list Z) (s : list nat) :
  Forall2 in_range idx s ->
  select (map SInt idx) s = Ok (map (fun i => ([Z.to_nat i], false)) idx).
Proof.
  induction 1 as [|i n idx s Hi Hb IH]; [reflexivity|].
  cbn [map select axis_select]. unfold in_range in Hi.
  replace (i <? 0) with false by (symmetry; apply Z.ltb_ge; lia).
  replace ((0 <=? i) && (i <? Z.of_nat n)) with true
    by (symmetry; apply andb_true_iff; split;
        [apply Z.leb_le|apply Z.ltb_lt]; lia).
  cbn [mbind result_bind]. rewrite IH. reflexivity.
Qed.

Lemma in_range_lt (idx : list Z) (s : list nat) :
  Forall2 in_range idx s -> Forall2 lt (map Z.to_nat idx) s.
Proof.
  induction 1 as [|i n idx s Hi Hb IH]; cbn [map]; constructor; [|exact IH].
  unfold in_range in Hi. lia.
Qed.

Lemma getitem_ints (v : view) (idx : list Z) :
  Forall2 in_range idx (vshape v) ->
  getitem v (map SInt idx)
  = Ok (View (base v) []
          [nth (ravel (vshape v) (map Z.to_nat idx)) (positions v) 0%nat]).
Proof.
  intros Hb. unfold getitem. rewrite (select_ints idx _ Hb).
  cbn [mbind result_bind]. f_equal.
  assert (Hf : List.filter snd (map (fun i : Z => ([Z.to_nat i], false)) idx)
               = []).
  { clear. induction idx; [reflexivity|]. cbn. exact IHidx. }
  assert (Hc : cartesian (map fst (map (fun i : Z => ([Z.to_nat i], false))
                                       idx))
               = [map Z.to_nat idx]).
  { clear. induction idx as [|i idx IH]; [reflexivity|].
    cbn [map fst cartesian flat_map]. rewrite IH. reflexivity. }
  rewrite Hf, Hc. reflexivity.
Qed.

Lemma index_step_run (h : heap A) l (dst_arr src_arr : view)
    (a s : ndarray A) (pair : list Z * list Z) (bufk : list A) :
  h !! l = None ->
  (read src_arr h).2 = Ok s -> well_formed s ->
  length bufk = prod (vshape dst_arr) ->
  Forall2 in_range pair.1 (vshape dst_arr) ->
  Forall2 in_range pair.2 (vshape src_arr) ->
  st_bind (lift (getitem src_arr (map SInt pair.2))) (fun g =>
  st_bind (read g) (fun rhs =>
  setitem (contiguous l (vshape dst_arr) (length bufk))
          (map SInt pair.1) rhs)) (<[l := bufk]> h)
  = (<[l := scatter (vshape dst_arr) (vshape src_arr) (data s) [pair] bufk]> h,
     Ok tt).
Proof.
  intros Hl Hr Hwf Hlen Hd Hs.
  destruct (read_ok src_arr h s Hr) as (bsrc & Hbase & Hm & Hshape).
  apply mapM_Some in Hm.
  set (ks := ravel (vshape src_arr) (map Z.to_nat pair.2)).
  set (kd := ravel (vshape dst_arr) (map Z.to_nat pair.1)).
  assert (Hks : (ks < length (data s))%nat).
  { unfold well_formed, size in Hwf. rewrite Hwf, Hshape.
    apply ravel_bound. now apply in_range_lt. }
  assert (Hkd : (kd < length bufk)%nat).
  { rewrite Hlen. apply ravel_bound. now apply in_range_lt. }
  destruct (lookup_lt_is_Some_2 _ _ Hks) as [x Hx].
  assert (Hps : (ks < length (positions src_arr))%nat).
  { now rewrite (Forall2_length _ _ _ Hm). }
  destruct (lookup_lt_is_Some_2 _ _ Hps) as [p Hp].
  assert (Hbp : bsrc !! p = Some x).
  { exact (Forall2_lookup_lr _ _ _ _ _ _ Hm Hp Hx). }
  unfold st_bind at 1. unfold lift at 1.
  rewrite (getitem_ints src_arr pair.2 Hs). fold ks.
  rewrite (nth_lookup_Some _ _ _ _ Hp).
  unfold st_bind at 1. unfold read at 1. cbn [base positions vshape].
  rewrite lookup_insert_ne by congruence. rewrite Hbase.
  cbn [mapM]. rewrite Hbp. cbn [mbind option_bind mret option_ret].
  unfold setitem, st_bind, lift.
  rewrite (getitem_ints (contiguous l (vshape dst_arr) (length bufk)) pair.1)
    by exact Hd.
  cbn [vshape base positions contiguous]. fold kd.
  rewrite seq_nth by exact Hkd. cbn [Nat.add].
  change (broadcast_to (Array [] [x]) []) with (Ok (A := list A) [x]).
  unfold write. rewrite lookup_insert_eq. cbn [zip zip_with fold_left fst snd].
  rewrite insert_insert_eq. unfold scatter. cbn [fold_left fst snd].
  fold ks. fold kd. now rewrite Hx.
Qed.

Lemma scatter_length (sd ss : list nat) (src : list A) pairs (dst : list A) :
  length (scatter sd ss src pairs dst) = length dst.
Proof.
  unfold scatter. revert dst. induction pairs as [|p pairs IH]; intros dst;
    [reflexivity|].
  cbn [fold_left]. rewrite IH. destruct (src !! _); [|reflexivity].
  apply length_insert.
Qed.

Lemma index_loop_run (h : heap A) l (dst_arr src_arr : view)
    (a s : ndarray A) (n : nat) (pairs : list (list Z * list Z))
    (bufk : list A) :
  h !! l = None ->
  (read src_arr h).2 = Ok s -> well_formed s ->
  length bufk = n -> n = prod (vshape dst_arr) ->
  Forall (fun pair => Forall2 in_range pair.1 (vshape dst_arr) /\
                      Forall2 in_range pair.2 (vshape src_arr)) pairs ->
  for_each pairs (fun pair =>
    st_bind (lift (getitem src_arr (map SInt pair.2))) (fun g =>
    st_bind (read g) (fun rhs =>
    setitem (contiguous l (vshape dst_arr) n) (map SInt pair.1) rhs)))
    (<[l := bufk]> h)
  = (<[l := scatter (vshape dst_arr) (vshape src_arr) (data s) pairs bufk]> h,
     Ok tt).
Proof.
  intros Hl Hr Hwf Hlen Hn Hall. revert bufk Hlen.
  induction Hall as [|pair pairs [Hd Hs] Hall IH]; intros bufk Hlen.
  - reflexivity.
  - cbn [for_each]. unfold st_bind at 1. rewrite <- Hlen.
    rewrite (index_step_run h l dst_arr src_arr a s pair bufk Hl Hr Hwf
               ltac:(congruence) Hd Hs).
    rewrite Hlen. rewrite IH by (now rewrite scatter_length).
    reflexivity.
Qed.

(** [update_block_by_index] on blocks that can be read, with indices
    within bounds: the call returns, and the block returned is a copy
    of the destination in which every pair, in order, stored the
    element of the source at the source index under the destination
    index. *)
Lemma update_block_by_index_run (h : heap A) (dst_arr src_arr : view)
    (a s : ndarray A) (index_pairs : list (list Z * list Z)) :
  (read dst_arr h).2 = Ok a -> well_formed a ->
  (read src_arr h).2 = Ok s -> well_formed s ->
  Forall (fun pair => Forall2 in_range pair.1 (vshape dst_arr) /\
                      Forall2 in_range pair.2 (vshape src_arr)) index_pairs ->
  let l := fresh (dom h) in
  let buf := scatter (vshape dst_arr) (vshape src_arr) (data s) index_pairs
                     (data a) in
  update_block_by_index dst_arr src_arr index_pairs h
  = (<[l := buf]> h,
     Ok (contiguous l (vshape dst_arr) (length (data a)))) /\
  read (contiguous l (vshape dst_arr) (length (data a))) (<[l := buf]> h)
  = (<[l := buf]> h, Ok (Array (vshape dst_arr) buf)).
Proof.
  intros Hr Hwf Hrs Hwfs Hall l buf.
  destruct (read_ok dst_arr h a Hr) as (_ & _ & _ & Hshape).
  assert (Hn : length (data a) = prod (vshape dst_arr)).
  { unfold well_formed, size in Hwf. now rewrite Hwf, Hshape. }
  split.
  - unfold update_block_by_index. unfold st_bind at 1.
    rewrite (copy_run dst_arr h a Hr). fold l. unfold st_bind at 1.
    rewrite (index_loop_run h l dst_arr src_arr a s (length (data a))
               index_pairs (data a) (fresh_None h) Hrs Hwfs eq_refl Hn Hall).
    reflexivity.
  - replace (length (data a)) with (length buf)
      by (unfold buf; apply scatter_length).
    apply read_contiguous.
Qed.

(** C2: [update_block] and [update_block_by_index] are copy-on-write.
    Whatever the sources and parameters, and whether the call returns
    or raises, every buffer the heap had before the call, that of the
    destination among them, is as it was; a block returned lives in a
    buffer the heap did not have, and assigning through it or through
    any view of its buffer leaves the old buffers as they were. And on
    valid arguments the calls return a modified copy. For
    [update_block], on a destination that can be read, with parameter
    lists of one length that is not zero and assignments that select
    within bounds, the block returned is laid out in a new buffer in
    the shape of the destination (transposed when the first
    destination flag is set), and holds the elements of the
    destination on which the assignments [dst[dst_sel] = src[src_sel]]
    were made in order, every right-hand side as the heap held it
    before the call. For [update_block_by_index], on blocks that can be
    read and indices within bounds, the block returned holds the
    elements of the destination in which every pair, in order, stored
    the element of the source at the source index under the
    destination index. *)
Theorem update_block_copy_on_write (h : heap A) (dst_arr : view) :
  (forall src_arrs src_params dst_params,
      copy_on_write h dst_arr
        (update_block dst_arr src_arrs src_params dst_params h)) /\
  (forall src_arr index_pairs,
      copy_on_write h dst_arr
        (update_block_by_index dst_arr src_arr index_pairs h)) /\
  (forall (a : ndarray A) src_arrs src_params dst_params dp rest buf,
      (read dst_arr h).2 = Ok a ->
      dst_params = dp :: rest ->
      length src_params = length dst_params ->
      update_assigned h
        (oriented_view (contiguous (base dst_arr) (vshape dst_arr)
                                   (length (data a))) dp.2)
        src_arrs src_params dst_params (seq 0 (length src_params)) (data a)
      = Ok buf ->
      exists l,
        h !! l = None /\
        update_block dst_arr src_arrs src_params dst_params h
        = (<[l := buf]> h,
           Ok (oriented_view (contiguous l (vshape dst_arr)
                                         (length (data a))) dp.2)) /\
        read (contiguous l (vshape dst_arr) (length (data a)))
             (<[l := buf]> h)
        = (<[l := buf]> h, Ok (Array (vshape dst_arr) buf))) /\
  (forall (a s : ndarray A) src_arr index_pairs,
      (read dst_arr h).2 = Ok a -> well_formed a ->
      (read src_arr h).2 = Ok s -> well_formed s ->
      Forall (fun pair => Forall2 in_range pair.1 (vshape dst_arr) /\
                          Forall2 in_range pair.2 (vshape src_arr))
             index_pairs ->
      exists l,
        h !! l = None /\
        update_block_by_index dst_arr src_arr index_pairs h
        = (<[l := scatter (vshape dst_arr) (vshape src_arr) (data s)
                          index_pairs (data a)]> h,
           Ok (contiguous l (vshape dst_arr) (length (data a)))) /\
        read (contiguous l (vshape dst_arr) (length (data a)))
             (<[l := scatter (vshape dst_arr) (vshape src_arr) (data s)
                             index_pairs (data a)]> h)
        = (<[l := scatter (vshape dst_arr) (vshape src_arr) (data s)
                          index_pairs (data a)]> h,
           Ok (Array (vshape dst_arr)
                 (scatter (vshape dst_arr) (vshape src_arr) (data s)
                          index_pairs (data a))))).
Proof.
  split; [|split; [|split]].
  - intros src_arrs src_params dst_params. unfold update_block.
    unfold st_bind at 1. unfold lift at 1.
    destruct (assert _); [|apply copy_on_write_raise].
    apply copy_then_update.
    + intros v.
      apply only_writes_bind; [apply only_writes_lift|]. intros dp.
      apply only_writes_bind; [|intros; apply only_writes_ret].
      apply only_writes_for_each. intros i.
      replace (base v) with (base (if dp.2 then T v else v))
        by (now destruct dp.2).
      apply only_writes_update_step.
    + intros v.
      apply keeps_buffers_bind; [apply keeps_buffers_lift|]. intros dp.
      apply keeps_buffers_bind; [|intros; apply keeps_buffers_ret].
      apply keeps_buffers_for_each. intros i.
      apply keeps_buffers_update_step.
    + intros v h1 h2 r. unfold st_bind, lift, st_ret.
      destruct (list_getitem dst_params 0) as [dp|]; [|discriminate].
      destruct (for_each _ _ h1) as [h3 [[]|]]; [|discriminate].
      intros [= _ <-]. now destruct dp.2.
  - intros src_arr index_pairs. unfold update_block_by_index.
    apply copy_then_update.
    + intros v.
      apply only_writes_bind; [|intros; apply only_writes_ret].
      apply only_writes_for_each. intros pair.
      apply only_writes_bind; [apply only_writes_lift|]. intros g.
      apply only_writes_bind; [apply only_writes_read|]. intros rhs.
      apply only_writes_setitem.
    + intros v.
      apply keeps_buffers_bind; [|intros; apply keeps_buffers_ret].
      apply keeps_buffers_for_each. intros pair.
      apply keeps_buffers_bind; [apply keeps_buffers_lift|]. intros g.
      apply keeps_buffers_bind; [apply keeps_buffers_read|]. intros rhs.
      apply keeps_buffers_setitem.
    + intros v h1 h2 r. unfold st_bind, st_ret.
      destruct (for_each _ _ h1) as [h3 [[]|]]; [|discriminate].
      now intros [= _ <-].
  - intros a src_arrs src_params dst_params dp rest buf Hr Hdp Hlen Hspec.
    exists (fresh (dom h)). split; [apply fresh_None|].
    exact (update_block_run h dst_arr a src_arrs src_params dst_params dp rest
             buf Hr Hdp Hlen Hspec).
  - intros a s src_arr index_pairs Hr Hwf Hrs Hwfs Hall.
    exists (fresh (dom h)). split; [apply fresh_None|].
    exact (update_block_by_index_run h dst_arr src_arr a s index_pairs
             Hr Hwf Hrs Hwfs Hall).
Qed.
End StorageFacts.

Section StorageExamples.
Import Py Numpy Storage Kernel Notions Sample.

Lemma update_block_copy_on_write_witness :
  copy_on_write shared_heap array_a
    (update_block array_a [vector_c] [([whole], None, false)]
                  [([SInt 1], false)] shared_heap) /\
  (exists l,
      shared_heap !! l = None /\
      update_block array_a [vector_c] [([whole], None, false)]
                   [([SInt 1], false)] shared_heap
      = (<[l := [1; 2; 3; 10; 20; 30]]> shared_heap,
         Ok (contiguous l [2; 3]%nat 6)) /\
      read (contiguous l [2; 3]%nat 6)
           (<[l := [1; 2; 3; 10; 20; 30]]> shared_heap)
      = (<[l := [1; 2; 3; 10; 20; 30]]> shared_heap,
         Ok (Array [2; 3]%nat [1; 2; 3; 10; 20; 30]))) /\
  (exists l,
      shared_heap !! l = None /\
      update_block_by_index array_a vector_c [([1; 2], [0]); ([0; 0], [2])]
                            shared_heap
      = (<[l := [30; 2; 3; 4; 5; 10]]> shared_heap,
         Ok (contiguous l [2; 3]%nat 6)) /\
      read (contiguous l [2; 3]%nat 6)
           (<[l := [30; 2; 3; 4; 5; 10]]> shared_heap)
      = (<[l := [30; 2; 3; 4; 5; 10]]> shared_heap,
         Ok (Array [2; 3]%nat [30; 2; 3; 4; 5; 10]))).
Proof.
  pose proof (update_block_copy_on_write shared_heap array_a)
    as (H1 & _ & H3 & H4).
  split; [apply H1|]. split.
  - apply (H3 (Array [2; 3]%nat [1; 2; 3; 4; 5; 6]) [vector_c]
              [([whole], None, false)] [([SInt 1], false)]
              ([SInt 1], false) [] [1; 2; 3; 10; 20; 30]).
    + vm_compute. reflexivity.
    + reflexivity.
    + reflexivity.
    + vm_compute. reflexivity.
  - apply (H4 (Array [2; 3]%nat [1; 2; 3; 4; 5; 6])
              (Array [3]%nat [10; 20; 30]) vector_c
              [([1; 2], [0]); ([0; 0], [2])]).
    + vm_compute. reflexivity.
    + reflexivity.
    + vm_compute. reflexivity.
    + reflexivity.
    + repeat constructor; unfold in_range; cbn; lia.
Defined.

(** The aliasing test: the arrays [array_a] and [array_b] share one
    block; updating row 1 of [array_a] with the vector (10, 20, 30)
    returns a block in a new buffer, and [array_b] reads as before. *)
Lemma update_block_leaves_alias :
  let out := update_block array_a [vector_c] [([whole], None, false)]
                          [([SInt 1], false)] shared_heap in
  out.2 = Ok (View 3%positive [2; 3]%nat (seq 0 6)) /\
  (read (View 3%positive [2; 3]%nat (seq 0 6)) out.1).2
  = Ok (Array [2; 3]%nat [1; 2; 3; 10; 20; 30]) /\
  (read array_b out.1).2 = Ok (Array [2; 3]%nat [1; 2; 3; 4; 5; 6]) /\
  let out' := update_block_by_index array_a vector_c
                [([1; 2], [0]); ([0; 0], [2])] shared_heap in
  (st_bind (A := Z) (lift out'.2) read out'.1).2
  = Ok (Array [2; 3]%nat [30; 2; 3; 4; 5; 10]) /\
  (read array_b out'.1).2 = Ok (Array [2; 3]%nat [1; 2; 3; 4; 5; 6]).
Proof. vm_compute. repeat split. Qed.
End StorageExamples.

(** ** Order statistics, optima and factorisations *)

Section PartitionFacts.
Import Py Numpy Kernel Notions Sample.

Lemma mask_filter {A} (f : A -> bool) (l : list A) :
  (List.filter snd (zip l (map f l))).*1 = List.filter f l.
Proof.
  induction l as [|x l IH]; [reflexivity|].
  cbn [map zip zip_with List.filter snd]. destruct (f x); cbn; now rewrite IH.
Qed.

Lemma ops_lookup (op : string) :
  In op ["gt"; "lt"; "ge"; "le"; "eq"; "ne"] ->
  exists f : Z -> Z -> bool,
    (ops (A := Z)) !! op = Some f /\
    forall e p, f e p = true <-> holds op e p.
Proof.
  unfold holds. cbn [In]. intros [<-|[<-|[<-|[<-|[<-|[<-|[]]]]]]].
  - exists Z.gtb. split; [reflexivity|]. intros e p. rewrite Z.gtb_gt.
    split; [auto|]. intros [[_ H]|[[? _]|[[? _]|[[? _]|[[? _]|[? _]]]]]]; done.
  - exists Z.ltb. split; [reflexivity|]. intros e p. rewrite Z.ltb_lt.
    split; [auto|]. intros [[? _]|[[_ H]|[[? _]|[[? _]|[[? _]|[? _]]]]]]; done.
  - exists Z.geb. split; [reflexivity|]. intros e p. rewrite Z.geb_ge.
    split; [auto 10|]. intros [[? _]|[[? _]|[[_ H]|[[? _]|[[? _]|[? _]]]]]]; done.
  - exists Z.leb. split; [reflexivity|]. intros e p. rewrite Z.leb_le.
    split; [auto 10|]. intros [[? _]|[[? _]|[[? _]|[[_ H]|[[? _]|[? _]]]]]]; done.
  - exists Z.eqb. split; [reflexivity|]. intros e p. rewrite Z.eqb_eq.
    split; [auto 10|]. intros [[? _]|[[? _]|[[? _]|[[? _]|[[_ H]|[? _]]]]]]; done.
  - exists (fun a b => negb (Z.eqb a b)). split; [reflexivity|]. intros e p.
    rewrite negb_true_iff, Z.eqb_neq.
    split; [auto 10|]. intros [[? _]|[[? _]|[[? _]|[[? _]|[[? _]|[_ H]]]]]]; done.
Qed.

(** C4: on a well-formed integer block and for each of the six
    operator names, [pivot_partition] returns the elements for which
    the named comparison against the pivot holds, each as often as it
    occurs and in the order of the block, together with their number;
    a block without elements is returned as it is, with the count 0. *)
Theorem pivot_partition_filters (arr : ndarray Z) (pivot : Z) (op : string) :
  well_formed arr ->
  In op ["gt"; "lt"; "ge"; "le"; "eq"; "ne"] ->
  exists count filtered,
    pivot_partition arr pivot op = Ok (count, filtered) /\
    count = length (data filtered) /\
    data filtered
    = List.filter (fun e => bool_decide (holds op e pivot)) (data arr) /\
    (forall e, In e (data arr) ->
               (In e (data filtered) <-> holds op e pivot)) /\
    (size arr = 0%nat -> count = 0%nat /\ filtered = arr).
Proof.
  intros Hwf Hop. unfold pivot_partition.
  destruct (size arr =? 0)%nat eqn:Esz.
  - apply Nat.eqb_eq in Esz. unfold well_formed in Hwf. rewrite Esz in Hwf.
    apply length_zero_iff_nil in Hwf.
    exists 0%nat, arr. rewrite Hwf. cbn. repeat split; auto; contradiction.
  - destruct (ops_lookup op Hop) as (f & Hf & Hholds).
    assert (Hc : contains op (ops (A := Z)) = true).
    { unfold contains. apply bool_decide_eq_true. rewrite Hf. eauto. }
    rewrite Hc. cbn [assert mbind result_bind]. unfold getitem. rewrite Hf.
    cbn [mbind result_bind]. unfold getitem_mask, compare_scalar.
    cbn [shape data]. rewrite decide_True by reflexivity.
    cbn [mbind result_bind]. rewrite mask_filter.
    set (d := List.filter (fun x => f x pivot) (data arr)).
    exists (size (Array [length d] d)), (Array [length d] d).
    assert (Hd : d = List.filter (fun e => bool_decide (holds op e pivot))
                                 (data arr)).
    { unfold d. apply List.filter_ext. intros e.
      apply eq_true_iff_eq. rewrite bool_decide_eq_true. apply Hholds. }
    cbn [data]. repeat split.
    + unfold size. cbn. lia.
    + exact Hd.
    + intros Hin. unfold d in Hin. apply filter_In in Hin as [_ Hin].
      now apply Hholds.
    + intros Hh. unfold d. apply filter_In. split; [assumption|].
      now apply Hholds.
    + apply Nat.eqb_neq in Esz. contradiction.
    + apply Nat.eqb_neq in Esz. contradiction.
Qed.

Lemma pivot_partition_filters_witness :
  exists count filtered,
    pivot_partition vector_pi 2 "gt" = Ok (count, filtered) /\
    count = length (data filtered) /\
    data filtered
    = List.filter (fun e => bool_decide (holds "gt" e 2)) (data vector_pi) /\
    (forall e, In e (data vector_pi) ->
               (In e (data filtered) <-> holds "gt" e 2)) /\
    (size vector_pi = 0%nat -> count = 0%nat /\ filtered = vector_pi).
Proof.
  apply (pivot_partition_filters vector_pi 2 "gt").
  - reflexivity.
  - cbn. auto.
Defined.
End PartitionFacts.


Section ArgOpFacts.
Import Py Numpy Kernel Notions Sample.

Lemma arg_scan_min (pre l : list Z) (bi : nat) (b : Z) :
  first_min pre bi b ->
  exists m, first_min (pre ++ l) (arg_scan Z.ltb bi b (length pre) l) m.
Proof.
  revert pre bi b. induction l as [|x l IH]; intros pre bi b Hb.
  - exists b. now rewrite app_nil_r.
  - cbn [arg_scan]. destruct Hb as (Hbi & Hmin & Hfirst).
    replace (pre ++ x :: l) with ((pre ++ [x]) ++ l)
      by (now rewrite <- app_assoc).
    replace (S (length pre)) with (length (pre ++ [x]))
      by (rewrite length_app; cbn; lia).
    destruct (x <? b) eqn:E; apply IH.
    + apply Z.ltb_lt in E. repeat split.
      * rewrite lookup_app_r by lia. now rewrite Nat.sub_diag.
      * intros y Hy. apply in_app_iff in Hy as [Hy|[<-|[]]]; [|lia].
        specialize (Hmin y Hy). lia.
      * intros j y Hj Hy. rewrite lookup_app_l in Hy by exact Hj.
        apply list_elem_of_lookup_2, list_elem_of_In in Hy.
        specialize (Hmin y Hy). lia.
    + apply Z.ltb_ge in E. repeat split.
      * apply lookup_app_l_Some, Hbi.
      * intros y Hy. apply in_app_iff in Hy as [Hy|[<-|[]]]; [auto|lia].
      * intros j y Hj Hy. apply lookup_lt_Some in Hbi as Hlt.
        rewrite lookup_app_l in Hy by lia. eauto.
Qed.

Lemma arg_scan_opp (bi : nat) (b : Z) (i : nat) (l : list Z) :
  arg_scan Z.gtb bi b i l = arg_scan Z.ltb bi (- b) i (map Z.opp l).
Proof.
  revert bi b i. induction l as [|x l IH]; intros bi b i; [reflexivity|].
  cbn [arg_scan map].
  replace (- x <? - b) with (x >? b)
    by (rewrite Z.gtb_ltb; apply eq_true_iff_eq; rewrite !Z.ltb_lt; lia).
  destruct (x >? b); apply IH.
Qed.

Lemma first_max_opp (l : list Z) (i : nat) (m : Z) :
  first_min (map Z.opp l) i m -> first_max l i (- m).
Proof.
  intros (Hi & Hmin & Hfirst). repeat split.
  - rewrite list_lookup_fmap in Hi.
    destruct (l !! i) as [y|]; [|discriminate]. cbn in Hi.
    f_equal. injection Hi. lia.
  - intros x Hx. specialize (Hmin (- x) (in_map Z.opp l x Hx)). lia.
  - intros j x Hj Hx. specialize (Hfirst j (- x) Hj).
    rewrite list_lookup_fmap, Hx in Hfirst. specialize (Hfirst eq_refl). lia.
Qed.

Lemma np_argmin_spec (arr : list Z) :
  arr <> [] -> exists i m, np_argmin arr = Ok i /\ first_min arr i m.
Proof.
  destruct arr as [|x l]; [congruence|]. intros _.
  destruct (arg_scan_min [x] l 0 x) as [m Hm].
  - repeat split; [|intros j y Hj; lia].
    intros y [<-|[]]. lia.
  - exists (arg_scan Z.ltb 0 x 1 l), m. split; [reflexivity|exact Hm].
Qed.

Lemma np_argmax_spec (arr : list Z) :
  arr <> [] -> exists i m, np_argmax arr = Ok i /\ first_max arr i m.
Proof.
  destruct arr as [|x l]; [congruence|]. intros _.
  destruct (arg_scan_min [- x] (map Z.opp l) 0 (- x)) as [m Hm].
  - repeat split; [|intros j y Hj; lia].
    intros y [<-|[]]. lia.
  - exists (arg_scan Z.gtb 0 x 1 l), (- m). split; [reflexivity|].
    rewrite arg_scan_opp. apply first_max_opp. exact Hm.
Qed.

Lemma arg_op_argmin (arr : list Z) :
  arr <> [] ->
  exists j m,
    first_min arr j m /\
    forall s e oa oo,
      arg_op "argmin" arr (Slice (Some s) e None) oa oo
      = Ok (match oo with
            | Some o => if o <? m then (oa, o) else (Some (s + Z.of_nat j), m)
            | None => (Some (s + Z.of_nat j), m)
            end).
Proof.
  intros Hne. destruct (np_argmin_spec arr Hne) as (j & m & Hj & Hm).
  exists j, m. split; [exact Hm|]. intros s e oa oo.
  unfold arg_op. rewrite decide_True by reflexivity.
  rewrite Hj. cbn [mbind result_bind]. unfold list_getitem.
  destruct Hm as (-> & _). cbn [mbind result_bind start].
  destruct oo as [o|]; [|reflexivity]. now destruct (o <? m).
Qed.

Lemma arg_op_argmax (arr : list Z) :
  arr <> [] ->
  exists j m,
    first_max arr j m /\
    forall s e oa oo,
      arg_op "argmax" arr (Slice (Some s) e None) oa oo
      = Ok (match oo with
            | Some o => if m <? o then (oa, o) else (Some (s + Z.of_nat j), m)
            | None => (Some (s + Z.of_nat j), m)
            end).
Proof.
  intros Hne. destruct (np_argmax_spec arr Hne) as (j & m & Hj & Hm).
  exists j, m. split; [exact Hm|]. intros s e oa oo.
  unfold arg_op. rewrite decide_False by discriminate.
  rewrite decide_True by reflexivity.
  rewrite Hj. cbn [mbind result_bind]. unfold list_getitem.
  destruct Hm as (-> & _). cbn [mbind result_bind start].
  destruct oo as [o|]; [|reflexivity]. rewrite Z.gtb_ltb. now destruct (m <? o).
Qed.

(** One call of [arg_op] on a non-empty integer block whose slice has
    a start: with [i] the first position of the local optimum [m], the
    call returns the carried pair when the carried optimum is strictly
    better than [m], and [(start + i, m)] otherwise, also when the
    carried optimum equals [m]. *)
Lemma arg_op_carry (arr : list Z) (block_slice : slice) (s : Z)
    (other_argoptima other_optima : option Z) :
  arr <> [] -> start block_slice = Some s ->
  (exists i m,
      first_min arr i m /\
      arg_op "argmin" arr block_slice other_argoptima other_optima
      = Ok (match other_optima with
            | Some o => if o <? m then (other_argoptima, o)
                        else (Some (s + Z.of_nat i), m)
            | None => (Some (s + Z.of_nat i), m)
            end) /\
      arg_op "argmin" arr block_slice other_argoptima (Some m)
      = Ok (Some (s + Z.of_nat i), m)) /\
  (exists i m,
      first_max arr i m /\
      arg_op "argmax" arr block_slice other_argoptima other_optima
      = Ok (match other_optima with
            | Some o => if m <? o then (other_argoptima, o)
                        else (Some (s + Z.of_nat i), m)
            | None => (Some (s + Z.of_nat i), m)
            end) /\
      arg_op "argmax" arr block_slice other_argoptima (Some m)
      = Ok (Some (s + Z.of_nat i), m)).
Proof.
  intros Hne Hs. split.
  - destruct (np_argmin_spec arr Hne) as (i & m & Hi & Hm).
    exists i, m. split; [exact Hm|].
    unfold arg_op. rewrite decide_True by reflexivity.
    rewrite Hi. cbn [mbind result_bind]. unfold list_getitem.
    destruct Hm as (-> & _). cbn [mbind result_bind]. rewrite Hs.
    split.
    + destruct other_optima as [o|]; [|reflexivity]. now destruct (o <? m).
    + now rewrite Z.ltb_irrefl.
  - destruct (np_argmax_spec arr Hne) as (i & m & Hi & Hm).
    exists i, m. split; [exact Hm|].
    unfold arg_op. rewrite decide_False by discriminate.
    rewrite decide_True by reflexivity.
    rewrite Hi. cbn [mbind result_bind]. unfold list_getitem.
    destruct Hm as (-> & _). cbn [mbind result_bind]. rewrite Hs.
    split.
    + destruct other_optima as [o|]; [|reflexivity].
      rewrite Z.gtb_ltb. now destruct (m <? o).
    + now rewrite Z.gtb_ltb, Z.ltb_irrefl.
Qed.

(** A tie at one call: the carried pair (0, 5) was processed first,
    the block at hand has the same optimum 5, and the block at hand
    wins. *)
Lemma arg_op_tie_prefers_block :
  arg_op "argmin" [5] (Slice (Some 1) (Some 2) None) (Some 0) (Some 5)
  = Ok (Some 1, 5) /\
  arg_op "argmin" [5] (Slice (Some 1) (Some 2) None) (Some 0) (Some 5)
  <> Ok (Some 0, 5) /\
  arg_op "argmax" [5] (Slice (Some 1) (Some 2) None) (Some 0) (Some 5)
  = Ok (Some 1, 5).
Proof. repeat split; [vm_compute; congruence]. Qed.

Lemma first_min_unique (l : list Z) (i i' : nat) (m m' : Z) :
  first_min l i m -> first_min l i' m' -> i = i' /\ m = m'.
Proof.
  intros (Hi & Hmin & Hfirst) (Hi' & Hmin' & Hfirst').
  assert (Hm : m = m').
  { assert (m <= m') by (apply Hmin, list_elem_of_In;
                         eapply list_elem_of_lookup_2; eauto).
    assert (m' <= m) by (apply Hmin', list_elem_of_In;
                         eapply list_elem_of_lookup_2; eauto).
    lia. }
  subst m'. split; [|reflexivity].
  destruct (Nat.lt_trichotomy i i') as [Hlt|[Heq|Hgt]]; [|exact Heq|].
  - specialize (Hfirst' i m Hlt Hi). lia.
  - specialize (Hfirst i' m Hgt Hi'). lia.
Qed.

Lemma first_min_app (l1 l2 : list Z) (i : nat) (m : Z) :
  first_min l1 i m -> (forall x, In x l2 -> m <= x) ->
  first_min (l1 ++ l2) i m.
Proof.
  intros (Hi & Hmin & Hfirst) H2. split; [|split].
  - now apply lookup_app_l_Some.
  - intros x Hx. apply in_app_or in Hx as [Hx|Hx]; auto.
  - intros j x Hj Hx. apply (Hfirst j x Hj).
    rewrite lookup_app_l in Hx; [exact Hx|].
    apply lookup_lt_Some in Hi. lia.
Qed.

Lemma np_argmin_first_min (l : list Z) (i : nat) (m : Z) :
  first_min l i m -> np_argmin l = Ok i.
Proof.
  intros Hm. assert (Hne : l <> []).
  { destruct Hm as (Hi & _). intros ->. discriminate. }
  destruct (np_argmin_spec l Hne) as (i' & m' & Hi' & Hm').
  destruct (first_min_unique l i i' m m' Hm Hm') as [-> _]. exact Hi'.
Qed.

(** C5: on a tie the carried pair does not win. Whenever the carried
    optimum equals the optimum [m] of the block at hand, [arg_op]
    returns the pair of the block at hand, whatever position was
    carried in: the tests [other_optima < arr_min] and
    [other_optima > arr_max] are strict. Hence the fold over the
    blocks of a vector depends on where the vector is cut: when the
    minimum of a first block recurs in a second, the fold over the two
    blocks returns its first position in the second block, the fold
    over the vector in one block its first position in the vector,
    which lies in the first. With [arr = [5]], [start = 1] and the
    carried pair (0, 5) the call returns (1, 5); the vector (1, 1) cut
    in two gives position 1, while [np.argmin] gives 0. *)
Theorem arg_op_tie_goes_to_later_block :
  (forall (arr : list Z) (s : Z) (e oa : option Z) (i : nat) (m : Z),
      np_argmin arr = Ok i -> arr !! i = Some m ->
      arg_op "argmin" arr (Slice (Some s) e None) oa (Some m)
      = Ok (Some (s + Z.of_nat i), m)) /\
  (forall (arr : list Z) (s : Z) (e oa : option Z) (i : nat) (m : Z),
      np_argmax arr = Ok i -> arr !! i = Some m ->
      arg_op "argmax" arr (Slice (Some s) e None) oa (Some m)
      = Ok (Some (s + Z.of_nat i), m)) /\
  (forall (arr1 arr2 : list Z) (s : Z) (i1 i2 : nat) (m : Z),
      first_min arr1 i1 m -> first_min arr2 i2 m ->
      arg_op_blocks "argmin" [arr1; arr2] s (None, None)
      = Ok (Some (s + Z.of_nat (length arr1) + Z.of_nat i2), Some m) /\
      arg_op_blocks "argmin" [arr1 ++ arr2] s (None, None)
      = Ok (Some (s + Z.of_nat i1), Some m) /\
      np_argmin (arr1 ++ arr2) = Ok i1 /\
      (i1 < length arr1)%nat) /\
  arg_op "argmin" [5] (Slice (Some 1) (Some 2) None) (Some 0) (Some 5)
  = Ok (Some 1, 5) /\
  arg_op_blocks "argmin" [[1]; [1]] 0 (None, None) = Ok (Some 1, Some 1) /\
  arg_op_blocks "argmin" [[1; 1]] 0 (None, None) = Ok (Some 0, Some 1) /\
  np_argmin [1; 1] = Ok 0%nat.
Proof.
  split; [|split; [|split; [|split; [|split; [|split]]]]].
  - intros arr s e oa i m Hi Hm. unfold arg_op.
    rewrite decide_True by reflexivity.
    rewrite Hi. cbn [mbind result_bind]. unfold list_getitem. rewrite Hm.
    cbn [mbind result_bind start]. now rewrite Z.ltb_irrefl.
  - intros arr s e oa i m Hi Hm. unfold arg_op.
    rewrite decide_False by discriminate. rewrite decide_True by reflexivity.
    rewrite Hi. cbn [mbind result_bind]. unfold list_getitem. rewrite Hm.
    cbn [mbind result_bind start]. now rewrite Z.gtb_ltb, Z.ltb_irrefl.
  - intros arr1 arr2 s i1 i2 m H1 H2.
    assert (Hne1 : arr1 <> []).
    { destruct H1 as (Hi & _). intros ->. discriminate. }
    assert (Hne2 : arr2 <> []).
    { destruct H2 as (Hi & _). intros ->. discriminate. }
    assert (H12 : first_min (arr1 ++ arr2) i1 m).
    { apply first_min_app; [exact H1|]. now destruct H2 as (_ & ? & _). }
    assert (Hlt : (i1 < length arr1)%nat).
    { destruct H1 as (Hi & _). now apply lookup_lt_Some in Hi. }
    destruct (arg_op_argmin arr1 Hne1) as (j1 & m1 & Hf1 & Hop1).
    destruct (first_min_unique arr1 i1 j1 m m1 H1 Hf1) as [<- <-].
    destruct (arg_op_argmin arr2 Hne2) as (j2 & m2 & Hf2 & Hop2).
    destruct (first_min_unique arr2 i2 j2 m m2 H2 Hf2) as [<- <-].
    assert (Hne12 : arr1 ++ arr2 <> []).
    { intros E. apply app_eq_nil in E as [? _]. contradiction. }
    destruct (arg_op_argmin (arr1 ++ arr2) Hne12) as (j & m' & Hf & Hop).
    destruct (first_min_unique _ i1 j m m' H12 Hf) as [<- <-].
    split; [|split; [|split; [|exact Hlt]]].
    + cbn [arg_op_blocks fst snd]. rewrite Hop1. cbn [mbind result_bind fst snd].
      rewrite Hop2. cbn [mbind result_bind fst snd].
      now rewrite Z.ltb_irrefl.
    + cbn [arg_op_blocks fst snd]. rewrite Hop. reflexivity.
    + exact (np_argmin_first_min _ _ _ H12).
  - vm_compute. reflexivity.
  - vm_compute. reflexivity.
  - vm_compute. reflexivity.
  - reflexivity.
Qed.

End ArgOpFacts.

Section SvdFacts.
Import Py Numpy Kernel Notions Sample.

(** Given the factors of a full decomposition of an m-by-n block,
    [u] of shape (m, m) and [sigma] of length min(m, n), [svd] keeps
    the first min(m, n) rows of [u], all of their m columns: the [u]
    returned has shape (min(m, n), m), which is not (m, min(m, n)) as
    soon as n < m. *)
Lemma svd_truncates_rows np_linalg_svd arr (u sigma vT : ndarray spec_float)
    (m n : nat) :
  np_linalg_svd arr = Ok (u, sigma, vT) ->
  shape u = [m; m] -> shape sigma = [Nat.min m n] ->
  exists u',
    svd np_linalg_svd arr = Ok (u', sigma, vT) /\
    shape u' = [Nat.min m n; m] /\
    data u' = firstn (Nat.min m n * m) (data u) /\
    ((n < m)%nat -> shape u' <> [m; Nat.min m n]).
Proof.
  intros Hsvd Hu Hs. unfold svd. rewrite Hsvd. cbn [mbind result_bind].
  rewrite Hs.
  change (tuple_getitem [Nat.min m n] 0) with (Ok (A := nat) (Nat.min m n)).
  cbn [mbind result_bind]. unfold take_first. rewrite Hu.
  cbn [mbind result_bind].
  eexists. split; [reflexivity|]. cbn [shape data prod fold_right].
  replace (Nat.min (Nat.min m n) m) with (Nat.min m n) by lia.
  rewrite Nat.mul_1_r. repeat split.
  intros Hlt [= H1 H2]. lia.
Qed.

(** C6, on the code: for the 3-by-2 block with columns e1 and e2 the
    [u] returned has shape (2, 3), the first two rows of the full
    3-by-3 factor, where the reduced form has shape (3, 2). *)
Theorem svd_of_3x2_returns_2x3 :
  shape unit_columns = [3; 2]%nat /\
  exists u',
    svd unit_columns_svd unit_columns
    = Ok (u', Array [2]%nat [Float64.one; Float64.one], np_eye 2) /\
    shape u' = [2; 3]%nat /\
    data u' = firstn 6 (data (np_eye 3)) /\
    shape u' <> [3; 2]%nat.
Proof.
  split; [reflexivity|].
  destruct (svd_truncates_rows unit_columns_svd unit_columns (np_eye 3)
              (Array [2]%nat [Float64.one; Float64.one]) (np_eye 2) 3 2)
    as (u' & Hsvd & Hshape & Hdata & Hne); try reflexivity.
  exists u'. repeat split; try assumption. apply Hne. lia.
Qed.
End SvdFacts.

(** ** Properties of the execution backends *)

Section SystemsFacts.
Import Py Systems Sample.

Lemma contains_true `{Countable K} {V} (k : K) (d : gmap K V) :
  contains k d = true <-> is_Some (d !! k).
Proof. unfold contains. apply bool_decide_eq_true. Qed.

Lemma contains_false `{Countable K} {V} (k : K) (d : gmap K V) :
  contains k d = false <-> d !! k = None.
Proof.
  unfold contains. rewrite bool_decide_eq_false.
  symmetry. apply eq_None_not_Some.
Qed.

(** Whatever a successful [register] did, the name is registered
    afterwards. *)
Lemma register_registers b self name func params self' w :
  register b self name func params = Ok (self', w) ->
  is_Some (_remote_functions self' !! name).
Proof.
  unfold register. destruct (contains name _) eqn:E.
  - intros [= <- <-]. now apply contains_true.
  - destruct (remote b func _) as [r|e]; cbn; [|discriminate].
    intros [= <- <-]. cbn. rewrite lookup_insert_eq. eauto.
Qed.

Lemma register_actor_registers b self name cls self' w :
  register_actor b self name cls = Ok (self', w) ->
  is_Some (_actors self' !! name).
Proof.
  unfold register_actor. destruct (contains name _) eqn:E.
  - intros [= <- <-]. now apply contains_true.
  - intros [= <- <-]. cbn. rewrite lookup_insert_eq. eauto.
Qed.

Lemma register_again b self name func params :
  is_Some (_remote_functions self !! name) ->
  register b self name func params = Ok (self, []).
Proof.
  intros Hin. unfold register. apply contains_true in Hin. now rewrite Hin.
Qed.

Lemma register_actor_again b self name cls :
  is_Some (_actors self !! name) ->
  register_actor b self name cls = Ok (self, [actor_warning name cls]).
Proof.
  intros Hin. unfold register_actor. apply contains_true in Hin.
  now rewrite Hin.
Qed.

(** C7, as the code has it: in every backend, registering a name that
    is already registered leaves both tables as they were, whatever
    function or class is offered; [register_actor] emits one warning,
    [register] returns silently. *)
Theorem reregistration_is_noop (b : backend) (self : tables) (name : string) :
  (is_Some (_remote_functions self !! name) ->
   forall func params, register b self name func params = Ok (self, [])) /\
  (is_Some (_actors self !! name) ->
   forall cls, register_actor b self name cls
               = Ok (self, [actor_warning name cls])).
Proof.
  split; intros Hin; intros.
  - now apply register_again.
  - now apply register_actor_again.
Qed.

(** First registration wins: a second [register] or [register_actor]
    under the same name returns the tables the first one produced. *)
Lemma first_registration_wins b self name :
  (forall f1 p1 f2 p2 self1 w1,
      register b self name f1 p1 = Ok (self1, w1) ->
      register b self1 name f2 p2 = Ok (self1, [])) /\
  (forall c1 c2 self1 w1,
      register_actor b self name c1 = Ok (self1, w1) ->
      register_actor b self1 name c2 = Ok (self1, [actor_warning name c2])).
Proof.
  split; intros.
  - eapply register_again, register_registers; eauto.
  - eapply register_actor_again, register_actor_registers; eauto.
Qed.

Lemma reregistration_is_noop_witness :
  register MPISystem tables_fA "f" (Callable "g") None = Ok (tables_fA, []) /\
  register_actor MPISystem tables_fA "A" (PyClass "B")
  = Ok (tables_fA, [actor_warning "A" (PyClass "B")]).
Proof.
  split.
  - apply (proj1 (reregistration_is_noop MPISystem tables_fA "f")).
    eexists. vm_compute. reflexivity.
  - apply (proj2 (reregistration_is_noop MPISystem tables_fA "A")).
    eexists. vm_compute. reflexivity.
Defined.

(** C7 as stated fails: the second [register] of a name is a no-op,
    but it emits no warning. *)
Lemma register_twice_emits_no_warning :
  let t1 := Tables {["f" := PlainFunction (Callable "f")]} ∅ in
  register SerialSystem (Tables ∅ ∅) "f" (Callable "f") None = Ok (t1, []) /\
  register SerialSystem t1 "f" (Callable "g") None = Ok (t1, []) /\
  ~ (exists w, register SerialSystem t1 "f" (Callable "g") None = Ok (t1, w)
               /\ w <> []).
Proof.
  assert (H2 : register SerialSystem
                 (Tables {["f" := PlainFunction (Callable "f")]} ∅)
                 "f" (Callable "g") None
               = Ok (Tables {["f" := PlainFunction (Callable "f")]} ∅, [])).
  { apply register_again. cbn. rewrite lookup_singleton_eq. eauto. }
  cbv zeta. split; [|split].
  - unfold register. cbn. reflexivity.
  - exact H2.
  - intros (w & Hw & Hne). rewrite H2 in Hw. congruence.
Qed.

(** *** Placement by resource tag *)

(** [_node_key] answers with a key that mentions "node", hence never
    with the option name "resources". *)
Lemma _node_key_not_resources (n : node) (key : string) :
  _node_key n = Ok key -> key <> "resources".
Proof.
  unfold _node_key.
  destruct (List.filter _ _) as [|k l] eqn:E; cbn; [discriminate|].
  destruct l; cbn; [|discriminate]. intros [= <-].
  assert (Hin : In k (List.filter (fun key => str_contains "node" key)
                                  (map_to_list (Resources n)).*1)).
  { rewrite E. now left. }
  apply filter_In in Hin as [_ Hk]. intros ->. vm_compute in Hk. discriminate.
Qed.

(** What [call] hands to the scheduler for a given device. *)
Lemma call_device_inv self name args kwargs d options t :
  call self name args kwargs (Some d) options = Ok t ->
  exists n key f,
    _device_to_node self !! d = Some n /\ _node_key n = Ok key /\
    _remote_functions (ray_tables self) !! name = Some f /\
    t = Task f (<["resources" := OptResources {[key := placement_amount]}]> options)
             args kwargs.
Proof.
  unfold call, getitem.
  destruct (_device_to_node self !! d) as [n|]; cbn; [|discriminate].
  destruct (_node_key n) as [key|] eqn:Hk; cbn; [|discriminate].
  destruct (if contains "resources" options then _ else _) as [[]|]; cbn;
    [|discriminate].
  destruct (_remote_functions _ !! name) as [f|]; cbn; [|discriminate].
  intros [= <-]. exists n, key, f. auto.
Qed.

(** The collision check looks for the node key among the option
    names, never inside the resource requests: a call whose only
    option is a resource dictionary is dispatched whatever that
    dictionary requests, the node's own key included. *)
Lemma call_ignores_resource_keys self name args kwargs d n key f r :
  _device_to_node self !! d = Some n ->
  _node_key n = Ok key ->
  _remote_functions (ray_tables self) !! name = Some f ->
  call self name args kwargs (Some d) {["resources" := OptResources r]}
  = Ok (Task f {["resources" := OptResources {[key := placement_amount]}]}
             args kwargs).
Proof.
  intros Hd Hk Hf. unfold call, getitem. rewrite Hd. cbn. rewrite Hk. cbn.
  assert (Hres : contains "resources"
                   ({["resources" := OptResources r]} : gmap string optval)
                 = true).
  { apply contains_true. rewrite lookup_singleton_eq. eauto. }
  assert (Hkey : contains key
                   ({["resources" := OptResources r]} : gmap string optval)
                 = false).
  { apply contains_false. apply lookup_singleton_ne.
    intros <-. now apply _node_key_not_resources in Hk. }
  rewrite Hres, Hkey. cbn. rewrite Hf. cbn.
  now rewrite insert_singleton_eq.
Qed.

Lemma node0_key : _node_key node0 = Ok "node:10.0.0.1".
Proof. vm_compute. reflexivity. Qed.

(** C8, on the code: the caller already requests the target node's
    own resource key, and the call is dispatched all the same, with
    the caller's request overwritten. *)
Theorem call_dispatches_despite_collision :
  call ray0 "identity" [PyInt 7] ∅ (Some dev0)
       {["resources" := OptResources {["node:10.0.0.1" := Float64.of_Z 1]}]}
  = Ok (Task identity_remote
             {["resources" :=
                 OptResources {["node:10.0.0.1" := placement_amount]}]}
             [PyInt 7] ∅).
Proof.
  apply call_ignores_resource_keys with (n := node0).
  - exact (lookup_singleton_eq dev0 node0).
  - exact node0_key.
  - exact (lookup_singleton_eq "identity" identity_remote).
Qed.

(** A call pinned to a known device of a registered function is
    dispatched when the collision check passes, with "resources"
    replaced. *)
Lemma call_device_dispatches self name args kwargs d options n key f :
  _device_to_node self !! d = Some n ->
  _node_key n = Ok key ->
  _remote_functions (ray_tables self) !! name = Some f ->
  (contains "resources" options = true -> contains key options = false) ->
  call self name args kwargs (Some d) options
  = Ok (Task f (<["resources" := OptResources {[key := placement_amount]}]>
                  options) args kwargs).
Proof.
  intros Hd Hk Hf Hcheck. unfold call, getitem. rewrite Hd. cbn.
  rewrite Hk. cbn.
  destruct (contains "resources" options).
  - rewrite (Hcheck eq_refl). cbn. now rewrite Hf.
  - cbn. now rewrite Hf.
Qed.

(** C9, as the code has it: a call pinned to a known device whose
    collision check passes is dispatched, and the options dispatched
    are the caller's with the entry "resources" replaced by the single
    request of the node's key: every other entry is kept, and whatever
    the caller had under "resources" is dropped. *)
Theorem call_replaces_resources self name args kwargs d options n key f :
  _device_to_node self !! d = Some n ->
  _node_key n = Ok key ->
  _remote_functions (ray_tables self) !! name = Some f ->
  (contains "resources" options = true -> contains key options = false) ->
  exists t,
    call self name args kwargs (Some d) options = Ok t /\
    task_function t = f /\ task_args t = args /\ task_kwargs t = kwargs /\
    task_options t
    = <["resources" := OptResources {[key := placement_amount]}]> options /\
    task_options t !! "resources"
    = Some (OptResources {[key := placement_amount]}) /\
    (forall k, k <> "resources" -> task_options t !! k = options !! k).
Proof.
  intros Hd Hk Hf Hcheck. eexists. split.
  - now apply (call_device_dispatches self name args kwargs d options n key f).
  - cbn. repeat split.
    + apply lookup_insert_eq.
    + intros k Hne. now apply lookup_insert_ne.
Qed.

Lemma call_gpu :
  call ray0 "identity" [] ∅ (Some dev0) options_gpu
  = Ok (Task identity_remote
             (<["resources" :=
                  OptResources {["node:10.0.0.1" := placement_amount]}]>
                options_gpu) [] ∅).
Proof.
  apply call_device_dispatches with (n := node0).
  - exact (lookup_singleton_eq dev0 node0).
  - exact node0_key.
  - exact (lookup_singleton_eq "identity" identity_remote).
  - intros _. vm_compute. reflexivity.
Qed.

Lemma call_replaces_resources_witness :
  exists t,
    call ray0 "identity" [] ∅ (Some dev0) options_gpu = Ok t /\
    task_function t = identity_remote /\ task_args t = [] /\
    task_kwargs t = ∅ /\
    task_options t
    = <["resources" := OptResources {["node:10.0.0.1" := placement_amount]}]>
        options_gpu /\
    task_options t !! "resources"
    = Some (OptResources {["node:10.0.0.1" := placement_amount]}) /\
    (forall k, k <> "resources" -> task_options t !! k = options_gpu !! k).
Proof.
  apply (call_replaces_resources ray0 "identity" [] ∅ dev0 options_gpu
           node0 "node:10.0.0.1" identity_remote).
  - exact (lookup_singleton_eq dev0 node0).
  - vm_compute. reflexivity.
  - exact (lookup_singleton_eq "identity" identity_remote).
  - intros _. vm_compute. reflexivity.
Defined.

(** C9 as stated fails: the caller's request of "GPU" is not among
    the resources dispatched, only the node's key is; the option
    "num_returns" is kept. *)
Lemma call_drops_caller_resources :
  exists t r,
    call ray0 "identity" [] ∅ (Some dev0) options_gpu = Ok t /\
    options_gpu !! "resources"
    = Some (OptResources {["GPU" := Float64.of_Z 1]}) /\
    task_options t !! "resources" = Some (OptResources r) /\
    r !! "GPU" = None /\
    r !! "node:10.0.0.1" = Some placement_amount /\
    task_options t !! "num_returns" = Some (OptValue (PyInt 2)).
Proof.
  eexists _, _. split; [exact call_gpu|]. cbn [task_options].
  split; [reflexivity|]. split; [apply lookup_insert_eq|].
  repeat split; reflexivity.
Qed.

(** C10: without a device the options reach the scheduler as the
    caller gave them: no entry is added or changed, "resources"
    included; the call is dispatched whenever the function is
    registered. *)
Theorem call_without_device self name args kwargs options :
  (forall t, call self name args kwargs None options = Ok t ->
             task_options t = options /\
             task_args t = args /\ task_kwargs t = kwargs) /\
  (forall f, _remote_functions (ray_tables self) !! name = Some f ->
             call self name args kwargs None options
             = Ok (Task f options args kwargs)).
Proof.
  unfold call, getitem; cbn. split.
  - intros t. destruct (_ !! name); cbn; [|discriminate].
    intros [= <-]. auto.
  - intros f ->. reflexivity.
Qed.

Lemma call_without_device_witness :
  call ray0 "identity" [PyInt 7] ∅ None options_gpu
  = Ok (Task identity_remote options_gpu [PyInt 7] ∅) /\
  task_options (Task identity_remote options_gpu [PyInt 7] ∅) = options_gpu.
Proof.
  pose proof (call_without_device ray0 "identity" [PyInt 7] ∅ options_gpu)
    as [Hinv Hrun].
  assert (Hcall : call ray0 "identity" [PyInt 7] ∅ None options_gpu
                  = Ok (Task identity_remote options_gpu [PyInt 7] ∅)).
  { apply Hrun. vm_compute. reflexivity. }
  split; [exact Hcall|]. exact (proj1 (Hinv _ Hcall)).
Defined.

End SystemsFacts.

(** ** Further properties of the block kernel *)

Section SelectionFacts.
Import Py Numpy Routines Kernel Notions Sample.

(** *** Partitions around a pivot *)

Lemma ops_keys {A} `{Compare A} (op : string) :
  contains op (ops (A := A)) = true <->
  In op ["gt"; "lt"; "ge"; "le"; "eq"; "ne"].
Proof.
  rewrite contains_true. unfold ops. split.
  - intros [f Hf]. apply elem_of_list_to_map_2 in Hf.
    apply list_elem_of_In in Hf. cbn in Hf. cbn.
    destruct Hf as [[= <- _]|[[= <- _]|[[= <- _]|[[= <- _]|[[= <- _]|
                   [[= <- _]|[]]]]]]]; auto 10.
  - cbn. intros [<-|[<-|[<-|[<-|[<-|[<-|[]]]]]]]; eexists; reflexivity.
Qed.

(** X13: [pivot_partition] returns exactly when the block has no
    element or the operator is one of the six names; on a block with
    elements any other operator raises [AssertionError], on a block
    without elements the operator is not looked at. *)
Theorem pivot_partition_returns_iff {A} `{Compare A} (arr : ndarray A)
    (pivot : A) (op : string) :
  ((exists r, pivot_partition arr pivot op = Ok r) <->
   size arr = 0%nat \/ In op ["gt"; "lt"; "ge"; "le"; "eq"; "ne"]) /\
  (forall e, pivot_partition arr pivot op = Raise e -> e = AssertionError).
Proof.
  unfold pivot_partition. destruct (size arr =? 0)%nat eqn:Esz.
  - apply Nat.eqb_eq in Esz. split; [|discriminate].
    split; [auto|]. intros _. eauto.
  - apply Nat.eqb_neq in Esz.
    destruct (contains op ops) eqn:Ec.
    + pose proof (proj1 (ops_keys op) Ec) as Hin.
      apply contains_true in Ec as [f Hf]. cbn [assert mbind result_bind].
      unfold Py.getitem. rewrite Hf. cbn [mbind result_bind].
      unfold getitem_mask, compare_scalar. cbn [shape].
      rewrite decide_True by reflexivity. cbn [mbind result_bind].
      split; [|discriminate]. split; [auto|]. intros _. eauto.
    + cbn [assert mbind result_bind]. split; [|now intros e [= <-]]. split.
      * intros [r [=]].
      * intros [?|Hin]; [contradiction|].
        apply ops_keys in Hin. congruence.
Qed.

Lemma pivot_partition_data (arr : ndarray Z) (pivot : Z) (op : string) :
  well_formed arr ->
  In op ["gt"; "lt"; "ge"; "le"; "eq"; "ne"] ->
  exists filtered,
    pivot_partition arr pivot op = Ok (length (data filtered), filtered) /\
    data filtered
    = List.filter (fun e => bool_decide (holds op e pivot)) (data arr).
Proof.
  intros Hwf Hop. unfold pivot_partition.
  destruct (size arr =? 0)%nat eqn:Esz.
  - apply Nat.eqb_eq in Esz. unfold well_formed in Hwf. rewrite Esz in Hwf.
    apply length_zero_iff_nil in Hwf.
    exists arr. rewrite Hwf. cbn. auto.
  - destruct (ops_lookup op Hop) as (f & Hf & Hholds).
    assert (Hc : contains op (ops (A := Z)) = true).
    { apply contains_true. rewrite Hf. eauto. }
    rewrite Hc. cbn [assert mbind result_bind]. unfold Py.getitem. rewrite Hf.
    cbn [mbind result_bind]. unfold getitem_mask, compare_scalar.
    cbn [shape data]. rewrite decide_True by reflexivity.
    cbn [mbind result_bind]. rewrite mask_filter.
    set (d := List.filter (fun x => f x pivot) (data arr)).
    exists (Array [length d] d). cbn [data]. split.
    + unfold size. cbn. now rewrite Nat.mul_1_r.
    + unfold d. apply List.filter_ext. intros e.
      apply eq_true_iff_eq. rewrite bool_decide_eq_true. apply Hholds.
Qed.

Lemma three_way_split (pivot : Z) (l : list Z) :
  Permutation
    (List.filter (fun e => bool_decide (holds "lt" e pivot)) l ++
     List.filter (fun e => bool_decide (holds "eq" e pivot)) l ++
     List.filter (fun e => bool_decide (holds "gt" e pivot)) l) l.
Proof.
  induction l as [|x l IH]; [reflexivity|]. cbn [List.filter].
  assert (Hlt : bool_decide (holds "lt" x pivot) = bool_decide (x < pivot)).
  { apply bool_decide_ext. unfold holds. split.
    - intros [[? ?]|[[_ ?]|[[? ?]|[[? ?]|[[? ?]|[? ?]]]]]]; done.
    - auto. }
  assert (Heq : bool_decide (holds "eq" x pivot) = bool_decide (x = pivot)).
  { apply bool_decide_ext. unfold holds. split.
    - intros [[? ?]|[[? ?]|[[? ?]|[[? ?]|[[_ ?]|[? ?]]]]]]; done.
    - auto 10. }
  assert (Hgt : bool_decide (holds "gt" x pivot) = bool_decide (x > pivot)).
  { apply bool_decide_ext. unfold holds. split.
    - intros [[_ ?]|[[? ?]|[[? ?]|[[? ?]|[[? ?]|[? ?]]]]]]; done.
    - auto. }
  rewrite Hlt, Heq, Hgt.
  destruct (Z.lt_total x pivot) as [Hc|[Hc|Hc]].
  - rewrite (bool_decide_eq_true_2 (x < pivot)) by lia.
    rewrite (bool_decide_eq_false_2 (x = pivot)) by lia.
    rewrite (bool_decide_eq_false_2 (x > pivot)) by lia.
    cbn. now constructor.
  - rewrite (bool_decide_eq_false_2 (x < pivot)) by lia.
    rewrite (bool_decide_eq_true_2 (x = pivot)) by lia.
    rewrite (bool_decide_eq_false_2 (x > pivot)) by lia.
    cbv iota. rewrite <- app_comm_cons, <- Permutation_middle.
    now constructor.
  - rewrite (bool_decide_eq_false_2 (x < pivot)) by lia.
    rewrite (bool_decide_eq_false_2 (x = pivot)) by lia.
    rewrite (bool_decide_eq_true_2 (x > pivot)) by lia.
    cbv iota. rewrite app_assoc, <- Permutation_middle, <- app_assoc.
    now constructor.
Qed.

(** X14: the three partitions of an integer block by "lt", "eq" and
    "gt" around one pivot split the block: taken together they hold
    the elements of the block, each as often as the block does, and
    the three counts add up to the size of the block. *)
Theorem pivot_partition_three_way (arr : ndarray Z) (pivot : Z) :
  well_formed arr ->
  exists n_lt a_lt n_eq a_eq n_gt a_gt,
    pivot_partition arr pivot "lt" = Ok (n_lt, a_lt) /\
    pivot_partition arr pivot "eq" = Ok (n_eq, a_eq) /\
    pivot_partition arr pivot "gt" = Ok (n_gt, a_gt) /\
    Permutation (data a_lt ++ data a_eq ++ data a_gt) (data arr) /\
    (n_lt + n_eq + n_gt)%nat = size arr.
Proof.
  intros Hwf.
  destruct (pivot_partition_data arr pivot "lt" Hwf) as (a1 & H1 & D1);
    [cbn; auto|].
  destruct (pivot_partition_data arr pivot "eq" Hwf) as (a2 & H2 & D2);
    [cbn; auto 10|].
  destruct (pivot_partition_data arr pivot "gt" Hwf) as (a3 & H3 & D3);
    [cbn; auto|].
  exists (length (data a1)), a1, (length (data a2)), a2, (length (data a3)), a3.
  assert (HP : Permutation (data a1 ++ data a2 ++ data a3) (data arr)).
  { rewrite D1, D2, D3. apply three_way_split. }
  repeat (split; [assumption|]).
  apply Permutation_length in HP. rewrite !length_app in HP.
  unfold well_formed in Hwf. lia.
Qed.

Lemma pivot_partition_three_way_witness :
  exists n_lt a_lt n_eq a_eq n_gt a_gt,
    pivot_partition vector_pi 3 "lt" = Ok (n_lt, a_lt) /\
    pivot_partition vector_pi 3 "eq" = Ok (n_eq, a_eq) /\
    pivot_partition vector_pi 3 "gt" = Ok (n_gt, a_gt) /\
    Permutation (data a_lt ++ data a_eq ++ data a_gt) (data vector_pi) /\
    (n_lt + n_eq + n_gt)%nat = size vector_pi.
Proof. apply (pivot_partition_three_way vector_pi 3). reflexivity. Defined.

(** *** Optima over the blocks of a vector *)

Lemma arg_op_blocks_min (blocks : list (list Z)) (pre : list Z)
    (s i0 m0 : Z) :
  Forall (fun arr => arr <> []) blocks ->
  s <= i0 -> pre !! Z.to_nat (i0 - s) = Some m0 ->
  (forall x, In x pre -> m0 <= x) ->
  exists i m,
    arg_op_blocks "argmin" blocks (s + Z.of_nat (length pre))
      (Some i0, Some m0) = Ok (Some i, Some m) /\
    s <= i /\ (pre ++ concat blocks) !! Z.to_nat (i - s) = Some m /\
    forall x, In x (pre ++ concat blocks) -> m <= x.
Proof.
  intros Hne. revert pre i0 m0.
  induction Hne as [|arr blocks Harr Hne IH]; intros pre i0 m0 Hi0 Hl Hmin.
  - exists i0, m0. cbn. rewrite app_nil_r. auto.
  - cbn [arg_op_blocks concat fst snd].
    destruct (arg_op_argmin arr Harr) as (j & mj & (Hj & Hjmin & _) & Hop).
    rewrite Hop. cbn [mbind result_bind].
    replace (s + Z.of_nat (length pre) + Z.of_nat (length arr))
      with (s + Z.of_nat (length (pre ++ arr)))
      by (rewrite length_app; lia).
    rewrite app_assoc.
    destruct (m0 <? mj) eqn:Ec; cbn [fst snd].
    + apply Z.ltb_lt in Ec. apply IH; [exact Hi0| |].
      * apply lookup_app_l_Some. exact Hl.
      * intros x Hx. apply in_app_or in Hx as [Hx|Hx]; [auto|].
        specialize (Hjmin x Hx). lia.
    + apply Z.ltb_ge in Ec. apply IH; [lia| |].
      * replace (Z.to_nat (s + Z.of_nat (length pre) + Z.of_nat j - s))
          with (length pre + j)%nat by lia.
        rewrite lookup_app_r by lia.
        now replace (length pre + j - length pre)%nat with j by lia.
      * intros x Hx. apply in_app_or in Hx as [Hx|Hx]; [|auto].
        specialize (Hmin x Hx). lia.
Qed.

Lemma arg_op_blocks_max (blocks : list (list Z)) (pre : list Z)
    (s i0 m0 : Z) :
  Forall (fun arr => arr <> []) blocks ->
  s <= i0 -> pre !! Z.to_nat (i0 - s) = Some m0 ->
  (forall x, In x pre -> x <= m0) ->
  exists i m,
    arg_op_blocks "argmax" blocks (s + Z.of_nat (length pre))
      (Some i0, Some m0) = Ok (Some i, Some m) /\
    s <= i /\ (pre ++ concat blocks) !! Z.to_nat (i - s) = Some m /\
    forall x, In x (pre ++ concat blocks) -> x <= m.
Proof.
  intros Hne. revert pre i0 m0.
  induction Hne as [|arr blocks Harr Hne IH]; intros pre i0 m0 Hi0 Hl Hmax.
  - exists i0, m0. cbn. rewrite app_nil_r. auto.
  - cbn [arg_op_blocks concat fst snd].
    destruct (arg_op_argmax arr Harr) as (j & mj & (Hj & Hjmax & _) & Hop).
    rewrite Hop. cbn [mbind result_bind].
    replace (s + Z.of_nat (length pre) + Z.of_nat (length arr))
      with (s + Z.of_nat (length (pre ++ arr)))
      by (rewrite length_app; lia).
    rewrite app_assoc.
    destruct (mj <? m0) eqn:Ec; cbn [fst snd].
    + apply Z.ltb_lt in Ec. apply IH; [exact Hi0| |].
      * apply lookup_app_l_Some. exact Hl.
      * intros x Hx. apply in_app_or in Hx as [Hx|Hx]; [auto|].
        specialize (Hjmax x Hx). lia.
    + apply Z.ltb_ge in Ec. apply IH; [lia| |].
      * replace (Z.to_nat (s + Z.of_nat (length pre) + Z.of_nat j - s))
          with (length pre + j)%nat by lia.
        rewrite lookup_app_r by lia.
        now replace (length pre + j - length pre)%nat with j by lia.
      * intros x Hx. apply in_app_or in Hx as [Hx|Hx]; [|auto].
        specialize (Hmax x Hx). lia.
Qed.

(** X15: when a vector of integers is cut into blocks, none of them
    empty, and [arg_op] is run over the blocks in order, each call
    given the slice of its block and what the call before returned,
    the last call returns an optimum of the whole vector and a
    position, counted from the start of the first slice, at which the
    vector holds it. *)
Theorem arg_op_blocks_optimum (arr : list Z) (blocks : list (list Z))
    (s : Z) :
  arr <> [] -> Forall (fun b => b <> []) blocks ->
  (exists i m,
      arg_op_blocks "argmin" (arr :: blocks) s (None, None)
      = Ok (Some i, Some m) /\
      s <= i /\ concat (arr :: blocks) !! Z.to_nat (i - s) = Some m /\
      forall x, In x (concat (arr :: blocks)) -> m <= x) /\
  (exists i m,
      arg_op_blocks "argmax" (arr :: blocks) s (None, None)
      = Ok (Some i, Some m) /\
      s <= i /\ concat (arr :: blocks) !! Z.to_nat (i - s) = Some m /\
      forall x, In x (concat (arr :: blocks)) -> x <= m).
Proof.
  intros Harr Hne. split.
  - destruct (arg_op_argmin arr Harr) as (j & mj & (Hj & Hjmin & _) & Hop).
    cbn [arg_op_blocks concat fst snd]. rewrite Hop. cbn [mbind result_bind fst snd].
    apply arg_op_blocks_min; [exact Hne|lia| |exact Hjmin].
    now replace (Z.to_nat (s + Z.of_nat j - s)) with j by lia.
  - destruct (arg_op_argmax arr Harr) as (j & mj & (Hj & Hjmax & _) & Hop).
    cbn [arg_op_blocks concat fst snd]. rewrite Hop. cbn [mbind result_bind fst snd].
    apply arg_op_blocks_max; [exact Hne|lia| |exact Hjmax].
    now replace (Z.to_nat (s + Z.of_nat j - s)) with j by lia.
Qed.

Lemma arg_op_blocks_optimum_witness :
  (exists i m,
      arg_op_blocks "argmin" ([3; 1] :: [[4; 1; 5]]) 10 (None, None)
      = Ok (Some i, Some m) /\
      10 <= i /\
      concat ([3; 1] :: [[4; 1; 5]]) !! Z.to_nat (i - 10) = Some m /\
      forall x, In x (concat ([3; 1] :: [[4; 1; 5]])) -> m <= x) /\
  (exists i m,
      arg_op_blocks "argmax" ([3; 1] :: [[4; 1; 5]]) 10 (None, None)
      = Ok (Some i, Some m) /\
      10 <= i /\
      concat ([3; 1] :: [[4; 1; 5]]) !! Z.to_nat (i - 10) = Some m /\
      forall x, In x (concat ([3; 1] :: [[4; 1; 5]])) -> x <= m).
Proof.
  apply (arg_op_blocks_optimum [3; 1] [[4; 1; 5]] 10).
  - discriminate.
  - repeat constructor; discriminate.
Defined.

(** *** The median of a block *)

Lemma filter_length_le {X} (P : X -> Prop) `{forall x, Decision (P x)}
    (l : list X) :
  (length (filter P l) <= length l)%nat.
Proof. apply length_filter. Qed.

Lemma filter_nil_Forall {X} (P : X -> Prop) `{forall x, Decision (P x)}
    (l : list X) :
  Forall (fun x => ~ P x) l -> filter P l = [].
Proof.
  induction 1 as [|x l Hx Hl IH]; [reflexivity|].
  now rewrite filter_cons_False.
Qed.

Lemma filter_all_Forall {X} (P : X -> Prop) `{forall x, Decision (P x)}
    (l : list X) :
  Forall P l -> filter P l = l.
Proof.
  induction 1 as [|x l Hx Hl IH]; [reflexivity|].
  rewrite filter_cons_True by assumption. now rewrite IH.
Qed.

Lemma sorted_rank (l : list Z) (k : nat) (v : Z) :
  merge_sort Z.le l !! k = Some v ->
  In v l /\
  (length (filter (fun x => (x < v)%Z) l) <= k)%nat /\
  (k < length (filter (fun x => (x <= v)%Z) l))%nat.
Proof.
  intros Hk.
  assert (HS : StronglySorted Z.le (merge_sort Z.le l))
    by apply (StronglySorted_merge_sort _).
  assert (HP : merge_sort Z.le l ≡ₚ l) by apply merge_sort_Permutation.
  set (srt := merge_sort Z.le l) in *.
  assert (Hsplit : srt = take k srt ++ v :: drop (S k) srt).
  { symmetry. now apply take_drop_middle. }
  assert (Hklen : (k < length srt)%nat) by (now apply lookup_lt_Some in Hk).
  assert (Hlow : Forall (fun x => x <= v) (take k srt)).
  { apply Forall_forall. intros x Hx. rewrite Hsplit in HS.
    apply (StronglySorted_app_1_elem_of _ _ _ _ _ HS Hx). now left. }
  assert (Hhigh : Forall (fun x => v <= x) (drop (S k) srt)).
  { apply Forall_forall. intros x Hx. rewrite Hsplit in HS.
    apply StronglySorted_app_1_r, StronglySorted_cons in HS as [HS _].
    exact (proj1 (Forall_forall _ _) HS x Hx). }
  split; [|split].
  - apply list_elem_of_In. rewrite <- HP. eapply list_elem_of_lookup_2. exact Hk.
  - rewrite <- HP. rewrite Hsplit. rewrite filter_app, filter_cons_False by lia.
    rewrite (filter_nil_Forall _ (drop (S k) srt)).
    + rewrite app_nil_r. etransitivity; [apply length_filter|].
      rewrite length_take. lia.
    + eapply Forall_impl; [exact Hhigh|]. cbn. intros x ?. lia.
  - rewrite <- HP. rewrite Hsplit. rewrite filter_app, filter_cons_True by lia.
    rewrite (filter_all_Forall _ (take k srt)) by exact Hlow.
    rewrite length_app, length_take. cbn. lia.
Qed.

(** X16: on a vector of integers with elements [select_median]
    returns an element of rank [size // 2]: an element of the vector
    such that at most [size // 2] elements are smaller and more than
    [size // 2] elements are not greater. On a vector without
    elements it returns 0, and on a block that is not a vector it
    raises [AssertionError]. *)
Theorem select_median_rank (arr : ndarray Z) :
  well_formed arr ->
  (ndim arr <> 1%nat -> select_median arr = Raise AssertionError) /\
  (ndim arr = 1%nat -> size arr = 0%nat -> select_median arr = Ok 0) /\
  (ndim arr = 1%nat -> size arr <> 0%nat ->
   exists m,
     select_median arr = Ok m /\ In m (data arr) /\
     (length (filter (fun x => (x < m)%Z) (data arr)) <= size arr / 2)%nat /\
     (size arr / 2 < length (filter (fun x => (x <= m)%Z) (data arr)))%nat).
Proof.
  intros Hwf. unfold select_median. split; [|split].
  - intros Hn. apply Nat.eqb_neq in Hn. now rewrite Hn.
  - intros Hn Hs. apply Nat.eqb_eq in Hn, Hs. now rewrite Hn, Hs.
  - intros Hn Hs. apply Nat.eqb_eq in Hn. rewrite Hn. cbn [assert mbind result_bind].
    assert (Hlt : (size arr / 2 < size arr)%nat)
      by (apply Nat.div_lt; lia).
    apply Nat.eqb_neq in Hs. rewrite Hs. unfold partition_at.
    destruct (merge_sort Z.le (data arr) !! (size arr / 2)%nat) as [m|] eqn:Hm.
    + exists m. split; [reflexivity|]. now apply sorted_rank.
    + apply lookup_ge_None in Hm.
      rewrite (Permutation_length (merge_sort_Permutation Z.le (data arr))) in Hm.
      unfold well_formed in Hwf. lia.
Qed.

Lemma select_median_rank_witness :
  exists m,
    select_median vector_pi = Ok m /\ In m (data vector_pi) /\
    (length (filter (fun x => (x < m)%Z) (data vector_pi))
     <= size vector_pi / 2)%nat /\
    (size vector_pi / 2
     < length (filter (fun x => (x <= m)%Z) (data vector_pi)))%nat.
Proof.
  apply (select_median_rank vector_pi).
  - reflexivity.
  - reflexivity.
  - discriminate.
Defined.

End SelectionFacts.

Section ReductionFacts.
Import Py Numpy Storage Routines Kernel Notions Sample.

(** *** Broadcasting between equal shapes *)

Lemma broadcast_rev_diag (r : list nat) : broadcast_rev r r = Ok r.
Proof.
  induction r as [|n r IH]; [reflexivity|].
  cbn [broadcast_rev]. rewrite Nat.eqb_refl. cbn. now rewrite IH.
Qed.

Lemma broadcast_shapes_diag (s : list nat) : broadcast_shapes s s = Ok s.
Proof.
  unfold broadcast_shapes. rewrite broadcast_rev_diag. cbn.
  now rewrite rev_involutive.
Qed.

Lemma unstretched_index (s idx : list nat) :
  Forall2 lt idx s ->
  zip_with (fun r i => if (r =? 1)%nat then 0%nat else i) s idx = idx.
Proof.
  induction 1 as [|i n idx s Hi Hb IH]; [reflexivity|].
  cbn [zip_with]. rewrite IH. f_equal.
  destruct (n =? 1)%nat eqn:E; [|reflexivity].
  apply Nat.eqb_eq in E. lia.
Qed.

Lemma lookup_indices_ravel (s : list nat) (i : nat) (idx : list nat) :
  indices s !! i = Some idx -> ravel s idx = i /\ Forall2 lt idx s.
Proof.
  intros Hi. split.
  - assert (H : map (ravel s) (indices s) !! i = Some (ravel s idx)).
    { change (map (ravel s) (indices s)) with (ravel s <$> indices s).
      now rewrite list_lookup_fmap, Hi. }
    rewrite map_ravel_indices in H. apply lookup_seq in H as [H _]. lia.
  - apply indices_bounded, list_elem_of_In. eapply list_elem_of_lookup_2.
    exact Hi.
Qed.

Lemma broadcast_to_own_shape {A} (a : ndarray A) :
  well_formed a -> broadcast_to a (shape a) = Ok (data a).
Proof.
  intros Hwf. unfold broadcast_to. rewrite Nat.sub_diag.
  change (strip_ones 0 (shape a)) with (shape a).
  rewrite Nat.ltb_irrefl, Nat.sub_diag. cbn [repeat app drop].
  assert (Hall : forallb (fun rt => (rt.1 =? rt.2)%nat || (rt.1 =? 1)%nat)
                   (zip (shape a) (shape a)) = true).
  { induction (shape a) as [|n s IH]; [reflexivity|].
    cbn. now rewrite Nat.eqb_refl. }
  rewrite Hall.
  assert (Hm : mapM (fun idx =>
                 data a !! ravel (shape a)
                   (drop 0
                      (zip_with (fun r i => if (r =? 1)%nat then 0%nat else i)
                                (shape a) idx)))
               (indices (shape a)) = Some (data a)).
  { apply mapM_Some. apply Forall2_same_length_lookup_2.
    - rewrite length_indices. unfold well_formed, size in Hwf. now rewrite Hwf.
    - intros i idx y Hi Hy. apply lookup_indices_ravel in Hi as [Hr Hb].
      cbn beta. now rewrite drop_0, unstretched_index, Hr. }
  now rewrite Hm.
Qed.

Lemma binary_same_shape {A} (f : A -> A -> A) (a1 a2 : ndarray A) :
  well_formed a1 -> well_formed a2 -> shape a1 = shape a2 ->
  binary f a1 a2
  = Ok (Array (shape a1) (zip_with f (data a1) (data a2))).
Proof.
  intros H1 H2 Hs. unfold binary. rewrite <- Hs, broadcast_shapes_diag.
  cbn [mbind result_bind]. rewrite (broadcast_to_own_shape a1 H1).
  cbn [mbind result_bind]. rewrite Hs, (broadcast_to_own_shape a2 H2).
  reflexivity.
Qed.

(** *** Reductions over stacked blocks *)

Lemma nth_concat_blocks {X} (ls : list (list X)) (p j r : nat) (d : X) :
  Forall (fun l => length l = p) ls -> (r < p)%nat ->
  nth (j * p + r) (concat ls) d = nth r (nth j ls []) d.
Proof.
  intros Hls Hr. revert j. induction Hls as [|l ls Hl Hls IH]; intros j.
  - cbn [concat]. rewrite (nth_overflow (A := list X)) by (cbn; lia).
    now rewrite !nth_overflow by (cbn; lia).
  - cbn [concat]. destruct j as [|j].
    + cbn [Nat.mul Nat.add nth]. now rewrite app_nth1 by lia.
    + rewrite app_nth2 by lia. cbn [nth].
      replace (S j * p + r - length l)%nat with (j * p + r)%nat by lia.
      apply IH.
Qed.

Lemma map_nth_seq_with {X Y} (f : X -> Y) (l : list X) (d : X) :
  map (fun j => f (nth j l d)) (seq 0 (length l)) = map f l.
Proof.
  rewrite <- (map_map (fun j => nth j l d) f). now rewrite map_nth_seq.
Qed.

Lemma tabulate_by_position {A} `{Dtype A} (s : list nat) (g : nat -> A) :
  tabulate s (fun idx => g (ravel s idx)) = Array s (map g (seq 0 (prod s))).
Proof.
  unfold tabulate. f_equal.
  rewrite <- (map_map (ravel s) g). now rewrite map_ravel_indices.
Qed.

(** The reduction along the new axis of blocks of one shape, stacked:
    position by position, the reduction of what the blocks hold
    there. *)
Lemma stack_reduce {A} `{Dtype A} (r : reducer) (s : list nat)
    (a : ndarray A) (arrs : list (ndarray A)) :
  Forall (fun b => shape b = s /\ well_formed b) (a :: arrs) ->
  (stk ← stack (a :: arrs); reduce r stk (Some 0) false)
  = Ok (Array s (map (fun p => reduce_list r (column (a :: arrs) p))
                     (seq 0 (prod s)))).
Proof.
  intros Hall. pose proof Hall as Hall'.
  apply Forall_cons in Hall' as [[Hs Hwf] Hrest].
  unfold stack.
  assert (Hsh : forallb (fun b => bool_decide (shape b = shape a)) arrs = true).
  { apply forallb_forall. intros b Hb. apply bool_decide_eq_true.
    rewrite Hs. apply list_elem_of_In in Hb.
    exact (proj1 (proj1 (Forall_forall _ _) Hrest b Hb)). }
  rewrite Hsh. cbn [mbind result_bind]. unfold reduce. cbn [ndim shape length].
  replace ((0 <=? 0) && (0 <? Z.of_nat (S (length (shape a))))) with true
    by (symmetry; apply andb_true_iff; split; [reflexivity|apply Z.ltb_lt; lia]).
  cbn [mbind result_bind]. unfold remove_axis.
  change (Z.to_nat 0) with 0%nat.
  cbn [nth firstn skipn app mbind result_bind]. rewrite Hs.
  rewrite <- tabulate_by_position. f_equal. apply tabulate_ext_in.
  intros idx Hb. f_equal. unfold lane, column. cbn [shape nth].
  change (S (length arrs)) with (length (a :: arrs)).
  rewrite <- (map_nth_seq_with (fun b => nth (ravel s idx) (data b) zero)
                (a :: arrs) a).
  apply map_ext_in. intros j Hj. apply in_seq in Hj.
  unfold item, insert_axis. cbn [shape data].
  rewrite take_0, drop_0. cbn [app ravel].
  rewrite (nth_concat_blocks _ (prod s)).
  - f_equal. rewrite (nth_indep _ [] (data a)) by (rewrite length_map; lia).
    apply map_nth.
  - apply Forall_forall. intros l Hl. apply list_elem_of_In in Hl.
    apply in_map_iff in Hl as (b & <- & Hin). apply list_elem_of_In in Hin.
    destruct (proj1 (Forall_forall _ _) Hall b Hin) as [Hsb Hwb].
    unfold well_formed, size in Hwb. now rewrite Hwb, Hsb.
  - now apply ravel_bound.
Qed.

Lemma well_formed_T {A} `{Dtype A} (a : ndarray A) : well_formed (Numpy.T a).
Proof.
  unfold well_formed, size, Numpy.T, tabulate. cbn [data shape].
  now rewrite length_map, length_indices.
Qed.

Lemma well_formed_oriented {A} `{Dtype A} (a : ndarray A) (t : bool) :
  well_formed a -> well_formed (oriented a t).
Proof. destruct t; [intros _; apply well_formed_T|auto]. Qed.

Lemma zip_with_positions {X} (f : X -> X -> X) (z : X) (d1 d2 : list X)
    (n : nat) :
  length d1 = n -> length d2 = n ->
  map (fun p => f (nth p d1 z) (nth p d2 z)) (seq 0 n) = zip_with f d1 d2.
Proof.
  revert d2 n. induction d1 as [|x d1 IH]; intros d2 n H1 H2.
  - cbn in H1. subst n. reflexivity.
  - destruct d2 as [|y d2]; cbn in H1, H2; [congruence|].
    destruct n as [|n]; [discriminate|].
    cbn [seq map nth zip_with]. f_equal.
    rewrite <- seq_shift, map_map. apply IH; congruence.
Qed.

(** X17: [bop_reduce] never broadcasts: when it returns, the two
    operands, transposed as asked, and the result have one shape.
    For the reductions of numpy's namespace, on operands of one
    shape, the result holds at every position what the reduction
    makes of the two elements there; the shortcuts taken for "sum"
    and "prod" agree with the stacked reduction taken for the
    others. *)
Theorem bop_reduce_elementwise {A} `{Dtype A} (op : string)
    (a1 a2 : ndarray A) (a1_T a2_T : bool) :
  (forall r, bop_reduce op a1 a2 a1_T a2_T = Ok r ->
             shape (oriented a1 a1_T) = shape (oriented a2 a2_T) /\
             shape r = shape (oriented a1 a1_T)) /\
  (forall red,
      np_reducer op = Ok red -> well_formed a1 -> well_formed a2 ->
      shape (oriented a1 a1_T) = shape (oriented a2 a2_T) ->
      bop_reduce op a1 a2 a1_T a2_T
      = Ok (Array (shape (oriented a1 a1_T))
                  (zip_with (combine red) (data (oriented a1 a1_T))
                            (data (oriented a2 a2_T))))).
Proof.
  unfold bop_reduce.
  change (if a1_T then Numpy.T a1 else a1) with (oriented a1 a1_T).
  change (if a2_T then Numpy.T a2 else a2) with (oriented a2 a2_T).
  set (b1 := oriented a1 a1_T). set (b2 := oriented a2 a2_T). split.
  - intros r.
    destruct (if decide (op = "sum") then _ else _) as [r0|e];
      cbn [mbind result_bind]; [|discriminate].
    destruct (bool_decide (shape b1 = shape b2 /\ shape b2 = shape r0)) eqn:E;
      cbn [assert mbind result_bind]; [|discriminate].
    apply bool_decide_eq_true in E as [E1 E2]. intros [= <-].
    split; congruence.
  - intros red Hred Hw1 Hw2 Hs.
    assert (Hb1 : well_formed b1) by now apply well_formed_oriented.
    assert (Hb2 : well_formed b2) by now apply well_formed_oriented.
    assert (Hr : (if decide (op = "sum") then binary add b1 b2
                  else if decide (op = "prod") then binary mul b1 b2
                  else reduce_op ← np_reducer op;
                       a ← stack [b1; b2];
                       reduce reduce_op a (Some 0) false)
                 = Ok (Array (shape b1)
                         (zip_with (combine red) (data b1) (data b2)))).
    { unfold np_reducer in Hred.
      destruct (decide (op = "sum")) as [->|Hsum].
      { injection Hred as <-. now apply binary_same_shape. }
      destruct (decide (op = "prod")) as [->|Hprod].
      { injection Hred as <-. now apply binary_same_shape. }
      assert (Hred' : np_reducer op = Ok red).
      { unfold np_reducer. rewrite decide_False by assumption.
        now rewrite decide_False by assumption. }
      rewrite Hred'. cbn [mbind result_bind].
      rewrite (stack_reduce red (shape b1) b1 [b2]).
      - f_equal. f_equal. unfold column. cbn [map reduce_list fold_left].
        apply zip_with_positions; [exact Hb1|].
        unfold well_formed, size in Hb2. now rewrite Hs.
      - repeat constructor; auto. }
    rewrite Hr. cbn [mbind result_bind shape].
    rewrite bool_decide_eq_true_2 by (split; congruence).
    reflexivity.
Qed.

Lemma bop_reduce_elementwise_witness :
  bop_reduce "max" array_2x3 (Array [3; 2]%nat [6; 1; 5; 2; 4; 3]) false true
  = Ok (Array [2; 3]%nat [6; 5; 4; 4; 5; 6]).
Proof.
  apply (proj2 (bop_reduce_elementwise "max" array_2x3
                  (Array [3; 2]%nat [6; 1; 5; 2; 4; 3]) false true)
           (Reducer None Z.max)); reflexivity.
Defined.

(** *** Sums of blocks *)

Lemma wrap64_add_l (a b : Z) : wrap64 (wrap64 a + b) = wrap64 (a + b).
Proof.
  unfold wrap64. f_equal.
  replace ((a + 2 ^ 63) mod 2 ^ 64 - 2 ^ 63 + b + 2 ^ 63)
    with ((a + 2 ^ 63) mod 2 ^ 64 + b) by lia.
  rewrite Zplus_mod_idemp_l. f_equal. lia.
Qed.

Lemma fold_add_wrap (l : list Z) (z : Z) :
  fold_left add l (wrap64 z) = wrap64 (z + zsum l).
Proof.
  revert z. induction l as [|x l IH]; intros z.
  - cbn. now rewrite Z.add_0_r.
  - cbn [fold_left zsum]. change (add (wrap64 z) x) with (wrap64 (wrap64 z + x)).
    rewrite wrap64_add_l, IH. f_equal. lia.
Qed.

Lemma zsum_Permutation (l l' : list Z) : Permutation l l' -> zsum l = zsum l'.
Proof. induction 1; cbn; lia. Qed.

Lemma sum_reduce_value (s : list nat) (a : ndarray Z)
    (arrs : list (ndarray Z)) :
  Forall (fun b => shape b = s /\ well_formed b) (a :: arrs) ->
  sum_reduce (a :: arrs)
  = Ok (IntBlock (Array s (map (fun p => reduce_list sum_reducer
                                           (column (a :: arrs) p))
                               (seq 0 (prod s))))).
Proof.
  intros Hall. pose proof (stack_reduce sum_reducer s a arrs Hall) as Hr.
  unfold sum_reduce. destruct (stack (a :: arrs)) as [stk|e];
    cbn [mbind result_bind] in *; [|discriminate].
  unfold sum_reducer in Hr. now rewrite Hr.
Qed.

(** X18: the sum of two or more integer blocks of one shape holds at
    every position the sum of what the blocks hold there, wrapped to
    64 bits once; hence it does not depend on the order in which the
    blocks are given. *)
Theorem sum_reduce_order_independent (s : list nat) (a1 a2 : ndarray Z)
    (rest arrs' : list (ndarray Z)) :
  Forall (fun b => shape b = s /\ well_formed b) (a1 :: a2 :: rest) ->
  Permutation (a1 :: a2 :: rest) arrs' ->
  sum_reduce (a1 :: a2 :: rest)
  = Ok (IntBlock
          (Array s (map (fun p => wrap64 (zsum (column (a1 :: a2 :: rest) p)))
                        (seq 0 (prod s))))) /\
  sum_reduce arrs' = sum_reduce (a1 :: a2 :: rest).
Proof.
  assert (Hval : forall b1 b2 l,
             Forall (fun b => shape b = s /\ well_formed b) (b1 :: b2 :: l) ->
             sum_reduce (b1 :: b2 :: l)
             = Ok (IntBlock
                     (Array s (map (fun p =>
                                      wrap64 (zsum (column (b1 :: b2 :: l) p)))
                                   (seq 0 (prod s)))))).
  { intros b1 b2 l Hall. rewrite (sum_reduce_value s) by exact Hall.
    do 3 f_equal. apply map_ext. intros p. unfold column, sum_reducer.
    cbn [map reduce_list fold_left combine zsum].
    set (x := nth p (data b1) zero). set (y := nth p (data b2) zero).
    change (add x y) with (wrap64 (x + y)). rewrite fold_add_wrap.
    f_equal. lia. }
  intros Hall HP. split; [now apply Hval|].
  assert (Hall' : Forall (fun b => shape b = s /\ well_formed b) arrs').
  { now rewrite <- HP. }
  destruct arrs' as [|b1 [|b2 l]];
    try (apply Permutation_length in HP; cbn in HP; lia).
  rewrite !Hval by assumption. do 3 f_equal. apply map_ext. intros p.
  f_equal. apply zsum_Permutation. unfold column.
  apply Permutation_map. now symmetry.
Qed.

Lemma sum_reduce_order_independent_witness :
  sum_reduce [array_2x3; Array [2; 3]%nat [2 ^ 63 - 1; 0; 0; 0; 0; 0];
              array_2x3]
  = Ok (IntBlock
          (Array [2; 3]%nat
             (map (fun p =>
                     wrap64 (zsum (column
                       [array_2x3; Array [2; 3]%nat [2 ^ 63 - 1; 0; 0; 0; 0; 0];
                        array_2x3] p)))
                  (seq 0 (prod [2; 3]%nat))))) /\
  sum_reduce [Array [2; 3]%nat [2 ^ 63 - 1; 0; 0; 0; 0; 0]; array_2x3;
              array_2x3]
  = sum_reduce [array_2x3; Array [2; 3]%nat [2 ^ 63 - 1; 0; 0; 0; 0; 0];
                array_2x3].
Proof.
  apply (sum_reduce_order_independent [2; 3]%nat array_2x3
           (Array [2; 3]%nat [2 ^ 63 - 1; 0; 0; 0; 0; 0]) [array_2x3]).
  - repeat constructor.
  - apply perm_swap.
Defined.

End ReductionFacts.

(** ** Further properties of the updates in place *)

Section AllocationFacts.
Import Py Numpy Storage Kernel Notions Sample.
Context {A : Type}.

Lemma only_writes_create_step (result : view) src_arrs src_params dst_params
    dst_shape_bc i :
  only_writes (A := A) (base result)
    (create_step result src_arrs src_params dst_params dst_shape_bc i).
Proof.
  unfold create_step.
  apply only_writes_bind; [apply only_writes_lift|]. intros src.
  apply only_writes_bind; [apply only_writes_lift|]. intros [ssel sT].
  apply only_writes_bind; [apply only_writes_lift|]. intros [dsel dT].
  apply only_writes_bind; [apply only_writes_lift|]. intros g.
  apply only_writes_bind; [apply only_writes_read|]. intros rhs.
  destruct dst_shape_bc as [bc|]; [|apply only_writes_setitem].
  intros h l' Hne. unfold st_bind, lift.
  destruct (reshape result bc) as [r|e] eqn:Er; [|reflexivity].
  apply only_writes_setitem. now rewrite (reshape_base _ _ _ Er).
Qed.

Lemma keeps_buffers_create_step (result : view) src_arrs src_params dst_params
    dst_shape_bc i :
  keeps_buffers (A := A)
    (create_step result src_arrs src_params dst_params dst_shape_bc i).
Proof.
  unfold create_step.
  apply keeps_buffers_bind; [apply keeps_buffers_lift|]. intros src.
  apply keeps_buffers_bind; [apply keeps_buffers_lift|]. intros [ssel sT].
  apply keeps_buffers_bind; [apply keeps_buffers_lift|]. intros [dsel dT].
  apply keeps_buffers_bind; [apply keeps_buffers_lift|]. intros g.
  apply keeps_buffers_bind; [apply keeps_buffers_read|]. intros rhs.
  destruct dst_shape_bc as [bc|]; [|apply keeps_buffers_setitem].
  apply keeps_buffers_bind; [apply keeps_buffers_lift|]. intros r.
  apply keeps_buffers_setitem.
Qed.

Lemma create_block_unfold (garbage : nat -> A) (h : heap A)
    (src_arrs : list view) (src_params dst_params : list (list selector * bool))
    (dst_shape : list nat) (dst_shape_bc : option (list nat)) :
  create_block garbage src_arrs src_params dst_params dst_shape dst_shape_bc h
  = match list_getitem src_arrs 0 with
    | Raise e => (h, Raise e)
    | Ok _ =>
        let result := View (fresh (dom h)) dst_shape (seq 0 (prod dst_shape)) in
        st_bind (lift (assert (length src_params =? length dst_params)%nat))
          (fun _ =>
             st_bind
               (for_each (seq 0 (length src_params))
                  (create_step result src_arrs src_params dst_params
                     dst_shape_bc))
               (fun _ => st_ret result))
          (<[fresh (dom h) := map garbage (seq 0 (prod dst_shape))]> h)
    end.
Proof.
  unfold create_block. unfold st_bind at 1. unfold lift at 1.
  destruct (list_getitem src_arrs 0); reflexivity.
Qed.

(** X20: [create_block] writes no buffer that exists when it is
    called: whatever the sources and parameters, and whether it
    returns or raises, every buffer of the heap, those of the sources
    among them, is as it was; a block returned has the shape asked for
    and lives in a buffer the heap did not have. Without any source it
    raises [IndexError] before anything is allocated, also when there
    is no assignment to make. *)
Theorem create_block_leaves_heap (garbage : nat -> A) (h : heap A)
    (src_arrs : list view) (src_params dst_params : list (list selector * bool))
    (dst_shape : list nat) (dst_shape_bc : option (list nat)) :
  h ⊆ (create_block garbage src_arrs src_params dst_params dst_shape
                    dst_shape_bc h).1 /\
  (forall r,
      (create_block garbage src_arrs src_params dst_params dst_shape
                    dst_shape_bc h).2 = Ok r ->
      h !! base r = None /\ vshape r = dst_shape /\
      is_Some ((create_block garbage src_arrs src_params dst_params dst_shape
                             dst_shape_bc h).1 !! base r)) /\
  create_block garbage [] src_params dst_params dst_shape dst_shape_bc h
  = (h, Raise IndexError).
Proof.
  split; [|split; [|reflexivity]].
  - rewrite create_block_unfold.
    destruct (list_getitem src_arrs 0) as [first|e]; [|reflexivity].
    cbv zeta. set (l := fresh (dom h)).
    eapply (only_writes_outside l); [|apply fresh_None|].
    + apply only_writes_bind; [apply only_writes_lift|]. intros _.
      apply only_writes_bind; [|intros; apply only_writes_ret].
      apply only_writes_for_each. intros i.
      exact (only_writes_create_step (View l dst_shape _) _ _ _ _ i).
    + apply insert_subseteq, fresh_None.
  - intros r. rewrite create_block_unfold.
    destruct (list_getitem src_arrs 0) as [first|e]; [|discriminate].
    cbv zeta. set (l := fresh (dom h)). set (junk := map garbage _).
    set (result := View l dst_shape _).
    set (k := st_bind _ _).
    assert (Hkeep : keeps_buffers k).
    { unfold k.
      apply keeps_buffers_bind; [apply keeps_buffers_lift|]. intros _.
      apply keeps_buffers_bind; [|intros; apply keeps_buffers_ret].
      apply keeps_buffers_for_each. intros i.
      apply keeps_buffers_create_step. }
    assert (Hlive : is_Some ((k (<[l := junk]> h)).1 !! l)).
    { apply Hkeep. rewrite lookup_insert_eq. eauto. }
    assert (Hres : forall r, (k (<[l := junk]> h)).2 = Ok r -> r = result).
    { intros r'. unfold k, st_bind, lift, st_ret.
      destruct (assert _); [|discriminate].
      destruct (for_each _ _ _) as [h3 [[]|]]; [|discriminate].
      now intros [= <-]. }
    intros Hr. apply Hres in Hr. subst r. cbn [base vshape result].
    split; [apply fresh_None|]. split; [reflexivity|exact Hlive].
Qed.

(** X21: [update_block] needs an assignment to make: with empty
    parameter lists it copies the destination and then raises
    [IndexError], where the flag of the first destination parameter
    is read; the heap is left with the copy in a new buffer and is
    otherwise as it was. *)
Theorem update_block_needs_assignment (h : heap A) (dst_arr : view)
    (a : ndarray A) (src_arrs : list view) :
  (read dst_arr h).2 = Ok a ->
  update_block dst_arr src_arrs [] [] h
  = (<[fresh (dom h) := data a]> h, Raise IndexError) /\
  h !! fresh (dom h) = None.
Proof.
  intros Hr. split; [|apply fresh_None].
  unfold update_block. unfold st_bind at 1. unfold lift at 1. cbn [assert length Nat.eqb].
  unfold st_bind at 1. rewrite (copy_run dst_arr h a Hr). reflexivity.
Qed.

End AllocationFacts.

Section AllocationExamples.
Import Py Numpy Storage Kernel Notions Sample.

Lemma update_block_needs_assignment_witness :
  update_block array_a [vector_c] [] [] shared_heap
  = (<[fresh (dom shared_heap) := [1; 2; 3; 4; 5; 6]]> shared_heap,
     Raise IndexError) /\
  shared_heap !! fresh (dom shared_heap) = None.
Proof.
  apply (update_block_needs_assignment shared_heap array_a
           (Array [2; 3]%nat [1; 2; 3; 4; 5; 6]) [vector_c]).
  vm_compute. reflexivity.
Defined.

End AllocationExamples.
(** ** Further properties of the execution backends *)

Section BackendFacts.
Import Py Systems Notions Sample.

(** *** Registration and dispatch in place *)

Lemma register_all_serial (regs : list (string * callable)) (self : tables) :
  exists self',
    register_all SerialSystem self regs = Ok self' /\
    forall name,
      _remote_functions self' !! name
      = match _remote_functions self !! name with
        | Some d => Some d
        | None => (fun r => PlainFunction r.2)
                    <$> List.find (fun r => bool_decide (r.1 = name)) regs
        end.
Proof.
  revert self. induction regs as [|[n f] regs IH]; intros self.
  - exists self. split; [reflexivity|]. intros name.
    now destruct (_ !! name).
  - cbn [register_all]. unfold register.
    destruct (contains n (_remote_functions self)) eqn:E.
    + cbn. destruct (IH self) as (self' & H1 & H2). exists self'.
      split; [exact H1|]. intros name. rewrite H2.
      destruct (_remote_functions self !! name) eqn:El; [reflexivity|].
      cbn [List.find fst]. destruct (bool_decide (n = name)) eqn:Eb;
        [|reflexivity].
      apply bool_decide_eq_true in Eb. subst name.
      apply contains_true in E. rewrite El in E. now destruct E.
    + cbn. apply contains_false in E.
      destruct (IH (Tables (<[n := PlainFunction f]> (_remote_functions self))
                           (_actors self))) as (self' & H1 & H2).
      exists self'. split; [exact H1|]. intros name. rewrite H2.
      cbn [_remote_functions List.find fst snd].
      destruct (decide (n = name)) as [<-|Hne].
      * rewrite lookup_insert_eq, E.
        now rewrite bool_decide_eq_true_2 by reflexivity.
      * rewrite lookup_insert_ne by assumption.
        now rewrite bool_decide_eq_false_2 by assumption.
Qed.

(** X1: on a serial backend that starts empty, whatever functions are
    registered, in whatever order and under whatever names, every
    registration succeeds, and [call] applies to its arguments the
    function that was registered first under the name; a name that was
    never registered raises [KeyError]. *)
Theorem serial_call_applies_first_registered
    (regs : list (string * callable)) :
  exists self,
    register_all SerialSystem (Tables ∅ ∅) regs = Ok self /\
    forall name args kwargs device_id options,
      SerialSystem.call self name args kwargs device_id options
      = match List.find (fun r => bool_decide (r.1 = name)) regs with
        | Some r => Ok (Applied r.2 args kwargs)
        | None => Raise KeyError
        end.
Proof.
  destruct (register_all_serial regs (Tables ∅ ∅)) as (self & H1 & H2).
  exists self. split; [exact H1|]. intros name args kwargs device_id options.
  unfold SerialSystem.call, getitem. rewrite H2. cbn [_remote_functions].
  rewrite lookup_empty. now destruct (List.find _ regs).
Qed.

(** X2: [register] with [remote_params] left to its default [None]
    raises exactly on the cluster backend and for a name that is not
    registered yet, and what it raises there is [TypeError]: the
    serial and the message-passing backend replace [None] by an empty
    dictionary, the cluster backend unpacks it as keywords. *)
Theorem register_default_params_raises (b : backend) (self : tables)
    (name : string) (func : callable) :
  (forall e, register b self name func None = Raise e -> e = TypeError) /\
  (register b self name func None = Raise TypeError <->
   b = RaySystem /\ _remote_functions self !! name = None).
Proof.
  unfold register. destruct (contains name _) eqn:E.
  - split; [discriminate|]. split; [discriminate|].
    intros [_ Hn]. apply contains_false in Hn. congruence.
  - apply contains_false in E. destruct b; cbn.
    + split; [discriminate|]. split; [discriminate|]. now intros [? _].
    + split; [discriminate|]. split; [discriminate|]. now intros [? _].
    + split; [now intros e [= <-]|]. split; auto.
Qed.

(** *** Placement *)

(** X3: [put] on a device returns exactly when the device is known,
    its node has one resource key that mentions "node" and the
    function "identity" is registered; what it returns is the task of
    "identity" on the value alone, whose only option requests the
    node's key. *)
Theorem put_pins_identity (self : ray_system) (value : pyobj)
    (d : DeviceID) (t : remote_task) :
  put self value (Some d) = Ok t <->
  exists n key f,
    _device_to_node self !! d = Some n /\ _node_key n = Ok key /\
    _remote_functions (ray_tables self) !! "identity" = Some f /\
    t = Task f {["resources" := OptResources {[key := placement_amount]}]}
             [value] ∅.
Proof.
  unfold put. split.
  - intros Hc. apply call_device_inv in Hc as (n & key & f & Hd & Hk & Hf & ->).
    exists n, key, f. now rewrite insert_empty.
  - intros (n & key & f & Hd & Hk & Hf & ->).
    rewrite (call_device_dispatches self "identity" [value] ∅ d ∅ n key f
               Hd Hk Hf).
    + now rewrite insert_empty.
    + intros Hc. apply contains_true in Hc. rewrite lookup_empty in Hc.
      now destruct Hc.
Qed.

(** X4: the backend that leaves placement to the scheduler fails on
    the inputs on which the placing backend fails, with the same
    exception, and otherwise hands over the same function and
    arguments, with the options as the caller gave them. *)
Theorem stock_call_restores_options (self : ray_system) (name : string)
    (args : list pyobj) (kwargs : gmap string pyobj)
    (device_id : option DeviceID) (options : gmap string optval) :
  RaySystemStockScheduler.call self name args kwargs device_id options
  = (t ← call self name args kwargs device_id options;
     Ok (Task (task_function t) options (task_args t) (task_kwargs t))).
Proof.
  unfold RaySystemStockScheduler.call, call.
  destruct device_id as [d|]; cbn.
  - destruct (getitem (_device_to_node self) d) as [n|e]; cbn; [|reflexivity].
    destruct (_node_key n) as [key|e]; cbn; [|reflexivity].
    destruct (contains "resources" options); cbn.
    + destruct (assert _) as [[]|e]; cbn; [|reflexivity].
      now destruct (getitem _ name).
    + now destruct (getitem _ name).
  - now destruct (getitem _ name).
Qed.

Lemma make_actor_device (self : ray_system) name args d kwargs k :
  (make_actor (advance self k) name args (Some d) kwargs).2
  = (make_actor self name args (Some d) kwargs).2.
Proof. reflexivity. Qed.

Lemma advance_advance (self : ray_system) (j k : nat) :
  advance (advance self j) k = advance self (j + k).
Proof.
  unfold advance. cbn. f_equal.
  now rewrite Nat.Div0.add_mod_idemp_l, Nat.add_assoc.
Qed.

Lemma make_actor_next (self : ray_system) name args kwargs d :
  _devices self !! _actor_node_index self = Some d ->
  make_actor self name args None kwargs
  = (advance self 1, (make_actor self name args (Some d) kwargs).2).
Proof. intros Hd. unfold make_actor, list_getitem. now rewrite Hd. Qed.

(** X5: [make_actor] without a device goes round the devices: from a
    position inside the list of devices, the [j]-th of [k] successive
    calls does what [make_actor] does for the device [j] places
    further on, counting round the list, and after the [k] calls the
    position has moved on by [k], counting round the list; nothing
    else of the object changes. *)
Theorem make_actor_round_robin (k : nat) (self : ray_system) (name : string)
    (args : list pyobj) (kwargs : gmap string pyobj) :
  (_actor_node_index self < length (_devices self))%nat ->
  (make_actors k self name args kwargs).1 = advance self k /\
  length (make_actors k self name args kwargs).2 = k /\
  forall j, (j < k)%nat ->
    exists d,
      _devices self
        !! ((_actor_node_index self + j) mod length (_devices self))%nat
      = Some d /\
      (make_actors k self name args kwargs).2 !! j
      = Some (make_actor self name args (Some d) kwargs).2.
Proof.
  revert self. induction k as [|k IH]; intros self Hlt.
  - cbn. split; [|split; [reflexivity|intros j Hj; lia]].
    unfold advance. destruct self as [t ds m i]. cbn in *. f_equal.
    rewrite Nat.add_0_r. symmetry. now apply Nat.mod_small.
  - destruct (lookup_lt_is_Some_2 _ _ Hlt) as [d0 Hd0].
    cbn [make_actors]. rewrite (make_actor_next self name args kwargs d0 Hd0).
    cbn [fst snd].
    assert (Hlt' : (_actor_node_index (advance self 1)
                    < length (_devices (advance self 1)))%nat).
    { cbn. apply Nat.mod_upper_bound. lia. }
    destruct (IH (advance self 1) Hlt') as (H1 & H2 & H3).
    split; [|split].
    + rewrite H1. apply advance_advance.
    + cbn. now rewrite H2.
    + intros [|j] Hj.
      * exists d0. rewrite Nat.add_0_r, Nat.mod_small by assumption.
        split; [exact Hd0|reflexivity].
      * destruct (H3 j ltac:(lia)) as (d & Hd & Hj').
        exists d. split.
        -- cbn in Hd. rewrite Nat.Div0.add_mod_idemp_l in Hd.
           now replace (_actor_node_index self + S j)%nat
             with (_actor_node_index self + 1 + j)%nat by lia.
        -- rewrite lookup_cons. rewrite Hj'. reflexivity.
Qed.

Lemma make_actor_round_robin_witness :
  (make_actors 3 ray2 "A" [] ∅).1 = advance ray2 3 /\
  length (make_actors 3 ray2 "A" [] ∅).2 = 3%nat /\
  forall j, (j < 3)%nat ->
    exists d,
      _devices ray2
        !! ((_actor_node_index ray2 + j) mod length (_devices ray2))%nat
      = Some d /\
      (make_actors 3 ray2 "A" [] ∅).2 !! j
      = Some (make_actor ray2 "A" [] (Some d) ∅).2.
Proof.
  apply (make_actor_round_robin 3 ray2 "A" [] ∅). cbn. lia.
Defined.

(** X6: a call of [make_actor] that names no device moves the
    round-robin position on before it looks the actor up: for a name
    that is not registered it raises [KeyError] and leaves the
    position moved; without any device it raises [IndexError] and
    leaves the object as it was. *)
Theorem make_actor_failure_moves_position (self : ray_system) (name : string)
    (args : list pyobj) (kwargs : gmap string pyobj) :
  _actors (ray_tables self) !! name = None ->
  ((_actor_node_index self < length (_devices self))%nat ->
   make_actor self name args None kwargs = (advance self 1, Raise KeyError)) /\
  ((length (_devices self) <= _actor_node_index self)%nat ->
   make_actor self name args None kwargs = (self, Raise IndexError)).
Proof.
  intros Hn. split; intros Hlt.
  - destruct (lookup_lt_is_Some_2 _ _ Hlt) as [d Hd].
    rewrite (make_actor_next self name args kwargs d Hd). f_equal.
    unfold make_actor, getitem. cbn. now rewrite Hn.
  - unfold make_actor, list_getitem.
    now rewrite (lookup_ge_None_2 _ _ Hlt).
Qed.

Lemma make_actor_failure_moves_position_witness :
  (make_actor ray2 "B" [] None ∅ = (advance ray2 1, Raise KeyError)) /\
  _actor_node_index (advance ray2 1) = 0%nat /\
  _actor_node_index ray2 = 1%nat.
Proof.
  split; [|split; reflexivity].
  apply (make_actor_failure_moves_position ray2 "B" [] ∅).
  - reflexivity.
  - cbn. lia.
Defined.


(** *** Discovery *)

Lemma init_loop_inv (head_ip : string) (nodes : list node)
    (self self' : ray_cluster) :
  init_loop head_ip nodes self = Ok self' ->
  _use_head self' = _use_head self /\ _num_nodes self' = _num_nodes self /\
  system self' = system self /\
  (exists extra,
      _available_nodes self' = _available_nodes self ++ extra /\
      Forall (fun n => In n nodes /\ _has_cpu_resources n = true /\
                       exists ip, _node_ip n = Ok ip /\ ip <> head_ip) extra) /\
  (forall h, _head_node self' = Some h ->
             _head_node self = Some h \/
             (In h nodes /\ _node_ip h = Ok head_ip)).
Proof.
  revert self. induction nodes as [|n nodes IH]; intros self.
  - intros [= <-]. repeat split; auto. exists []. split; [|constructor].
    now rewrite app_nil_r.
  - cbn [init_loop]. destruct (_node_ip n) as [ip|e] eqn:Hip; cbn;
      [|discriminate].
    intros Hl. apply IH in Hl as (Hu & Hn & Hs & (extra & Ha & Hf) & Hh).
    assert (Hmono : Forall (fun n0 => In n0 (n :: nodes) /\
                        _has_cpu_resources n0 = true /\
                        exists ip, _node_ip n0 = Ok ip /\ ip <> head_ip) extra).
    { eapply Forall_impl; [exact Hf|]. cbn. intros x (? & ? & ?). auto. }
    destruct (String.eqb head_ip ip) eqn:Eip.
    + apply String.eqb_eq in Eip. subst ip. cbn in *.
      repeat split; auto.
      * exists extra. auto.
      * intros h Hh'. destruct (Hh h Hh') as [[= <-]|[? ?]]; cbn; auto.
    + apply String.eqb_neq in Eip.
      destruct (_has_cpu_resources n) eqn:Ecpu; cbn in *.
      * repeat split; auto.
        -- exists (n :: extra). split; [now rewrite Ha, <- app_assoc|].
           constructor; [|exact Hmono]. cbn. split; [auto|].
           split; [exact Ecpu|]. exists ip. auto.
        -- intros h Hh'. destruct (Hh h Hh') as [?|[? ?]]; cbn; auto.
      * repeat split; auto.
        -- exists extra. auto.
        -- intros h Hh'. destruct (Hh h Hh') as [?|[? ?]]; cbn; auto.
Qed.

Lemma init_devices_loop_inv (Q : node -> Prop) (available : list node)
    (ids : list nat) (sys sys' : ray_system) :
  Forall Q available ->
  init_devices_loop available ids sys = Ok sys' ->
  (forall d, In d (_devices sys) ->
     exists n, _device_to_node sys !! d = Some n /\
               _node_key n = Ok (node_addr d) /\ Q n) ->
  ray_tables sys' = ray_tables sys /\
  (exists ds, _devices sys' = _devices sys ++ ds /\
              map node_id ds = map Z.of_nat ids) /\
  (forall d, In d (_devices sys') ->
     exists n, _device_to_node sys' !! d = Some n /\
               _node_key n = Ok (node_addr d) /\ Q n).
Proof.
  intros HQ. revert sys. induction ids as [|id ids IH]; intros sys.
  - intros [= <-] HP. split; [reflexivity|]. split; [|exact HP].
    exists []. now rewrite app_nil_r.
  - cbn [init_devices_loop]. unfold list_getitem.
    destruct (available !! id) as [n|] eqn:Hn; cbn; [|discriminate].
    destruct (_node_key n) as [key|e] eqn:Hk; cbn; [|discriminate].
    intros Hl HP. apply IH in Hl as (Ht & (ds & Hds & Hid) & HP').
    + split; [exact Ht|]. split; [|exact HP'].
      exists (mkDeviceID (Z.of_nat id) key "cpu" 1 :: ds). cbn in *.
      split; [now rewrite Hds, <- app_assoc|]. now rewrite Hid.
    + cbn. intros d Hd. apply in_app_or in Hd.
      assert (HQn : Q n).
      { exact (Forall_lookup_1 _ _ _ _ HQ Hn). }
      destruct (decide (d = mkDeviceID (Z.of_nat id) key "cpu" 1)) as [->|Hne].
      * exists n. rewrite lookup_insert_eq. auto.
      * rewrite lookup_insert_ne by congruence.
        destruct Hd as [Hd|[Hd|[]]]; [now apply HP|congruence].
Qed.

(** What [init] establishes on an object fresh from the constructor:
    the devices are numbered in order, they are as many as were asked
    for, and each is mapped to a node that [ray.nodes()] reported,
    that offers a CPU, whose one node key is the address of the
    device, and that is the head node only when the head may be
    used. *)
Lemma init_inv (use_head : bool) (num_nodes : option Z) (head_ip : string)
    (nodes : list node) (self : ray_cluster) :
  init (__init__ use_head num_nodes) head_ip nodes = Ok self ->
  ray_tables (system self) = Tables ∅ ∅ /\
  map node_id (_devices (system self))
  = map Z.of_nat (seq 0 (length (_devices (system self)))) /\
  (forall k, num_nodes = Some k ->
             length (_devices (system self)) = Z.to_nat k) /\
  forall d, In d (_devices (system self)) ->
    exists n, _device_to_node (system self) !! d = Some n /\
              _node_key n = Ok (node_addr d) /\
              In n nodes /\ _has_cpu_resources n = true /\
              exists ip, _node_ip n = Ok ip /\
                         (ip = head_ip -> use_head = true).
Proof.
  unfold init. destruct (init_loop _ _ _) as [s|e] eqn:Hl; cbn; [|discriminate].
  apply init_loop_inv in Hl as (Hu & Hn & Hs & (extra & Ha & Hf) & Hh).
  cbn in Hu, Hn, Hs, Ha, Hh.
  set (available := match _head_node s with
                    | Some head =>
                        if _use_head s && _has_cpu_resources head
                        then _available_nodes s ++ [head]
                        else _available_nodes s
                    | None => _available_nodes s
                    end).
  set (Q := fun n => In n nodes /\ _has_cpu_resources n = true /\
                     exists ip, _node_ip n = Ok ip /\
                                (ip = head_ip -> use_head = true)).
  assert (HQ : Forall Q available).
  { assert (Hw : Forall Q (_available_nodes s)).
    { rewrite Ha. eapply Forall_impl; [exact Hf|].
      intros n (? & ? & ip & ? & ?). unfold Q. split; [auto|]. split; [auto|].
      exists ip. split; [auto|]. congruence. }
    unfold available. destruct (_head_node s) as [h|] eqn:Eh; [|exact Hw].
    destruct (_use_head s && _has_cpu_resources h) eqn:Eb; [|exact Hw].
    apply andb_true_iff in Eb as [Eu Ec].
    apply Forall_app. split; [exact Hw|]. constructor; [|constructor].
    destruct (Hh h eq_refl) as [[=]|[Hin Hip]].
    unfold Q. split; [auto|]. split; [auto|]. exists head_ip.
    split; [auto|]. intros _. congruence. }
  destruct (assert _) as [[]|e]; cbn; [|discriminate].
  unfold init_devices. cbn.
  destruct (init_devices_loop _ _ _) as [sys|e] eqn:Hd; cbn; [|discriminate].
  intros [= <-]. cbn.
  apply (init_devices_loop_inv Q) in Hd as (Ht & (ds & Hds & Hid) & HP);
    [|exact HQ|cbn; intros d []].
  cbn in Ht, Hds. rewrite Hs in Ht. cbn in Ht.
  assert (Hlen : length ds = length (seq 0 (Z.to_nat
                   match _num_nodes s with
                   | Some k => k
                   | None => Z.of_nat (length available)
                   end))).
  { rewrite <- (length_map node_id), Hid. now rewrite length_map. }
  rewrite length_seq in Hlen.
  split; [exact Ht|]. rewrite Hds. split; [|split].
  - rewrite Hid, Hlen. reflexivity.
  - intros k ->. rewrite Hlen, Hn. reflexivity.
  - rewrite <- Hds. exact HP.
Qed.

(** X7: after [init] on an object fresh from the constructor, the
    devices are numbered 0, 1, ... in order; when a number of nodes
    was asked for there are as many devices (none for a number below
    one); and every device is mapped to a node that was reported,
    offers a CPU, and has the address of the device as its one node
    key. *)
Theorem init_devices_consistent (use_head : bool) (num_nodes : option Z)
    (head_ip : string) (nodes : list node) (self : ray_cluster) :
  init (__init__ use_head num_nodes) head_ip nodes = Ok self ->
  map node_id (_devices (system self))
  = map Z.of_nat (seq 0 (length (_devices (system self)))) /\
  (forall k, num_nodes = Some k ->
             length (_devices (system self)) = Z.to_nat k) /\
  forall d, In d (_devices (system self)) ->
    exists n, _device_to_node (system self) !! d = Some n /\
              _node_key n = Ok (node_addr d) /\
              In n nodes /\ _has_cpu_resources n = true.
Proof.
  intros Hi. apply init_inv in Hi as (_ & Hids & Hk & HP).
  split; [exact Hids|]. split; [exact Hk|].
  intros d Hd. destruct (HP d Hd) as (n & ? & ? & ? & ? & _). eauto.
Qed.

Lemma init_cluster :
  exists self, init (__init__ false None) "10.0.0.1" cluster_nodes = Ok self /\
               _devices (system self) = [mkDeviceID 0 "node:10.0.0.2" "cpu" 1].
Proof. eexists. split; vm_compute; reflexivity. Qed.

Lemma init_devices_consistent_witness :
  exists self,
    init (__init__ false None) "10.0.0.1" cluster_nodes = Ok self /\
    map node_id (_devices (system self))
    = map Z.of_nat (seq 0 (length (_devices (system self)))) /\
    (forall k, None = Some k ->
               length (_devices (system self)) = Z.to_nat k) /\
    forall d, In d (_devices (system self)) ->
      exists n, _device_to_node (system self) !! d = Some n /\
                _node_key n = Ok (node_addr d) /\
                In n cluster_nodes /\ _has_cpu_resources n = true.
Proof.
  destruct init_cluster as (self & Hi & _). exists self.
  split; [exact Hi|].
  exact (init_devices_consistent false None "10.0.0.1" cluster_nodes self Hi).
Defined.

(** X8: when the head node may not be used, no device of an object
    initialised by [init] is mapped to a node at the head's address. *)
Theorem init_keeps_off_head (num_nodes : option Z) (head_ip : string)
    (nodes : list node) (self : ray_cluster) (d : DeviceID) (n : node) :
  init (__init__ false num_nodes) head_ip nodes = Ok self ->
  In d (_devices (system self)) ->
  _device_to_node (system self) !! d = Some n ->
  exists ip, _node_ip n = Ok ip /\ ip <> head_ip.
Proof.
  intros Hi Hd Hn. apply init_inv in Hi as (_ & _ & _ & HP).
  destruct (HP d Hd) as (n' & Hn' & _ & _ & _ & ip & Hip & Hhead).
  assert (n' = n) as -> by congruence.
  exists ip. split; [exact Hip|]. intros ->. now specialize (Hhead eq_refl).
Qed.

Lemma init_keeps_off_head_witness :
  exists ip, _node_ip node_worker = Ok ip /\ ip <> "10.0.0.1".
Proof.
  destruct init_cluster as (self & Hi & Hds).
  apply (init_keeps_off_head None "10.0.0.1" cluster_nodes self
           (mkDeviceID 0 "node:10.0.0.2" "cpu" 1) node_worker Hi).
  - rewrite Hds. now left.
  - revert Hi. vm_compute. intros [= <-]. reflexivity.
Defined.

(** X9: once the function "identity" is registered on an object
    initialised by [init], [put] on any of its devices succeeds, and
    the task it hands over requests the address of that device and
    nothing else. *)
Theorem put_after_init (use_head : bool) (num_nodes : option Z)
    (head_ip : string) (nodes : list node) (self : ray_cluster)
    (t : tables) (f : dispatchable) (value : pyobj) (d : DeviceID) :
  init (__init__ use_head num_nodes) head_ip nodes = Ok self ->
  _remote_functions t !! "identity" = Some f ->
  In d (_devices (system self)) ->
  put (with_tables (system self) t) value (Some d)
  = Ok (Task f {["resources" :=
                   OptResources {[node_addr d := placement_amount]}]}
             [value] ∅).
Proof.
  intros Hi Hf Hd. apply init_inv in Hi as (_ & _ & _ & HP).
  destruct (HP d Hd) as (n & Hn & Hk & _).
  unfold put.
  rewrite (call_device_dispatches (with_tables (system self) t) "identity"
             [value] ∅ d ∅ n (node_addr d) f Hn Hk Hf).
  - now rewrite insert_empty.
  - intros Hc. apply contains_true in Hc. rewrite lookup_empty in Hc.
    now destruct Hc.
Qed.

Lemma put_after_init_witness :
  exists self,
    init (__init__ false None) "10.0.0.1" cluster_nodes = Ok self /\
    put (with_tables (system self) (Tables {["identity" := identity_remote]} ∅))
        (PyInt 7) (Some (mkDeviceID 0 "node:10.0.0.2" "cpu" 1))
    = Ok (Task identity_remote
               {["resources" :=
                   OptResources {["node:10.0.0.2" := placement_amount]}]}
               [PyInt 7] ∅).
Proof.
  destruct init_cluster as (self & Hi & Hds). exists self.
  split; [exact Hi|].
  apply (put_after_init false None "10.0.0.1" cluster_nodes self
           (Tables {["identity" := identity_remote]} ∅) identity_remote
           (PyInt 7) (mkDeviceID 0 "node:10.0.0.2" "cpu" 1) Hi).
  - exact (lookup_singleton_eq "identity" identity_remote).
  - rewrite Hds. now left.
Defined.

(** *** Arguments between processes *)

Lemma _resolve_loop_bound (self : MPISystem.mpi_system)
    (incoming : nat -> pyobj) (args : list MPISystem.arg) (t : Z)
    (received : nat) (log : list MPISystem.event)
    (resolved : list MPISystem.arg) :
  exists ev resolved',
    MPISystem._resolve_loop self incoming args (Some t) received log resolved
    = (log ++ ev ++ [MPISystem.Barrier], inl resolved') /\
    length resolved' = (length resolved + length args)%nat /\
    ~ In MPISystem.Barrier ev.
Proof.
  revert t received log resolved.
  induction args as [|a args IH]; intros t received log resolved.
  - exists [], resolved. cbn. split; [reflexivity|]. split; [lia|auto].
  - destruct a as [v|r]; cbn [MPISystem._resolve_loop].
    + destruct (t =? MPISystem.rank self).
      * destruct (IH t received log (resolved ++ [MPISystem.Held v]))
          as (ev & r' & H1 & H2 & H3).
        exists ev, r'. split; [exact H1|].
        rewrite length_app in H2. cbn in *. split; [lia|exact H3].
      * destruct (IH t received (log ++ [MPISystem.Send v t])
                    (resolved ++ [MPISystem.Held v]))
          as (ev & r' & H1 & H2 & H3).
        exists (MPISystem.Send v t :: ev), r'.
        split; [now rewrite H1, <- app_assoc|].
        rewrite length_app in H2. cbn in *. split; [lia|].
        intros [[=]|Hin]. auto.
    + destruct (r =? MPISystem.rank self).
      * destruct (IH r (S received) (log ++ [MPISystem.Recv r])
                    (resolved ++ [MPISystem.Held (incoming received)]))
          as (ev & r' & H1 & H2 & H3).
        exists (MPISystem.Recv r :: ev), r'.
        split; [now rewrite H1, <- app_assoc|].
        rewrite length_app in H2. cbn in *. split; [lia|].
        intros [[=]|Hin]. auto.
      * destruct (IH r received log (resolved ++ [MPISystem.MPITargetRank r]))
          as (ev & r' & H1 & H2 & H3).
        exists ev, r'. split; [exact H1|].
        rewrite length_app in H2. cbn in *. split; [lia|exact H3].
Qed.

(** X10: [_resolve_args] raises exactly when the first argument is a
    value held by the process rather than a placeholder, and then it
    raises [UnboundLocalError] before anything is asked of the
    communicator; otherwise it returns as many arguments as it was
    given and meets the barrier once, as the last thing it does. *)
Theorem resolve_args_first_held (self : MPISystem.mpi_system)
    (incoming : nat -> pyobj) (args : list MPISystem.arg) :
  match args with
  | MPISystem.Held _ :: _ =>
      MPISystem._resolve_args self incoming args
      = ([], inr MPISystem.UnboundLocalError)
  | _ =>
      exists ev resolved,
        MPISystem._resolve_args self incoming args
        = (ev ++ [MPISystem.Barrier], inl resolved) /\
        length resolved = length args /\ ~ In MPISystem.Barrier ev
  end.
Proof.
  unfold MPISystem._resolve_args. destruct args as [|[v|r] args].
  - exists [], []. cbn. auto.
  - reflexivity.
  - cbn [MPISystem._resolve_loop]. destruct (r =? MPISystem.rank self).
    + destruct (_resolve_loop_bound self incoming args r 1
                  ([] ++ [MPISystem.Recv r])
                  ([] ++ [MPISystem.Held (incoming 0%nat)]))
        as (ev & r' & H1 & H2 & H3).
      exists (MPISystem.Recv r :: ev), r'. split; [exact H1|].
      cbn in *. split; [lia|]. intros [[=]|Hin]. auto.
    + destruct (_resolve_loop_bound self incoming args r 0 []
                  ([] ++ [MPISystem.MPITargetRank r]))
        as (ev & r' & H1 & H2 & H3).
      exists ev, r'. split; [exact H1|]. cbn in *. split; [lia|exact H3].
Qed.

(** X11: a value that [put] placed on the device of the calling
    process is held by that process, and [call] cannot take it as its
    first argument: whatever the function, the other arguments and the
    known device of the call, the call raises [UnboundLocalError],
    and nothing is asked of the communicator. *)
Theorem call_on_held_value_raises (self : MPISystem.mpi_system)
    (incoming : nat -> pyobj) (v : pyobj) (d d' : DeviceID) (t' : Z)
    (name : string) (rest : list MPISystem.arg)
    (kwargs : gmap string pyobj) (options : gmap string optval) :
  MPISystem.mpi_device_to_node self !! d = Some (MPISystem.rank self) ->
  MPISystem.mpi_device_to_node self !! d' = Some t' ->
  exists x,
    MPISystem.put self v d = Ok x /\
    MPISystem.call self incoming name (x :: rest) kwargs d' options
    = ([], inr MPISystem.UnboundLocalError).
Proof.
  intros Hd Hd'. exists (MPISystem.Held v). split.
  - unfold MPISystem.put, getitem. rewrite Hd. cbn. now rewrite Z.eqb_refl.
  - unfold MPISystem.call, getitem. now rewrite Hd'.
Qed.

Lemma call_on_held_value_raises_witness :
  exists x,
    MPISystem.put mpi0 (PyInt 7) (mkDeviceID 0 "10.0.0.1" "cpu" 0) = Ok x /\
    MPISystem.call mpi0 (fun _ => PyNone) "f" (x :: []) ∅
      (mkDeviceID 0 "10.0.0.1" "cpu" 0) ∅
    = ([], inr MPISystem.UnboundLocalError).
Proof.
  apply (call_on_held_value_raises mpi0 (fun _ => PyNone) (PyInt 7)
           (mkDeviceID 0 "10.0.0.1" "cpu" 0)
           (mkDeviceID 0 "10.0.0.1" "cpu" 0) 0 "f" [] ∅ ∅).
  - vm_compute. reflexivity.
  - vm_compute. reflexivity.
Defined.

End BackendFacts.
